(** * miband_res_hack: the resource container and its bit-packed images

    A shallow embedding of [miband_res_hack.py]: the struct codec
    ([Parser] and its four record kinds), the bit packer ([Bitwriter],
    [bitwalker], [chunkwise], [bits_to_int]), the palette image codec
    ([convert_palette_image_to_png], [convert_png_image_to_palette_image])
    and the container functions ([parse_resource], [parse_res_file],
    [repack_res_file]).

    Python integers are [Z]; a [bytes] object is a [list byte]; a raised
    exception is the [Raise] branch of [result]. *)

From Stdlib Require Import String.
From Stdlib Require Import ZArith List Lia Bool.
From Stdlib.Strings Require Import Byte.
Import ListNotations.
Local Open Scope Z_scope.

(* ================================================================== *)
(** ** Exceptions and the error monad *)

(** The exceptions the program can raise.  [Exception got want] is the
    source's own [raise Exception(f'{got} != {want}')]; the others are
    raised by the interpreter or by a library. *)
Inductive exn : Type :=
| Exception (got want : Z)
| StructError
| OverflowError
| ValueError
| IndexError
| TypeError
| FileNotFoundError.

Inductive result (A : Type) : Type :=
| Ok (a : A)
| Raise (e : exn).
Arguments Ok {A} a.
Arguments Raise {A} e.

Definition bind {A B : Type} (m : result A) (k : A -> result B) : result B :=
  match m with
  | Ok a => k a
  | Raise e => Raise e
  end.

Notation "x <- m ;; k" := (bind m (fun x => k))
  (at level 61, m at next level, right associativity).
Notation "' p <- m ;; k" := (bind m (fun x => let p := x in k))
  (at level 61, p pattern, m at next level, right associativity).

(** A list comprehension or a generator joined at once: the elements are
    produced left to right and the first exception ends the loop. *)
Fixpoint mapM {A B : Type} (f : A -> result B) (l : list A) : result (list B) :=
  match l with
  | [] => Ok []
  | a :: l' => b <- f a ;; bs <- mapM f l' ;; Ok (b :: bs)
  end.

(** [range(n)]: empty when [n <= 0]. *)
Definition range (n : Z) : list Z := map Z.of_nat (seq 0 (Z.to_nat n)).

(** [l[:n]].  A negative bound counts from the end. *)
Definition slice_to {A : Type} (l : list A) (n : Z) : list A :=
  if n <? 0 then firstn (Z.to_nat (Z.of_nat (length l) + n)) l
  else firstn (Z.to_nat n) l.

(** [l[n:]] for the non-negative offsets the program uses. *)
Definition slice_from {A : Type} (l : list A) (n : Z) : list A :=
  skipn (Z.to_nat n) l.

(** [a << n]: Python raises [ValueError] on a negative shift count. *)
Definition lshift (a n : Z) : result Z :=
  if n <? 0 then Raise ValueError else Ok (Z.shiftl a n).

(* ================================================================== *)
(** ** Bytes *)

Definition Z_of_byte (b : byte) : Z := Z.of_N (Byte.to_N b).

(** The byte whose value is [z mod 256]. *)
Definition byte_of_Z (z : Z) : byte :=
  match Byte.of_N (Z.to_N (z mod 256)) with
  | Some b => b
  | None => x00
  end.

Definition is_u8 (z : Z) : bool := (0 <=? z) && (z <? 256).

(** [array('B', l).tobytes()]: every item must be an unsigned byte,
    otherwise [OverflowError]. *)
Definition array_B_tobytes (l : list Z) : result (list byte) :=
  mapM (fun z => if is_u8 z then Ok (byte_of_Z z) else Raise OverflowError) l.

(* ================================================================== *)
(** ** Bit packer: [Bitwriter] *)

Record Bitwriter : Type := mkBitwriter {
  bytes : list Z;
  last_byte : option Z;
  pos : Z
}.

(** [Bitwriter.__init__] *)
Definition Bitwriter_init : Bitwriter :=
  {| bytes := []; last_byte := None; pos := 0 |}.

(** [Bitwriter.add] *)
Definition add (self : Bitwriter) (number bits : Z) : result Bitwriter :=
  let last := match last_byte self with None => 0 | Some v => v end in
  last <- lshift last bits ;;
  let last := Z.lor last number in
  let pos' := pos self + bits in
  if 8 <=? pos'
  then Ok {| bytes := bytes self ++ [last]; last_byte := Some 0; pos := 0 |}
  else Ok {| bytes := bytes self; last_byte := Some last; pos := pos' |}.

(** [Bitwriter.build] *)
Definition build (self : Bitwriter) : result (list byte) :=
  match last_byte self with
  | Some last =>
      last <- lshift last (8 - pos self) ;;
      array_B_tobytes (bytes self ++ [last])
  | None => array_B_tobytes (bytes self)
  end.

(** A run of [add] calls with one bit width, as the row loop makes them. *)
Fixpoint add_all (self : Bitwriter) (numbers : list Z) (bits : Z)
  : result Bitwriter :=
  match numbers with
  | [] => Ok self
  | number :: rest => self' <- add self number bits ;; add_all self' rest bits
  end.

(** A run of [add] calls, each with its own bit width. *)
Fixpoint add_each (self : Bitwriter) (calls : list (Z * Z)) : result Bitwriter :=
  match calls with
  | [] => Ok self
  | (number, bits) :: rest => self' <- add self number bits ;; add_each self' rest
  end.

(** Packing one row: a fresh [Bitwriter], one [add] per index, [build]. *)
Definition pack (indices : list Z) (bits_per_pixel : Z) : result (list byte) :=
  w <- add_all Bitwriter_init indices bits_per_pixel ;; build w.

(* ================================================================== *)
(** ** Bit unpacker: [bitwalker], [chunkwise], [bits_to_int] *)

(** [bitwalker]: the bits of each byte, most significant first. *)
Definition bitwalker (byte_data : list byte) : list Z :=
  flat_map
    (fun b =>
       map (fun bitpos =>
              Z.shiftr (Z.land (Z_of_byte b) (Z.shiftl 1 bitpos)) bitpos)
           [7; 6; 5; 4; 3; 2; 1; 0])
    byte_data.

(** The loop of [chunkwise], [chunk] being the chunk under construction. *)
Fixpoint chunkwise_loop {A : Type} (count : Z) (chunk : list A) (iterable : list A)
  : list (list A) :=
  match iterable with
  | [] => match chunk with [] => [] | _ => [chunk] end
  | i :: rest =>
      let chunk := chunk ++ [i] in
      if Z.of_nat (length chunk) =? count
      then chunk :: chunkwise_loop count [] rest
      else chunkwise_loop count chunk rest
  end.

(** [chunkwise] *)
Definition chunkwise {A : Type} (count : Z) (iterable : list A) : list (list A) :=
  chunkwise_loop count [] iterable.

(** The loop of [bits_to_int] over [enumerate(bits[::-1])]. *)
Fixpoint bits_to_int_loop (idx retval : Z) (l : list Z) : Z :=
  match l with
  | [] => retval
  | bit :: rest => bits_to_int_loop (idx + 1) (retval + Z.shiftl bit idx) rest
  end.

(** [bits_to_int] *)
Definition bits_to_int (bits : list Z) : Z :=
  bits_to_int_loop 0 0 (rev bits).

(** The palette indices the decoder takes from one packed row: the chunks
    numbered [0 .. width-1], each read as an integer (the inner loop of
    [convert_palette_image_to_png] stops at the first [x > width - 1]). *)
Definition unpack (row_data : list byte) (width bits_per_pixel : Z) : list Z :=
  map bits_to_int
      (firstn (Z.to_nat width) (chunkwise bits_per_pixel (bitwalker row_data))).

(* ================================================================== *)
(** ** [struct]: the layouts the program uses *)

Inductive byteorder : Type := LittleEndian | BigEndian.

(** The byte order of the format characters without a prefix ('H', 'I'):
    that of the host.  The hosts the tool runs on are little-endian, and
    the one format with an explicit order, ['<I'], is little-endian too. *)
Definition native_byteorder : byteorder := LittleEndian.

(** The format strings of the four [format] tables. *)
Inductive fmt : Type :=
| fmt_B (n : nat)   (** 'B' (n = 1), '4B', '5B', '10B': n unsigned bytes *)
| fmt_H             (** 'H': unsigned 16-bit, native order *)
| fmt_I             (** 'I': unsigned 32-bit, native order *)
| fmt_le_I.         (** '<I': unsigned 32-bit, little-endian *)

(** [struct.calcsize] *)
Definition calcsize (f : fmt) : nat :=
  match f with
  | fmt_B n => n
  | fmt_H => 2
  | fmt_I => 4
  | fmt_le_I => 4
  end.

Fixpoint uint_of_le (bs : list byte) : Z :=
  match bs with
  | [] => 0
  | b :: rest => Z_of_byte b + 256 * uint_of_le rest
  end.

Definition uint_of_bytes (o : byteorder) (bs : list byte) : Z :=
  match o with
  | LittleEndian => uint_of_le bs
  | BigEndian => uint_of_le (rev bs)
  end.

Fixpoint le_of_uint (n : nat) (z : Z) : list byte :=
  match n with
  | O => []
  | S n' => byte_of_Z z :: le_of_uint n' (z / 256)
  end.

Definition bytes_of_uint (o : byteorder) (n : nat) (z : Z) : list byte :=
  match o with
  | LittleEndian => le_of_uint n z
  | BigEndian => rev (le_of_uint n z)
  end.

(** Packing one unsigned integer of [n] bytes: [struct.error] when the
    value does not fit. *)
Definition pack_uint (o : byteorder) (n : nat) (z : Z) : result (list byte) :=
  if (0 <=? z) && (z <? 256 ^ Z.of_nat n)
  then Ok (bytes_of_uint o n z)
  else Raise StructError.

(** [struct.unpack(format, part)]: the tuple of unpacked integers. *)
Definition struct_unpack (f : fmt) (part : list byte) : result (list Z) :=
  if negb (length part =? calcsize f)%nat then Raise StructError
  else match f with
       | fmt_B _ => Ok (map Z_of_byte part)
       | fmt_H | fmt_I => Ok [uint_of_bytes native_byteorder part]
       | fmt_le_I => Ok [uint_of_bytes LittleEndian part]
       end.

(** [struct.pack(format, *args)] *)
Definition struct_pack (f : fmt) (args : list Z) : result (list byte) :=
  match f with
  | fmt_B n =>
      if negb (length args =? n)%nat then Raise StructError
      else bs <- mapM (pack_uint LittleEndian 1) args ;; Ok (concat bs)
  | fmt_H =>
      match args with
      | [z] => pack_uint native_byteorder 2 z
      | _ => Raise StructError
      end
  | fmt_I =>
      match args with
      | [z] => pack_uint native_byteorder 4 z
      | _ => Raise StructError
      end
  | fmt_le_I =>
      match args with
      | [z] => pack_uint LittleEndian 4 z
      | _ => Raise StructError
      end
  end.

(* ================================================================== *)
(** ** Binary struct codec: [Parser] *)

(** A field of a parsed record: an integer, or the tuple that a repeated
    format such as '5B' unpacks to. *)
Inductive pyval : Type :=
| VInt (z : Z)
| VTuple (t : list Z).

(** A [BytesIO] opened for reading: the bytes not read yet. *)
Definition BytesIO : Type := list byte.

(** [fh.read(n)]: at most [n] bytes; a negative [n] reads to the end. *)
Definition read_bytes (fh : BytesIO) (n : Z) : list byte * BytesIO :=
  if n <? 0 then (fh, [])
  else (firstn (Z.to_nat n) fh, skipn (Z.to_nat n) fh).

(** [fh.read()] *)
Definition read_rest (fh : BytesIO) : list byte * BytesIO := (fh, []).

(** The class attributes a subclass of [Parser] sets: [format] and
    [container_class] (a namedtuple: built from the field values by
    [container_class], iterated over by [fields]). *)
Class Parser (T : Type) : Type := {
  format : list (Z * fmt);
  container_class : list pyval -> result T;
  fields : T -> list pyval
}.

Section Parser.
Context {T : Type} {cls : Parser T}.

(** [Parser.get_total_bytes] *)
Definition get_total_bytes : Z :=
  fold_right (fun sf acc => fst sf + acc) 0 format.

(** [Parser._read_buffer] *)
Definition _read_buffer (fh : BytesIO) : result (list byte * BytesIO) :=
  let total_bytes := get_total_bytes in
  let '(all_data, fh) := read_bytes fh total_bytes in
  if negb (Z.of_nat (length all_data) =? total_bytes)
  then Raise (Exception (Z.of_nat (length all_data)) total_bytes)
  else Ok (all_data, fh).

(** The loop of [Parser.parse_data]. *)
Fixpoint parse_data_loop (fmts : list (Z * fmt)) (data : list byte) (offset : Z)
  : result (list pyval) :=
  match fmts with
  | [] => Ok []
  | (size, f) :: fmts' =>
      let part := firstn (Z.to_nat size) (slice_from data offset) in
      let offset := offset + size in
      if negb (Z.of_nat (length part) =? size)
      then Raise (Exception (Z.of_nat (length part)) size)
      else
        unpacked <- struct_unpack f part ;;
        let unpacked :=
          match unpacked with
          | [z] => VInt z
          | _ => VTuple unpacked
          end in
        retval <- parse_data_loop fmts' data offset ;;
        Ok (unpacked :: retval)
  end.

(** [Parser.parse_data] *)
Definition parse_data (data : list byte) : result T :=
  retval <- parse_data_loop format data 0 ;;
  container_class retval.

(** [Parser.read] *)
Definition read (buffer : BytesIO) : result (T * BytesIO) :=
  '(data, buffer) <- _read_buffer buffer ;;
  retval <- parse_data data ;;
  Ok (retval, buffer).

(** The loop of [Parser.build_bytes] over [zip(cls.format, parts)]. *)
Fixpoint build_bytes_loop (fmts : list (Z * fmt)) (parts : list pyval)
  : result (list (list byte)) :=
  match fmts, parts with
  | (size, f) :: fmts', part :: parts' =>
      let part := match part with VTuple t => t | VInt z => [z] end in
      data <- struct_pack f part ;;
      if negb (Z.of_nat (length data) =? size)
      then Raise (Exception (Z.of_nat (length part)) size)
      else
        bytes_list <- build_bytes_loop fmts' parts' ;;
        Ok (data :: bytes_list)
  | _, _ => Ok []
  end.

(** [Parser.build_bytes] *)
Definition build_bytes (parts : T) : result (list byte) :=
  bytes_list <- build_bytes_loop format (fields parts) ;;
  Ok (concat bytes_list).
End Parser.

(** [HeaderParser] *)
Module HeaderParser.
Record HeaderContainer : Type := mkHeaderContainer {
  sig : list Z;
  version : Z;
  stuff : list Z;
  res_count : Z
}.

#[global] Instance parser : Parser HeaderContainer := {
  format := [(5, fmt_B 5); (1, fmt_B 1); (10, fmt_B 10); (4, fmt_I)];
  container_class retval :=
    match retval with
    | [VTuple sig; VInt version; VTuple stuff; VInt res_count] =>
        Ok (mkHeaderContainer sig version stuff res_count)
    | _ => Raise TypeError
    end;
  fields h := [VTuple (sig h); VInt (version h); VTuple (stuff h);
               VInt (res_count h)]
}.
End HeaderParser.

(** [TOCParser] *)
Module TOCParser.
Record TOCEntry : Type := mkTOCEntry { abs_offset : Z }.

#[global] Instance parser : Parser TOCEntry := {
  format := [(4, fmt_le_I)];
  container_class retval :=
    match retval with
    | [VInt abs_offset] => Ok (mkTOCEntry abs_offset)
    | _ => Raise TypeError
    end;
  fields e := [VInt (abs_offset e)]
}.
End TOCParser.

(** [ImageHeaderParser] *)
Module ImageHeaderParser.
Record ImageHeader : Type := mkImageHeader {
  sig : list Z;
  width : Z;
  height : Z;
  row_length : Z;
  bits_per_pixel : Z;
  palette_colors : Z;
  transparency : Z
}.

#[global] Instance parser : Parser ImageHeader := {
  format := [(4, fmt_B 4); (2, fmt_H); (2, fmt_H); (2, fmt_H); (2, fmt_H);
             (2, fmt_H); (2, fmt_H)];
  container_class retval :=
    match retval with
    | [VTuple sig; VInt width; VInt height; VInt row_length;
       VInt bits_per_pixel; VInt palette_colors; VInt transparency] =>
        Ok (mkImageHeader sig width height row_length bits_per_pixel
                          palette_colors transparency)
    | _ => Raise TypeError
    end;
  fields h := [VTuple (sig h); VInt (width h); VInt (height h);
               VInt (row_length h); VInt (bits_per_pixel h);
               VInt (palette_colors h); VInt (transparency h)]
}.
End ImageHeaderParser.

(** [PaletteParser] *)
Module PaletteParser.
Record PaletteData : Type := mkPaletteData { r : Z; g : Z; b : Z; pad : Z }.

#[global] Instance parser : Parser PaletteData := {
  format := [(1, fmt_B 1); (1, fmt_B 1); (1, fmt_B 1); (1, fmt_B 1)];
  container_class retval :=
    match retval with
    | [VInt r; VInt g; VInt b; VInt pad] => Ok (mkPaletteData r g b pad)
    | _ => Raise TypeError
    end;
  fields p := [VInt (r p); VInt (g p); VInt (b p); VInt (pad p)]
}.
End PaletteParser.

Import HeaderParser(HeaderContainer, mkHeaderContainer, res_count).
Import TOCParser(TOCEntry, mkTOCEntry, abs_offset).
Import ImageHeaderParser(ImageHeader, mkImageHeader, width, height, row_length,
                         bits_per_pixel, palette_colors, transparency).
Import PaletteParser(PaletteData, mkPaletteData).

(* ================================================================== *)
(** ** The interchange raster *)

(** The indexed-colour image library ([PIL.Image]), an external
    collaborator of the program.  A mode 'P' image is its size, its flat
    palette table and one 8-bit palette index per pixel.  A PNG file is
    modelled by the image that [Image.open] reads from it; [save] gives
    the image that comes back from the file [img.save] writes, which is
    not always the image saved. *)
Module Image.
Record Image : Type := mkImage {
  size : Z * Z;
  palette : list Z;
  pixels : Z -> Z -> Z
}.

(** [Image.new('P', size)]: every pixel is 0. *)
Definition new (size : Z * Z) : Image :=
  {| size := size; palette := []; pixels := fun _ _ => 0 |}.

(** [img.putpalette(data)] *)
Definition putpalette (im : Image) (data : list Z) : Image :=
  {| size := size im; palette := data; pixels := pixels im |}.

(** [im.getpalette()] *)
Definition getpalette (im : Image) : list Z := palette im.

Definition inside (im : Image) (xy : Z * Z) : bool :=
  (0 <=? fst xy) && (fst xy <? fst (size im)) &&
  (0 <=? snd xy) && (snd xy <? snd (size im)).

(** An 8-bit pixel stores its value clamped to [0, 255]. *)
Definition clip8 (v : Z) : Z :=
  if v <=? 0 then 0 else if v <? 256 then v else 255.

(** [img.putpixel(xy, value)]: [IndexError] outside the image. *)
Definition putpixel (im : Image) (xy : Z * Z) (value : Z) : result Image :=
  if inside im xy
  then Ok {| size := size im; palette := palette im;
             pixels := fun x y =>
               if (x =? fst xy) && (y =? snd xy) then clip8 value
               else pixels im x y |}
  else Raise IndexError.

(** [im.getpixel(xy)]: [IndexError] outside the image. *)
Definition getpixel (im : Image) (xy : Z * Z) : result Z :=
  if inside im xy then Ok (pixels im (fst xy) (snd xy))
  else Raise IndexError.

(** The number of colours [img.save(fh, format='png')] counts in the
    palette table of a mode 'P' image: a third of its length, at most 256
    and at least 1. *)
Definition png_colors (palette : list Z) : Z :=
  Z.max (Z.min (Z.of_nat (length palette) / 3) 256) 1.

(** The bit depth of the PNG file: the smallest of 1, 2, 4 and 8 bits
    that holds that many colours. *)
Definition png_depth (colors : Z) : Z :=
  if colors <=? 2 then 1
  else if colors <=? 4 then 2
  else if colors <=? 16 then 4
  else 8.

(** What an index reads after it was stored in [bits] bits: at 1 bit
    every index other than 0 is stored as 1, at the other depths the low
    [bits] bits of the index are kept. *)
Definition png_index (bits v : Z) : Z :=
  if bits =? 1 then (if v =? 0 then 0 else 1) else v mod 2 ^ bits.

(** [img.save(fh, format='png')], then [Image.open] on the bytes written:
    an image without pixels cannot be written ([ValueError]); the file
    holds the counted colours of the palette table (missing values are
    0) and the indices at the file's depth. *)
Definition save (im : Image) : result Image :=
  if (fst (size im) <=? 0) || (snd (size im) <=? 0) then Raise ValueError
  else
    let colors := png_colors (palette im) in
    let n := Z.to_nat (3 * colors) in
    Ok {| size := size im;
          palette := firstn n (palette im ++ repeat 0 n);
          pixels := fun x y => png_index (png_depth colors) (pixels im x y) |}.
End Image.
Import Image(Image).

(* ================================================================== *)
(** ** Palette image codec: decoding *)

(** [[PaletteParser.read(img_buf) for _ in range(n)]] *)
Fixpoint read_palette (n : nat) (img_buf : BytesIO)
  : result (list PaletteData * BytesIO) :=
  match n with
  | O => Ok ([], img_buf)
  | S n' =>
      '(p, img_buf) <- read (T:=PaletteData) img_buf ;;
      '(ps, img_buf) <- read_palette n' img_buf ;;
      Ok (p :: ps, img_buf)
  end.

(** The inner loop of [convert_palette_image_to_png], over
    [enumerate(chunkwise(bits_per_pixel, bitwalker(row_data)))] from
    index [x] on. *)
Fixpoint put_row (img : Image) (width y x : Z) (chunks : list (list Z))
  : result Image :=
  match chunks with
  | [] => Ok img
  | bits :: rest =>
      if x >? width - 1 then Ok img
      else
        let palette_idx := bits_to_int bits in
        img <- Image.putpixel img (x, y) palette_idx ;;
        put_row img width y (x + 1) rest
  end.

(** The outer loop of [convert_palette_image_to_png], over the rows [ys]. *)
Fixpoint decode_rows (image_info : ImageHeader) (ys : list Z)
         (img_buf : BytesIO) (img : Image) : result Image :=
  match ys with
  | [] => Ok img
  | y :: ys' =>
      let '(row_data, img_buf) := read_bytes img_buf (row_length image_info) in
      img <- put_row img (width image_info) y 0
               (chunkwise (bits_per_pixel image_info) (bitwalker row_data)) ;;
      decode_rows image_info ys' img_buf img
  end.

(** [convert_palette_image_to_png]; the result is the PNG file, as the
    image that opening it gives. *)
Definition convert_palette_image_to_png (image_info : ImageHeader)
           (image_data : list byte) : result Image :=
  let width := width image_info in
  let height := height image_info in
  let img := Image.new (width, height) in
  let img_buf : BytesIO := image_data in
  '(palette, img_buf) <-
     read_palette (Z.to_nat (palette_colors image_info)) img_buf ;;
  let raw_palette :=
    flat_map (fun p => [PaletteParser.r p; PaletteParser.g p; PaletteParser.b p])
             palette in
  let img := Image.putpalette img raw_palette in
  img <- decode_rows image_info (range height) img_buf img ;;
  Image.save img.

(* ================================================================== *)
(** ** Palette image codec: encoding *)

(** The [header] that [convert_png_image_to_palette_image] builds. *)
Definition new_header (im : Image) (original_image_info : ImageHeader)
  : ImageHeader :=
  let raw_palette :=
    slice_to (Image.getpalette im) (palette_colors original_image_info * 3) in
  {| ImageHeaderParser.sig := ImageHeaderParser.sig original_image_info;
     width := fst (Image.size im);
     height := snd (Image.size im);
     row_length := row_length original_image_info;
     bits_per_pixel := bits_per_pixel original_image_info;
     palette_colors := Z.of_nat (length raw_palette) / 3;
     transparency := transparency original_image_info |}.

(** One [PaletteData(r, g, b, 0)] per chunk of three palette values. *)
Definition build_palette_entry (chunk : list Z) : result (list byte) :=
  match chunk with
  | [r; g; b] => build_bytes (mkPaletteData r g b 0)
  | _ => Raise ValueError
  end.

(** The loop over [x] that feeds one row to the [Bitwriter]. *)
Fixpoint add_row (im : Image) (original_image_info : ImageHeader) (y : Z)
         (xs : list Z) (bitwriter : Bitwriter) : result Bitwriter :=
  match xs with
  | [] => Ok bitwriter
  | x :: xs' =>
      bit <- (if x >=? width original_image_info then Ok 0
              else Image.getpixel im (x, y)) ;;
      bitwriter <- add bitwriter bit (bits_per_pixel original_image_info) ;;
      add_row im original_image_info y xs' bitwriter
  end.

(** The body of the loop over [y]: the bytes appended to [image_data]. *)
Definition encode_row (im : Image) (original_image_info : ImageHeader) (y : Z)
  : result (list byte) :=
  bitwriter <- add_row im original_image_info y
                 (range (width original_image_info)) Bitwriter_init ;;
  built <- build bitwriter ;;
  Ok (slice_to built (row_length original_image_info)).

(** The rows of pixel data, in order. *)
Definition encode_rows (im : Image) (original_image_info : ImageHeader)
  : result (list (list byte)) :=
  mapM (encode_row im original_image_info)
       (range (height original_image_info)).

(** [convert_png_image_to_palette_image]; [image_data] is the PNG read. *)
Definition convert_png_image_to_palette_image (image_data : Image)
           (original_image_info : ImageHeader) : result (list byte) :=
  let im := image_data in
  let raw_palette :=
    slice_to (Image.getpalette im) (palette_colors original_image_info * 3) in
  let header := new_header im original_image_info in
  header_data <- build_bytes header ;;
  palette_data <- mapM build_palette_entry (chunkwise 3 raw_palette) ;;
  image_data <- encode_rows im original_image_info ;;
  Ok (header_data ++ concat palette_data ++ concat image_data).

(* ================================================================== *)
(** ** Container format: parsing and repacking *)

(** A file name [<output_dir>/<idx>.png] is its number [idx]. *)
Record Resource : Type := mkResource {
  image_info : ImageHeader;
  image_data : list byte;
  filename : Z
}.

Record ResFile : Type := mkResFile {
  header : HeaderContainer;
  toc : list TOCEntry;
  resources : list Resource
}.

(** [parse_resource] *)
Definition parse_resource (data : list byte) (idx : Z) : result Resource :=
  image_info <- parse_data (T:=ImageHeader) data ;;
  let image_data := slice_from data (get_total_bytes (T:=ImageHeader)) in
  rebuild <- build_bytes image_info ;;
  Ok {| image_info := image_info; image_data := image_data; filename := idx |}.

(** The first loop of [parse_res_file]: [n] entries of the table. *)
Fixpoint read_toc (n : nat) (buffer : BytesIO)
  : result (list TOCEntry * BytesIO) :=
  match n with
  | O => Ok ([], buffer)
  | S n' =>
      '(entry, buffer) <- read (T:=TOCEntry) buffer ;;
      '(toc, buffer) <- read_toc n' buffer ;;
      Ok (entry :: toc, buffer)
  end.

(** [enumerate] *)
Definition enumerate {A : Type} (l : list A) : list (Z * A) :=
  combine (range (Z.of_nat (length l))) l.

(** The second loop of [parse_res_file], over [enumerate(toc[1:])]. *)
Fixpoint parse_spans (entries : list (Z * TOCEntry)) (prev_abs_offset : Z)
         (buffer : BytesIO) : result (list Resource * BytesIO) :=
  match entries with
  | [] => Ok ([], buffer)
  | (idx, entry) :: entries' =>
      let resource_len := abs_offset entry - prev_abs_offset in
      let prev_abs_offset := abs_offset entry in
      let '(data, buffer) := read_bytes buffer resource_len in
      resource <- parse_resource data idx ;;
      '(resources, buffer) <- parse_spans entries' prev_abs_offset buffer ;;
      Ok (resource :: resources, buffer)
  end.

(** [parse_res_file] *)
Definition parse_res_file (buffer : BytesIO) : result ResFile :=
  '(header, buffer) <- read (T:=HeaderContainer) buffer ;;
  '(toc, buffer) <- read_toc (Z.to_nat (res_count header)) buffer ;;
  '(resources, buffer) <- parse_spans (enumerate (tl toc)) 0 buffer ;;
  let '(data, buffer) := read_rest buffer in
  last <- parse_resource data (Z.of_nat (length toc)) ;;
  Ok {| header := header; toc := toc; resources := resources ++ [last] |}.

(** The output file of [repack_res_file]: the bytes written so far, and
    whether the function went on or raised. *)
Definition written : Type := (list byte * result unit)%type.

Fixpoint write_toc (outfh : list byte) (toc : list TOCEntry) : written :=
  match toc with
  | [] => (outfh, Ok tt)
  | entry :: toc' =>
      match build_bytes entry with
      | Ok data => write_toc (outfh ++ data) toc'
      | Raise e => (outfh, Raise e)
      end
  end.

(** The PNG files on disk, by number; [None] where there is no file. *)
Definition files : Type := Z -> option Image.

Fixpoint write_resources (fs : files) (outfh : list byte)
         (resources : list Resource) : written :=
  match resources with
  | [] => (outfh, Ok tt)
  | resource :: resources' =>
      match fs (filename resource) with
      | None => (outfh, Raise FileNotFoundError)
      | Some png_data =>
          match convert_png_image_to_palette_image png_data
                  (image_info resource) with
          | Ok img_data => write_resources fs (outfh ++ img_data) resources'
          | Raise e => (outfh, Raise e)
          end
      end
  end.

(** [repack_res_file]; the script calls it with [resfile] being the global
    [parsed] whose resources the last loop walks. *)
Definition repack_res_file (fs : files) (resfile : ResFile) : written :=
  match build_bytes (header resfile) with
  | Raise e => ([], Raise e)
  | Ok data =>
      match write_toc data (toc resfile) with
      | (outfh, Ok _) => write_resources fs outfh (resources resfile)
      | (outfh, Raise e) => (outfh, Raise e)
      end
  end.

(* ================================================================== *)
(** ** Notions used to state the properties *)

(** The bit depths whose pixels never straddle a byte. *)
Definition supported_depth (bits : Z) : Prop :=
  bits = 1 \/ bits = 2 \/ bits = 4 \/ bits = 8.

(** A value that fits in [bits] bits. *)
Definition in_range (bits v : Z) : Prop := 0 <= v < 2 ^ bits.

Definition is_bit (x : Z) : Prop := x = 0 \/ x = 1.

(** The [n] low bits of [v], most significant first. *)
Fixpoint bits_of (n : nat) (v : Z) : list Z :=
  match n with
  | O => []
  | S n' => bits_of n' (v / 2) ++ [v mod 2]
  end.

(** The accumulator of a [Bitwriter], 0 before the first [add]. *)
Definition accumulator (w : Bitwriter) : Z :=
  match last_byte w with None => 0 | Some v => v end.

(** The state of a [Bitwriter] that was fed the values [ps], [bits] bits
    each: its completed bytes followed by the [pos] bits of its accumulator
    are the bits of [ps], in order. *)
Record packed (bits : Z) (ps : list Z) (w : Bitwriter) : Prop := mkPacked {
  packed_bits :
    exists full,
      bytes w = map Z_of_byte full /\
      bitwalker full ++ bits_of (Z.to_nat (pos w)) (accumulator w)
      = concat (map (bits_of (Z.to_nat bits)) ps);
  packed_pos : 0 <= pos w < 8;
  packed_aligned : pos w mod bits = 0;
  packed_acc : 0 <= accumulator w < 2 ^ pos w;
  packed_none : last_byte w = None <-> ps = []
}.

(** The shape of a [Bitwriter] after [n] calls of [add] with [bits] bits
    each, whatever the values added. *)
Record fed (bits : Z) (n : nat) (w : Bitwriter) : Prop := mkFed {
  fed_count : 8 * Z.of_nat (length (bytes w)) + pos w = bits * Z.of_nat n;
  fed_pos : 0 <= pos w < 8;
  fed_aligned : pos w mod bits = 0;
  fed_none : last_byte w = None <-> n = 0%nat
}.

(** The number of bits a run of [add] calls is told to add. *)
Definition total_bits (calls : list (Z * Z)) : Z :=
  fold_right (fun call acc => snd call + acc) 0 calls.

(** Eight calls [add(1, 3)]: 24 bits in all. *)
Definition three_bit_calls : list (Z * Z) := repeat (1, 3) 8.

(** A blank raster of 4 by 1 pixels and a header for it at 2 bits per
    pixel: one byte per row. *)
Definition blank_4x1 : Image := Image.new (4, 1).
Definition header_4x1 : ImageHeader := mkImageHeader [0; 0; 0; 0] 4 1 1 2 0 0.

(** A blank raster of 1 by 1 pixel and a header for it at 1 bit per pixel
    whose rows are two bytes long. *)
Definition blank_1x1 : Image := Image.new (1, 1).
Definition header_1x1_slack : ImageHeader :=
  mkImageHeader [0; 0; 0; 0] 1 1 2 1 0 0.

(** A format table whose declared sizes are those of its formats. *)
Definition wf_format (fmts : list (Z * fmt)) : Prop :=
  Forall (fun sf => fst sf = Z.of_nat (calcsize (snd sf))) fmts.

(** The sum of the declared sizes of a format table. *)
Definition sum_sizes (fmts : list (Z * fmt)) : Z :=
  fold_right (fun sf acc => fst sf + acc) 0 fmts.

(** What a field of a given format unpacks to. *)
Definition field_shape (sf : Z * fmt) (v : pyval) : Prop :=
  match snd sf, v with
  | fmt_B 1, VInt _ => True
  | fmt_B 1, VTuple _ => False
  | fmt_B n, VTuple t => length t = n
  | fmt_B _, VInt _ => False
  | _, VInt _ => True
  | _, VTuple _ => False
  end.

(** A record kind whose namedtuple takes and gives back the fields its
    format table unpacks. *)
Class ParserLaws (T : Type) {cls : Parser T} : Prop := {
  format_wf : wf_format format;
  container_class_shape :
    forall retval, Forall2 field_shape format retval ->
                   exists r, container_class retval = Ok r;
  fields_container_class :
    forall retval r, container_class retval = Ok r -> fields r = retval
}.

(** The bytes [lo, hi) of [data]. *)
Definition span (data : list byte) (lo hi : Z) : list byte :=
  firstn (Z.to_nat (hi - lo)) (skipn (Z.to_nat lo) data).

(** Offsets that do not decrease from [prev] on and do not exceed [limit]. *)
Fixpoint offsets_in_order (prev : Z) (offsets : list Z) (limit : Z) : Prop :=
  match offsets with
  | [] => prev <= limit
  | e :: rest => prev <= e /\ offsets_in_order e rest limit
  end.

(** Where resource [i] starts and ends in the resource data, given the
    offsets [e0; e1; ...] of the table and the length of the data:
    resource 0 starts at 0, resource [i >= 1] at [e_i]; the last resource
    ends with the data, resource [i] before it at [e_(i+1)]. *)
Definition resource_start (offsets : list Z) (i : nat) : Z :=
  match i with
  | O => 0
  | _ => nth i offsets 0
  end.

Definition resource_end (offsets : list Z) (data_len : Z) (i : nat) : Z :=
  if (S i =? length offsets)%nat then data_len else nth (S i) offsets 0.

(** The bytes of resource [i] of a container: those between its start
    and its end in the resource data, the bytes after the 20-byte header
    and the table of [res_count] 4-byte entries. *)
Definition resource_span (buffer : BytesIO) (resfile : ResFile) (i : nat)
  : list byte :=
  let data := skipn (20 + 4 * Z.to_nat (res_count (header resfile))) buffer in
  span data
       (resource_start (map abs_offset (toc resfile)) i)
       (resource_end (map abs_offset (toc resfile))
                     (Z.of_nat (length data)) i).

(** The number in the file name of resource [i] out of [n]: [enumerate]
    numbers the resources before the last, the last gets [len(toc)]. *)
Definition resource_idx (n i : nat) : Z :=
  if (S i =? n)%nat then Z.of_nat n else Z.of_nat i.

(** Whether one of the reads of the span loop asks for more bytes than
    the [avail] unread ones: the reads ask for [e - prev] bytes for each
    offset [e] in turn (a negative count reads everything). *)
Fixpoint short_span (prev : Z) (offsets : list Z) (avail : Z) : bool :=
  match offsets with
  | [] => false
  | e :: rest =>
      let resource_len := e - prev in
      if avail <? resource_len then true
      else short_span e rest
             (if resource_len <? 0 then 0 else avail - resource_len)
  end.

(** A container of two resources: a 2 by 1 image at 2 bits per pixel with
    two palette entries, and a 1 by 1 image at 8 bits per pixel without
    palette. *)
Definition sample_container : list byte :=
  [x48; x4d; x52; x45; x53; x01; x00; x00; x00; x00; x00; x00; x00; x00;
   x00; x00; x02; x00; x00; x00] ++
  [x00; x00; x00; x00; x19; x00; x00; x00] ++
  [x42; x4d; x64; x00; x02; x00; x01; x00; x01; x00; x02; x00; x02; x00;
   x00; x00; x0a; x0b; x0c; x00; x0d; x0e; x0f; x00; x40] ++
  [x42; x4d; x64; x00; x01; x00; x01; x00; x01; x00; x08; x00; x00; x00;
   x00; x00; x01].

Definition empty_resfile : ResFile :=
  {| header := mkHeaderContainer [] 0 [] 0; toc := []; resources := [] |}.

Definition sample_resfile : ResFile :=
  Eval vm_compute in
    match parse_res_file sample_container with
    | Ok resfile => resfile
    | Raise _ => empty_resfile
    end.

(** No PNG file on disk. *)
Definition no_files : files := fun _ => None.

(** The first resource of the sample container, and what
    [parse_resource] returns for it. *)
Definition sample_resource : list byte :=
  [x42; x4d; x64; x00; x02; x00; x01; x00; x01; x00; x02; x00; x02; x00;
   x00; x00; x0a; x0b; x0c; x00; x0d; x0e; x0f; x00; x40].

Definition empty_resource : Resource :=
  {| image_info := mkImageHeader [] 0 0 0 0 0 0; image_data := [];
     filename := 0 |}.

Definition sample_parsed : Resource :=
  Eval vm_compute in
    match parse_resource sample_resource 0 with
    | Ok resource => resource
    | Raise _ => empty_resource
    end.

(** The sample container cut after 30 bytes: the header, the two table
    entries and 2 of the 25 bytes of the first resource. *)
Definition truncated_container : list byte := firstn 30 sample_container.









(** A header that decoding takes to a PNG file: an image with pixels,
    at most 256 palette colours, and chunks of 1 to 31 bits. *)
Definition decodable (h : ImageHeader) : Prop :=
  0 < width h /\ 0 < height h /\ 0 <= palette_colors h <= 256 /\
  0 < bits_per_pixel h <= 31.


(** A header of 2 by 2 pixels at 2 bits per pixel with two palette
    entries. *)
Definition header_two_rows : ImageHeader :=
  mkImageHeader [0; 0; 0; 0] 2 2 1 2 2 0.






(** A container of one resource whose only table entry is 4, and a
    container that declares no resource; both are followed by the 17
    bytes of a 1 by 1 image. *)
Definition one_entry_container : list byte :=
  [x48; x4d; x52; x45; x53; x01; x00; x00; x00; x00; x00; x00; x00; x00;
   x00; x00; x01; x00; x00; x00] ++
  [x04; x00; x00; x00] ++
  [x42; x4d; x64; x00; x01; x00; x01; x00; x01; x00; x08; x00; x00; x00;
   x00; x00; x01].

Definition no_entry_container : list byte :=
  [x48; x4d; x52; x45; x53; x01; x00; x00; x00; x00; x00; x00; x00; x00;
   x00; x00; x00; x00; x00; x00] ++
  [x42; x4d; x64; x00; x01; x00; x01; x00; x01; x00; x08; x00; x00; x00;
   x00; x00; x01].

(** A raster of 1 by 1 pixel with a palette of three colours, and a header
    that declares two. *)
Definition three_colours : Image :=
  Image.putpalette (Image.new (1, 1)) [1; 2; 3; 4; 5; 6; 7; 8; 9].
Definition header_two_colours : ImageHeader :=
  mkImageHeader [0; 0; 0; 0] 1 1 1 8 2 0.


(** A record kind whose namedtuple is rebuilt from its own fields, and
    whose fields, when [build_bytes] accepts them, have the shapes that
    its formats unpack to. *)
Class RecordLaws (T : Type) {cls : Parser T} : Prop := {
  container_class_fields : forall r, container_class (fields r) = Ok r;
  built_fields_shape :
    forall r bytes_list,
      build_bytes_loop format (fields r) = Ok bytes_list ->
      Forall2 field_shape format (fields r)
}.

(* ================================================================== *)
(** ** The commands of the script *)

(** [write_resource]: the PNG is written under its file name ([mkdir]
    only makes sure that the output directory exists). *)
Definition write_resource (fs : files) (image_info : ImageHeader)
           (image_data : list byte) (filename : Z) : result files :=
  png_bytes <- convert_palette_image_to_png image_info image_data ;;
  Ok (fun name => if name =? filename then Some png_bytes else fs name).

(** The loop [for resource in parsed.resources: write_resource(...)] of
    the commands [unpack] and [justdoit]: the files after the loop, and
    whether the loop went through or raised. *)
Fixpoint unpack_resources (fs : files) (resources : list Resource)
  : files * result unit :=
  match resources with
  | [] => (fs, Ok tt)
  | resource :: resources' =>
      match write_resource fs (image_info resource) (image_data resource)
                           (filename resource) with
      | Ok fs' => unpack_resources fs' resources'
      | Raise e => (fs, Raise e)
      end
  end.

(** The script from [command = sys.argv[1]] on, run on an existing
    container file of content [data] (the [assert]) and the PNG files
    [fs]: the PNG files after the run, the new container file if one was
    opened for writing, and whether the run ended or raised. *)
Definition script (command : string) (data : list byte) (fs : files)
  : files * option (list byte) * result unit :=
  match parse_res_file data with
  | Raise e => (fs, None, Raise e)
  | Ok parsed =>
      if String.eqb command "unpack" then
        let '(fs', r) := unpack_resources fs (resources parsed) in
        (fs', None, r)
      else if String.eqb command "repack" then
        let '(outfh, r) := repack_res_file fs parsed in
        (fs, Some outfh, r)
      else if String.eqb command "justdoit" then
        match unpack_resources fs (resources parsed) with
        | (fs', Ok _) =>
            let '(outfh, r) := repack_res_file fs' parsed in
            (fs', Some outfh, r)
        | (fs', Raise e) => (fs', None, Raise e)
        end
      else (fs, None, Ok tt)
  end.


(* ================================================================== *)
(** * Properties *)

(** Linear arithmetic with division and remainder by constants. *)
Ltac lia_mod := Z.to_euclidean_division_equations; lia.

(** ** The error monad *)

Lemma bind_Ok {A B : Type} (m : result A) (k : A -> result B) (b : B) :
  bind m k = Ok b -> exists a, m = Ok a /\ k a = Ok b.
Proof. destruct m as [a|e]; simpl; [eauto | discriminate]. Qed.


Lemma mapM_length {A B : Type} (f : A -> result B) (l : list A) (bs : list B) :
  mapM f l = Ok bs -> length bs = length l.
Proof.
  revert bs; induction l as [|a l IH]; simpl; intros bs H.
  - now inversion H.
  - apply bind_Ok in H as (b & _ & H). apply bind_Ok in H as (bs' & H' & H).
    inversion H; subst; simpl. f_equal; auto.
Qed.

(** ** Lists *)


Lemma last_cons_default {A : Type} (a : A) (l : list A) (d d' : A) :
  last (a :: l) d = last (a :: l) d'.
Proof.
  revert a; induction l as [|b l IH]; intros a; [reflexivity|]. exact (IH b).
Qed.

Lemma firstn_add_skipn {A : Type} (n m : nat) (l : list A) :
  firstn (n + m) l = firstn n l ++ firstn m (skipn n l).
Proof.
  revert l; induction n as [|n IH]; intros l; [reflexivity|].
  destruct l as [|a l]; cbn [Nat.add firstn skipn app].
  - now rewrite firstn_nil.
  - now rewrite IH.
Qed.

(** ** Bytes *)

Lemma Z_of_byte_range (b : byte) : 0 <= Z_of_byte b < 256.
Proof.
  unfold Z_of_byte. pose proof (Byte.to_N_bounded b). lia.
Qed.

Lemma byte_of_Z_of_byte (b : byte) : byte_of_Z (Z_of_byte b) = b.
Proof.
  unfold byte_of_Z. rewrite Z.mod_small by apply Z_of_byte_range.
  unfold Z_of_byte. rewrite N2Z.id, Byte.of_to_N. reflexivity.
Qed.

Lemma Z_of_byte_of_Z (z : Z) : 0 <= z < 256 -> Z_of_byte (byte_of_Z z) = z.
Proof.
  intros Hz. unfold byte_of_Z, Z_of_byte. rewrite Z.mod_small by assumption.
  destruct (Byte.of_N (Z.to_N z)) as [b|] eqn:E.
  - apply Byte.to_of_N in E. rewrite E. lia.
  - apply Byte.of_N_None_iff in E. lia.
Qed.


Lemma is_u8_Z_of_byte (b : byte) : is_u8 (Z_of_byte b) = true.
Proof. unfold is_u8. pose proof (Z_of_byte_range b). lia. Qed.

Lemma array_B_tobytes_bytes (full : list byte) :
  array_B_tobytes (map Z_of_byte full) = Ok full.
Proof.
  unfold array_B_tobytes. induction full as [|b l IH]; simpl; [reflexivity|].
  rewrite is_u8_Z_of_byte; simpl. rewrite IH; simpl.
  now rewrite byte_of_Z_of_byte.
Qed.

Lemma array_B_tobytes_app (l1 l2 : list Z) (b1 b2 : list byte) :
  array_B_tobytes l1 = Ok b1 -> array_B_tobytes l2 = Ok b2 ->
  array_B_tobytes (l1 ++ l2) = Ok (b1 ++ b2).
Proof.
  unfold array_B_tobytes. revert b1; induction l1 as [|z l1 IH]; simpl; intros b1 H1 H2.
  - inversion H1; subst. exact H2.
  - apply bind_Ok in H1 as (b & Hb & H1). apply bind_Ok in H1 as (bs & Hbs & H1).
    inversion H1; subst. rewrite Hb; simpl. rewrite (IH bs Hbs H2). reflexivity.
Qed.

Lemma array_B_tobytes_length (l : list Z) (bs : list byte) :
  array_B_tobytes l = Ok bs -> length bs = length l.
Proof. apply mapM_length. Qed.

(** ** Bits *)

Lemma length_bits_of (n : nat) (v : Z) : length (bits_of n v) = n.
Proof.
  revert v; induction n as [|n IH]; intros v; simpl; [reflexivity|].
  rewrite length_app, IH; simpl. lia.
Qed.

Lemma bits_of_is_bit (n : nat) (v : Z) : Forall is_bit (bits_of n v).
Proof.
  revert v; induction n as [|n IH]; intros v; simpl; [constructor|].
  apply Forall_app; split; [apply IH|].
  constructor; [|constructor]. unfold is_bit.
  pose proof (Z.mod_pos_bound v 2). lia.
Qed.

Lemma bits_of_zero (n : nat) : bits_of n 0 = repeat 0 n.
Proof.
  induction n as [|n IH]; simpl; [reflexivity|].
  change (0 / 2) with 0. rewrite IH. change (0 mod 2) with 0.
  now rewrite <- repeat_cons.
Qed.

Lemma bits_to_int_loop_shift (l : list Z) (idx retval : Z) :
  0 <= idx ->
  bits_to_int_loop idx retval l = retval + 2 ^ idx * bits_to_int_loop 0 0 l.
Proof.
  revert idx retval; induction l as [|bit l IH]; intros idx retval Hidx;
    cbn [bits_to_int_loop].
  - lia.
  - rewrite (IH (idx + 1)) by lia. rewrite (IH 1) by lia.
    rewrite !Z.shiftl_mul_pow2 by lia.
    rewrite Z.pow_add_r by lia. change (2 ^ 0) with 1. change (2 ^ 1) with 2. lia.
Qed.

Lemma bits_to_int_snoc (l : list Z) (bit : Z) :
  bits_to_int (l ++ [bit]) = 2 * bits_to_int l + bit.
Proof.
  unfold bits_to_int. rewrite rev_app_distr. cbn [rev app bits_to_int_loop].
  rewrite bits_to_int_loop_shift by lia.
  rewrite Z.shiftl_mul_pow2 by lia. change (2 ^ 0) with 1. change (2 ^ 1) with 2. lia.
Qed.

Lemma bits_to_int_bits_of (n : nat) (v : Z) :
  0 <= v < 2 ^ Z.of_nat n -> bits_to_int (bits_of n v) = v.
Proof.
  revert v; induction n as [|n IH]; intros v Hv.
  - simpl in *. change (bits_to_int []) with 0. lia.
  - cbn [bits_of]. rewrite bits_to_int_snoc.
    rewrite Nat2Z.inj_succ, Z.pow_succ_r in Hv by lia.
    rewrite IH.
    + pose proof (Z.div_mod v 2). lia.
    + split; [apply Z.div_pos; lia | apply Z.div_lt_upper_bound; lia].
Qed.

Lemma bits_to_int_range (c : list Z) :
  Forall is_bit c -> 0 <= bits_to_int c < 2 ^ Z.of_nat (length c).
Proof.
  induction c as [|bit c IH] using rev_ind; intros Hc.
  - change (bits_to_int []) with 0. simpl. lia.
  - apply Forall_app in Hc as [Hc Hb]. inversion Hb as [|? ? Hbit _]; subst.
    rewrite bits_to_int_snoc, length_app; cbn [length].
    replace (Z.of_nat (length c + 1)) with (Z.succ (Z.of_nat (length c))) by lia.
    rewrite Z.pow_succ_r by lia. specialize (IH Hc). unfold is_bit in Hbit. lia.
Qed.


Lemma bits_of_app (n m : nat) (a v : Z) :
  0 <= v < 2 ^ Z.of_nat m ->
  bits_of (n + m) (a * 2 ^ Z.of_nat m + v) = bits_of n a ++ bits_of m v.
Proof.
  revert v; induction m as [|m IH]; intros v Hv.
  - simpl in Hv. rewrite Nat.add_0_r. simpl. rewrite app_nil_r. f_equal. lia.
  - rewrite Nat.add_succ_r. cbn [bits_of].
    rewrite Nat2Z.inj_succ, Z.pow_succ_r in * by lia.
    replace ((a * (2 * 2 ^ Z.of_nat m) + v) / 2) with (a * 2 ^ Z.of_nat m + v / 2).
    2:{ replace (a * (2 * 2 ^ Z.of_nat m) + v) with (v + (a * 2 ^ Z.of_nat m) * 2) by lia.
        rewrite Z.div_add by lia. lia. }
    replace ((a * (2 * 2 ^ Z.of_nat m) + v) mod 2) with (v mod 2).
    2:{ replace (a * (2 * 2 ^ Z.of_nat m) + v) with (v + (a * 2 ^ Z.of_nat m) * 2) by lia.
        now rewrite Z.mod_add by lia. }
    rewrite IH, app_assoc; [reflexivity|].
    split; [apply Z.div_pos; lia | apply Z.div_lt_upper_bound; lia].
Qed.

Lemma lor_shiftl_add (a v m : Z) :
  0 <= m -> 0 <= v < 2 ^ m -> Z.lor (Z.shiftl a m) v = a * 2 ^ m + v.
Proof.
  intros Hm Hv. rewrite <- Z.shiftl_mul_pow2 by assumption.
  rewrite <- Z.add_lor_land.
  assert (E : Z.land (Z.shiftl a m) v = 0).
  { apply Z.bits_inj'; intros n Hn. rewrite Z.land_spec, Z.bits_0.
    destruct (Z.ltb_spec n m) as [Hlt|Hge].
    - rewrite Z.shiftl_spec_low by assumption. reflexivity.
    - replace (Z.testbit v n) with false; [apply andb_false_r|].
      symmetry. apply Z.testbit_false; [assumption|].
      rewrite Z.div_small; [reflexivity|].
      split; [lia|]. apply Z.lt_le_trans with (2 ^ m); [lia|].
      apply Z.pow_le_mono_r; lia. }
  rewrite E. lia.
Qed.

Lemma bitwalker_cons (b : byte) (l : list byte) :
  bitwalker (b :: l) = bits_of 8 (Z_of_byte b) ++ bitwalker l.
Proof. destruct b; reflexivity. Qed.

Lemma bitwalker_app (l1 l2 : list byte) :
  bitwalker (l1 ++ l2) = bitwalker l1 ++ bitwalker l2.
Proof. unfold bitwalker. apply flat_map_app. Qed.

Lemma bitwalker_snoc (l : list byte) (b : byte) :
  bitwalker (l ++ [b]) = bitwalker l ++ bits_of 8 (Z_of_byte b).
Proof.
  rewrite bitwalker_app, bitwalker_cons. now rewrite app_nil_r.
Qed.

Lemma length_bitwalker (l : list byte) : length (bitwalker l) = (8 * length l)%nat.
Proof.
  induction l as [|b l IH]; [reflexivity|].
  rewrite bitwalker_cons, length_app, length_bits_of, IH. simpl length. lia.
Qed.

Lemma bitwalker_is_bit (l : list byte) : Forall is_bit (bitwalker l).
Proof.
  induction l as [|b l IH]; [constructor|].
  rewrite bitwalker_cons. apply Forall_app; split; [apply bits_of_is_bit | exact IH].
Qed.



(** ** [chunkwise] *)

Lemma chunkwise_loop_chunk {A : Type} (n : nat) (c chunk rest : list A) :
  c <> [] -> (length chunk + length c = n)%nat ->
  chunkwise_loop (Z.of_nat n) chunk (c ++ rest)
  = (chunk ++ c) :: chunkwise_loop (Z.of_nat n) [] rest.
Proof.
  revert chunk; induction c as [|i c IH]; intros chunk Hne Hlen; [congruence|].
  cbn [app chunkwise_loop length] in *.
  rewrite length_app; cbn [length].
  destruct (Z.eqb_spec (Z.of_nat (length chunk + 1)) (Z.of_nat n)) as [E|E].
  - assert (c = []) by (destruct c; [reflexivity | cbn [length] in Hlen; lia]).
    subst c. reflexivity.
  - assert (c <> []) by (intros ->; cbn [length] in Hlen; lia).
    rewrite IH; [now rewrite <- app_assoc | assumption |].
    rewrite length_app; cbn [length]. lia.
Qed.

Lemma chunkwise_concat {A : Type} (n : nat) (cs : list (list A)) (rest : list A) :
  (0 < n)%nat -> Forall (fun c => length c = n) cs ->
  chunkwise (Z.of_nat n) (concat cs ++ rest) = cs ++ chunkwise (Z.of_nat n) rest.
Proof.
  intros Hn Hcs. induction Hcs as [|c cs Hc Hcs IH]; [reflexivity|].
  cbn [concat app]. rewrite <- app_assoc. unfold chunkwise in *.
  rewrite chunkwise_loop_chunk; [| intros ->; cbn [length] in Hc; lia | now cbn [length]].
  cbn [app]. now rewrite IH.
Qed.


Lemma chunkwise_chunk_length {A : Type} (count : Z) (chunk l : list A) :
  0 < count -> Z.of_nat (length chunk) < count ->
  Forall (fun c => Z.of_nat (length c) <= count) (chunkwise_loop count chunk l).
Proof.
  intros Hcount. revert chunk; induction l as [|i l IH]; intros chunk Hchunk;
    cbn [chunkwise_loop].
  - destruct chunk; constructor; [lia | constructor].
  - rewrite length_app; cbn [length].
    destruct (Z.eqb_spec (Z.of_nat (length chunk + 1)) count) as [E|E].
    + constructor; [rewrite length_app; cbn [length]; lia|].
      apply IH. cbn [length]. lia.
    + apply IH. rewrite length_app; cbn [length]. lia.
Qed.

Lemma chunkwise_loop_is_bit (count : Z) (chunk l : list Z) :
  Forall is_bit chunk -> Forall is_bit l ->
  Forall (Forall is_bit) (chunkwise_loop count chunk l).
Proof.
  revert chunk; induction l as [|i l IH]; intros chunk Hchunk Hl;
    cbn [chunkwise_loop].
  - destruct chunk; constructor; [assumption | constructor].
  - inversion Hl as [|? ? Hi Hl']; subst.
    assert (Forall is_bit (chunk ++ [i]))
      by (apply Forall_app; split; [assumption | now constructor]).
    destruct (Z.of_nat (length (chunk ++ [i])) =? count).
    + constructor; [assumption|]. apply IH; [constructor | assumption].
    + now apply IH.
Qed.

(** ** [Bitwriter] *)

Lemma supported_depth_pos (bits : Z) : supported_depth bits -> 0 < bits <= 8.
Proof. unfold supported_depth; lia. Qed.

Lemma accumulate_bound (acc v p b : Z) :
  0 <= p -> 0 <= b -> 0 <= acc < 2 ^ p -> 0 <= v < 2 ^ b ->
  0 <= acc * 2 ^ b + v < 2 ^ (p + b).
Proof.
  intros Hp Hb Hacc Hv. rewrite Z.pow_add_r by assumption.
  assert (0 < 2 ^ b) by (apply Z.pow_pos_nonneg; lia). nia.
Qed.

Lemma length_concat_bits_of (n : nat) (ps : list Z) :
  length (concat (map (bits_of n) ps)) = (n * length ps)%nat.
Proof.
  induction ps as [|v ps IH]; cbn [map concat length]; [lia|].
  rewrite length_app, length_bits_of, IH. lia.
Qed.

Lemma packed_init (bits : Z) : supported_depth bits -> packed bits [] Bitwriter_init.
Proof.
  intros Hb. apply supported_depth_pos in Hb. constructor; cbn.
  - exists []. split; reflexivity.
  - lia.
  - reflexivity.
  - lia.
  - tauto.
Qed.

Lemma packed_length (bits : Z) (ps : list Z) (w : Bitwriter) :
  0 <= bits -> packed bits ps w ->
  8 * Z.of_nat (length (bytes w)) + pos w = bits * Z.of_nat (length ps).
Proof.
  intros Hb [(full & Hfull & Hbits) Hpos _ _ _].
  apply (f_equal (@length Z)) in Hbits.
  rewrite length_app, length_bitwalker, length_bits_of, length_concat_bits_of in Hbits.
  rewrite Hfull, length_map. nia.
Qed.

Lemma add_packed (bits : Z) (ps : list Z) (w : Bitwriter) (v : Z) :
  supported_depth bits -> packed bits ps w -> in_range bits v ->
  exists w', add w v bits = Ok w' /\ packed bits (ps ++ [v]) w'.
Proof.
  intros Hb [(full & Hfull & Hbits) Hpos Hal Hacc Hnone] Hv.
  unfold in_range in Hv.
  assert (Hb' := supported_depth_pos _ Hb).
  assert (Hle : pos w + bits <= 8).
  { destruct Hb as [->|[->|[->| ->]]]; lia_mod. }
  unfold add, lshift. fold (accumulator w).
  destruct (Z.ltb_spec bits 0) as [?|_]; [lia|]. cbn [bind].
  rewrite lor_shiftl_add by lia.
  pose proof (accumulate_bound (accumulator w) v (pos w) bits
                ltac:(lia) ltac:(lia) Hacc Hv) as Hnew.
  assert (Hsplit : bits_of (Z.to_nat (pos w + bits)) (accumulator w * 2 ^ bits + v)
                   = bits_of (Z.to_nat (pos w)) (accumulator w)
                     ++ bits_of (Z.to_nat bits) v).
  { rewrite Z2Nat.inj_add by lia.
    rewrite <- (Z2Nat.id bits) at 2 by lia.
    apply bits_of_app. rewrite Z2Nat.id by lia. exact Hv. }
  assert (Hcat : concat (map (bits_of (Z.to_nat bits)) (ps ++ [v]))
                 = concat (map (bits_of (Z.to_nat bits)) ps)
                   ++ bits_of (Z.to_nat bits) v).
  { rewrite map_app, concat_app. cbn [map concat]. now rewrite app_nil_r. }
  destruct (Z.leb_spec 8 (pos w + bits)) as [Hfullb|Hpart].
  - assert (Heq : pos w + bits = 8) by lia. rewrite Heq in *.
    eexists; split; [reflexivity|]. constructor; cbn [bytes last_byte pos accumulator].
    + exists (full ++ [byte_of_Z (accumulator w * 2 ^ bits + v)]). split.
      * rewrite map_app, Hfull. cbn [map]. rewrite Z_of_byte_of_Z; [reflexivity|].
        change 256 with (2 ^ 8). exact Hnew.
      * rewrite bitwalker_snoc.
        rewrite Z_of_byte_of_Z by (change 256 with (2 ^ 8); exact Hnew).
        change (bits_of (Z.to_nat 0) 0) with (@nil Z).
        rewrite app_nil_r, Hcat, <- Hbits, <- app_assoc. f_equal.
        exact Hsplit.
    + lia.
    + apply Z.mod_0_l; lia.
    + cbn. lia.
    + split; [discriminate | intros H; destruct ps; discriminate].
  - eexists; split; [reflexivity|]. constructor; cbn [bytes last_byte pos accumulator].
    + exists full. split; [assumption|].
      rewrite Hcat, <- Hbits, <- app_assoc. f_equal. exact Hsplit.
    + lia.
    + destruct Hb as [->|[->|[->| ->]]]; lia_mod.
    + exact Hnew.
    + split; [discriminate | intros H; destruct ps; discriminate].
Qed.

Lemma add_all_packed (bits : Z) (l ps : list Z) (w : Bitwriter) :
  supported_depth bits -> packed bits ps w -> Forall (in_range bits) l ->
  exists w', add_all w l bits = Ok w' /\ packed bits (ps ++ l) w'.
Proof.
  intros Hb. revert ps w; induction l as [|v l IH]; intros ps w Hw Hl;
    cbn [add_all].
  - exists w. rewrite app_nil_r. now split.
  - inversion Hl as [|? ? Hv Hl']; subst.
    destruct (add_packed bits ps w v Hb Hw Hv) as (w1 & -> & Hw1). cbn [bind].
    destruct (IH (ps ++ [v]) w1 Hw1 Hl') as (w2 & -> & Hw2).
    exists w2. split; [reflexivity|]. now rewrite <- app_assoc in Hw2.
Qed.

(** [build] on a [Bitwriter] that holds [ps]: the bytes returned carry the
    bits of [ps] followed by [8 - pos] zero bits (none at all before the
    first [add]). *)
Lemma build_packed (bits : Z) (ps : list Z) (w : Bitwriter) :
  supported_depth bits -> packed bits ps w ->
  exists out,
    build w = Ok out /\
    bitwalker out
    = concat (map (bits_of (Z.to_nat bits)) ps)
      ++ repeat 0 (match ps with [] => 0%nat | _ => Z.to_nat (8 - pos w) end) /\
    length out = match ps with
                 | [] => 0%nat
                 | _ => S (length (bytes w))
                 end /\
    (ps <> [] ->
     exists full, out = full ++ [byte_of_Z (accumulator w * 2 ^ (8 - pos w))]).
Proof.
  intros Hb Hw.
  assert (Hlen := packed_length bits ps w
                   ltac:(apply supported_depth_pos in Hb; lia) Hw).
  destruct Hw as [(full & Hfull & Hbits) Hpos Hal Hacc Hnone].
  unfold build. destruct (last_byte w) as [last|] eqn:Elast.
  - assert (ps <> []) by (intros E; apply Hnone in E; discriminate).
    unfold accumulator in *. rewrite Elast in *.
    unfold lshift. destruct (Z.ltb_spec (8 - pos w) 0) as [?|_]; [lia|]. cbn [bind].
    rewrite Z.shiftl_mul_pow2 by lia.
    pose proof (accumulate_bound last 0 (pos w) (8 - pos w)
                  ltac:(lia) ltac:(lia) Hacc
                  ltac:(split; [lia | apply Z.pow_pos_nonneg; lia])) as Hnew.
    replace (pos w + (8 - pos w)) with 8 in Hnew by lia.
    rewrite Z.add_0_r in Hnew.
    exists (full ++ [byte_of_Z (last * 2 ^ (8 - pos w))]).
    split; [|split; [|split; [|intros _; now exists full]]].
    + rewrite Hfull. apply array_B_tobytes_app; [apply array_B_tobytes_bytes|].
      unfold array_B_tobytes, is_u8. cbn [mapM].
      change 256 with (2 ^ 8).
      destruct (Z.leb_spec 0 (last * 2 ^ (8 - pos w))); [|lia].
      destruct (Z.ltb_spec (last * 2 ^ (8 - pos w)) (2 ^ 8)); [|lia].
      reflexivity.
    + rewrite bitwalker_snoc.
      rewrite Z_of_byte_of_Z by (change 256 with (2 ^ 8); exact Hnew).
      replace 8%nat with (Z.to_nat (pos w) + Z.to_nat (8 - pos w))%nat by lia.
      replace (last * 2 ^ (8 - pos w))
        with (last * 2 ^ Z.of_nat (Z.to_nat (8 - pos w)) + 0)
        by (rewrite Z2Nat.id by lia; lia).
      rewrite bits_of_app
        by (split; [lia | apply Z.pow_pos_nonneg; lia]).
      rewrite bits_of_zero, app_assoc, Hbits.
      destruct ps; [congruence | reflexivity].
    + rewrite length_app, Hfull, length_map. cbn [length].
      destruct ps; [congruence | lia].
  - assert (ps = []) by now apply Hnone. subst ps.
    cbn [map concat app] in *. apply app_eq_nil in Hbits as [Hf _].
    destruct full; [|rewrite bitwalker_cons in Hf;
                     apply (f_equal (@length Z)) in Hf;
                     rewrite length_app, length_bits_of in Hf; discriminate].
    exists []. rewrite Hfull. repeat split. congruence.
Qed.

(** [pack] on in-range indices: it returns, and the bytes carry the bits
    of the indices followed by zero bits only. *)
Lemma pack_bits (bits : Z) (ps : list Z) :
  supported_depth bits -> Forall (in_range bits) ps ->
  exists out pad,
    pack ps bits = Ok out /\
    bitwalker out = concat (map (bits_of (Z.to_nat bits)) ps) ++ repeat 0 pad /\
    Z.of_nat (length out)
    = match ps with
      | [] => 0
      | _ => bits * Z.of_nat (length ps) / 8 + 1
      end.
Proof.
  intros Hb Hps.
  destruct (add_all_packed bits ps [] Bitwriter_init Hb (packed_init bits Hb) Hps)
    as (w & Hw & Hpk). cbn [app] in Hpk.
  destruct (build_packed bits ps w Hb Hpk) as (out & Hout & Hbits & Hlen & _).
  exists out. eexists. unfold pack. rewrite Hw. cbn [bind].
  split; [exact Hout|]. split; [exact Hbits|].
  rewrite Hlen. destruct ps as [|p ps']; [reflexivity|].
  pose proof (packed_length bits _ w
                ltac:(apply supported_depth_pos in Hb; lia) Hpk) as HL.
  pose proof (packed_pos _ _ _ Hpk) as Hpos.
  rewrite Nat2Z.inj_succ.
  assert (bits * Z.of_nat (length (p :: ps')) / 8 = Z.of_nat (length (bytes w))).
  { symmetry. apply Z.div_unique with (pos w); lia. }
  lia.
Qed.

(** ** Packing then unpacking *)

Lemma unpack_values_in_range (bits width : Z) (row_data : list byte) :
  0 < bits -> Forall (in_range bits) (unpack row_data width bits).
Proof.
  intros Hb. unfold unpack. apply Forall_map.
  pose proof (chunkwise_chunk_length bits [] (bitwalker row_data) Hb
                ltac:(cbn [length]; lia)) as Hlen.
  pose proof (chunkwise_loop_is_bit bits [] (bitwalker row_data)
                (Forall_nil _) (bitwalker_is_bit row_data)) as Hbit.
  fold (chunkwise bits (bitwalker row_data)) in Hlen, Hbit.
  rewrite Forall_forall in *. intros c Hc.
  assert (Hin : In c (chunkwise bits (bitwalker row_data)))
    by (rewrite <- (firstn_skipn (Z.to_nat width)); apply in_or_app; now left).
  pose proof (bits_to_int_range c (Hbit c Hin)) as Hr.
  specialize (Hlen c Hin). cbn beta in Hlen. unfold in_range.
  split; [lia|]. apply Z.lt_le_trans with (2 ^ Z.of_nat (length c)); [lia|].
  apply Z.pow_le_mono_r; lia.
Qed.

Lemma map_bits_to_int_bits_of (bits : Z) (ps : list Z) :
  0 <= bits -> Forall (in_range bits) ps ->
  map bits_to_int (map (bits_of (Z.to_nat bits)) ps) = ps.
Proof.
  intros Hb Hps. induction Hps as [|v ps Hv Hps IH]; [reflexivity|].
  cbn [map]. rewrite IH. f_equal. apply bits_to_int_bits_of.
  now rewrite Z2Nat.id by lia.
Qed.

Lemma unpack_bits (bits : Z) (ps : list Z) (row_data : list byte) (rest : list Z) :
  0 < bits -> Forall (in_range bits) ps ->
  bitwalker row_data = concat (map (bits_of (Z.to_nat bits)) ps) ++ rest ->
  unpack row_data (Z.of_nat (length ps)) bits = ps.
Proof.
  intros Hb Hps Hbits. unfold unpack. rewrite Hbits.
  rewrite <- (Z2Nat.id bits) at 1 by lia.
  rewrite chunkwise_concat.
  - rewrite Nat2Z.id, firstn_app, length_map, Nat.sub_diag.
    cbn [firstn]. rewrite app_nil_r.
    rewrite <- (length_map (bits_of (Z.to_nat bits)) ps) at 1.
    rewrite firstn_all. apply map_bits_to_int_bits_of; [lia | assumption].
  - lia.
  - apply Forall_map, Forall_forall. intros; apply length_bits_of.
Qed.

(** C2.  For every bit depth in {1, 2, 4, 8} and every row of indices
    that fit in that many bits, packing the row ([add] per index, then
    [build]) returns its bytes, and unpacking those bytes (bits most
    significant first, chunks of [bits_per_pixel] bits read as integers,
    the first [width] of them, [width] being the number of indices) gives
    back the row. *)
Theorem pack_unpack_roundtrip (bits_per_pixel : Z) (indices : list Z) :
  supported_depth bits_per_pixel ->
  Forall (in_range bits_per_pixel) indices ->
  exists row_data,
    pack indices bits_per_pixel = Ok row_data /\
    unpack row_data (Z.of_nat (length indices)) bits_per_pixel = indices.
Proof.
  intros Hb Hps.
  destruct (pack_bits bits_per_pixel indices Hb Hps) as (out & pad & Hpack & Hbits & _).
  exists out. split; [assumption|].
  apply unpack_bits with (rest := repeat 0 pad); try assumption.
  apply supported_depth_pos in Hb. lia.
Qed.

Lemma pack_unpack_roundtrip_witness :
  exists row_data, pack [3; 1] 2 = Ok row_data /\ unpack row_data 2 2 = [3; 1].
Proof.
  apply (pack_unpack_roundtrip 2 [3; 1]).
  - unfold supported_depth. right; left; reflexivity.
  - repeat constructor; unfold in_range; cbn; lia.
Defined.

(** ** The number of bytes [build] returns *)

(** C9, as amended.  For [add] calls of one bit width in {1, 2, 4, 8} and
    values that fit in it (a non-empty run), [build] returns the bits added
    followed by [8 - total_bits mod 8] zero bits: when the total is a
    multiple of 8 that is [total_bits / 8 + 1] bytes, the last one an extra
    0x00; otherwise it is [ceil(total_bits / 8)] bytes, the last one the
    partial byte shifted left with zero low bits. *)
Theorem build_byte_count (bits : Z) (numbers : list Z) :
  supported_depth bits -> numbers <> [] -> Forall (in_range bits) numbers ->
  exists out,
    pack numbers bits = Ok out /\
    bitwalker out
    = concat (map (bits_of (Z.to_nat bits)) numbers)
      ++ repeat 0 (Z.to_nat (8 - (bits * Z.of_nat (length numbers)) mod 8)) /\
    ((bits * Z.of_nat (length numbers)) mod 8 = 0 ->
     Z.of_nat (length out) = bits * Z.of_nat (length numbers) / 8 + 1 /\
     last out x01 = x00) /\
    ((bits * Z.of_nat (length numbers)) mod 8 <> 0 ->
     Z.of_nat (length out) = (bits * Z.of_nat (length numbers) + 7) / 8 /\
     exists partial,
       0 <= partial < 2 ^ ((bits * Z.of_nat (length numbers)) mod 8) /\
       Z_of_byte (last out x00)
       = partial * 2 ^ (8 - (bits * Z.of_nat (length numbers)) mod 8)).
Proof.
  intros Hb Hne Hps.
  destruct (add_all_packed bits numbers [] Bitwriter_init Hb (packed_init bits Hb) Hps)
    as (w & Hw & Hpk). cbn [app] in Hpk.
  destruct (build_packed bits numbers w Hb Hpk) as (out & Hout & Hbits & Hlen & Hlast).
  destruct (Hlast Hne) as (full & Hfull).
  pose proof (packed_length bits _ w
                ltac:(apply supported_depth_pos in Hb; lia) Hpk) as HL.
  pose proof (packed_pos _ _ _ Hpk) as Hpos.
  pose proof (packed_acc _ _ _ Hpk) as Hacc.
  set (total := bits * Z.of_nat (length numbers)) in *.
  assert (Hmod : total mod 8 = pos w)
    by (symmetry; apply Z.mod_unique with (Z.of_nat (length (bytes w))); lia).
  assert (Hdiv : total / 8 = Z.of_nat (length (bytes w)))
    by (symmetry; apply Z.div_unique with (pos w); lia).
  assert (HlenZ : Z.of_nat (length out) = total / 8 + 1).
  { rewrite Hlen. destruct numbers; [congruence|]. lia. }
  exists out. unfold pack. rewrite Hw. cbn [bind].
  split; [exact Hout|]. split; [|split].
  - rewrite Hbits, Hmod. destruct numbers; [congruence | reflexivity].
  - intros H0. split; [exact HlenZ|].
    rewrite Hfull, last_last.
    assert (accumulator w = 0).
    { rewrite <- Hmod, H0 in Hacc. change (2 ^ 0) with 1 in Hacc. lia. }
    rewrite H. reflexivity.
  - intros Hn0. split.
    + rewrite HlenZ. lia_mod.
    + exists (accumulator w). rewrite Hmod. split; [exact Hacc|].
      rewrite Hfull, last_last. apply Z_of_byte_of_Z.
      pose proof (accumulate_bound (accumulator w) 0 (pos w) (8 - pos w)
                    ltac:(lia) ltac:(lia) Hacc
                    ltac:(split; [lia | apply Z.pow_pos_nonneg; lia])) as Hnew.
      replace (pos w + (8 - pos w)) with 8 in Hnew by lia.
      change (2 ^ 8) with 256 in Hnew. lia.
Qed.

Lemma build_byte_count_witness :
  exists out,
    pack [1; 2; 3; 0] 2 = Ok out /\
    bitwalker out
    = concat (map (bits_of (Z.to_nat 2)) [1; 2; 3; 0])
      ++ repeat 0 (Z.to_nat (8 - (2 * Z.of_nat (length [1; 2; 3; 0])) mod 8)) /\
    ((2 * Z.of_nat (length [1; 2; 3; 0])) mod 8 = 0 ->
     Z.of_nat (length out) = 2 * Z.of_nat (length [1; 2; 3; 0]) / 8 + 1 /\
     last out x01 = x00) /\
    ((2 * Z.of_nat (length [1; 2; 3; 0])) mod 8 <> 0 ->
     Z.of_nat (length out) = (2 * Z.of_nat (length [1; 2; 3; 0]) + 7) / 8 /\
     exists partial,
       0 <= partial < 2 ^ ((2 * Z.of_nat (length [1; 2; 3; 0])) mod 8) /\
       Z_of_byte (last out x00)
       = partial * 2 ^ (8 - (2 * Z.of_nat (length [1; 2; 3; 0])) mod 8)).
Proof.
  apply (build_byte_count 2 [1; 2; 3; 0]).
  - unfold supported_depth. right; left; reflexivity.
  - discriminate.
  - repeat constructor; unfold in_range; cbn; lia.
Defined.

(** C9 as stated fails for a bit width that does not divide 8: eight calls
    [add(1, 3)] add 24 bits, a positive multiple of 8, and [build] returns
    3 bytes, not 24 / 8 + 1 = 4. *)
Lemma build_byte_count_counterexample :
  three_bit_calls <> [] /\
  total_bits three_bit_calls = 24 /\
  24 mod 8 = 0 /\
  (w <- add_each Bitwriter_init three_bit_calls ;; build w)
  = Ok [x49; x49; x24] /\
  Z.of_nat (length [x49; x49; x24]) <> 24 / 8 + 1.
Proof.
  repeat split; try reflexivity; try discriminate.
Qed.

(** ** [add] neither masks nor checks its argument *)

(** C10.  [add] ORs its argument into the shifted accumulator as it is:
    bit [i >= bits] of the new accumulator is bit [i - bits] of the old
    one OR bit [i] of the argument, so the excess bits of a value of more
    than [bits] bits land on the pixels added before (packing [0; 4] at 2
    bits reads back as [1; 0]) and the accumulator can exceed 255 (256
    added at 8 bits, on which [build] raises).  Hence a row that packs and
    unpacks to itself has all its values below [2 ^ bits]. *)
Theorem add_requires_range (self : Bitwriter) (number bits : Z)
        (row : list Z) (row_data : list byte) :
  0 < bits ->
  pack row bits = Ok row_data ->
  unpack row_data (Z.of_nat (length row)) bits = row ->
  (exists w,
     add self number bits = Ok w /\
     (if 8 <=? pos self + bits
      then bytes w
           = bytes self ++ [Z.lor (Z.shiftl (accumulator self) bits) number]
      else last_byte w
           = Some (Z.lor (Z.shiftl (accumulator self) bits) number)) /\
     forall i, bits <= i ->
       Z.testbit (Z.lor (Z.shiftl (accumulator self) bits) number) i
       = Z.testbit (accumulator self) (i - bits) || Z.testbit number i) /\
  (pack [0; 4] 2 = Ok [x40] /\ unpack [x40] 2 2 = [1; 0]) /\
  (add Bitwriter_init 256 8
   = Ok {| bytes := [256]; last_byte := Some 0; pos := 0 |} /\
   pack [256] 8 = Raise OverflowError) /\
  Forall (in_range bits) row.
Proof.
  intros Hb Hpack Hunpack. split; [|split; [|split]].
  - unfold add, lshift. fold (accumulator self).
    destruct (Z.ltb_spec bits 0) as [?|_]; [lia|]. cbn [bind].
    destruct (8 <=? pos self + bits); eexists; (split; [reflexivity|]);
      (split; [reflexivity|]); intros i Hi;
      rewrite Z.lor_spec, Z.shiftl_spec by lia; reflexivity.
  - split; reflexivity.
  - split; reflexivity.
  - rewrite <- Hunpack. apply unpack_values_in_range. exact Hb.
Qed.

Lemma add_requires_range_witness :
  (exists w,
     add Bitwriter_init 4 2 = Ok w /\
     (if 8 <=? pos Bitwriter_init + 2
      then bytes w
           = bytes Bitwriter_init
             ++ [Z.lor (Z.shiftl (accumulator Bitwriter_init) 2) 4]
      else last_byte w
           = Some (Z.lor (Z.shiftl (accumulator Bitwriter_init) 2) 4)) /\
     forall i, 2 <= i ->
       Z.testbit (Z.lor (Z.shiftl (accumulator Bitwriter_init) 2) 4) i
       = Z.testbit (accumulator Bitwriter_init) (i - 2) || Z.testbit 4 i) /\
  (pack [0; 4] 2 = Ok [x40] /\ unpack [x40] 2 2 = [1; 0]) /\
  (add Bitwriter_init 256 8
   = Ok {| bytes := [256]; last_byte := Some 0; pos := 0 |} /\
   pack [256] 8 = Raise OverflowError) /\
  Forall (in_range 2) [3; 1].
Proof.
  apply (add_requires_range Bitwriter_init 4 2 [3; 1] [xd0]).
  - lia.
  - reflexivity.
  - reflexivity.
Defined.

(** ** The length of an encoded row *)

Lemma mapM_Forall2 {A B : Type} (f : A -> result B) (l : list A) (bs : list B) :
  mapM f l = Ok bs -> Forall2 (fun a b => f a = Ok b) l bs.
Proof.
  revert bs; induction l as [|a l IH]; cbn [mapM]; intros bs H.
  - inversion H; constructor.
  - apply bind_Ok in H as (b & Hb & H). apply bind_Ok in H as (bs' & H' & H).
    inversion H; subst. constructor; auto.
Qed.

Lemma length_range (n : Z) : length (range n) = Z.to_nat n.
Proof. unfold range. now rewrite length_map, length_seq. Qed.

Lemma fed_init (bits : Z) : 0 < bits -> fed bits 0 Bitwriter_init.
Proof.
  intros Hb. constructor; cbn [Bitwriter_init bytes pos last_byte length].
  - lia.
  - lia.
  - apply Z.mod_0_l; lia.
  - tauto.
Qed.

Lemma add_fed (bits : Z) (n : nat) (w : Bitwriter) (v : Z) :
  supported_depth bits -> fed bits n w ->
  exists w', add w v bits = Ok w' /\ fed bits (S n) w'.
Proof.
  intros Hb [Hcount Hpos Hal Hnone].
  assert (Hb' := supported_depth_pos _ Hb).
  assert (Hle : pos w + bits <= 8).
  { destruct Hb as [->|[->|[->| ->]]]; lia_mod. }
  unfold add, lshift.
  destruct (Z.ltb_spec bits 0) as [?|_]; [lia|]. cbn [bind].
  destruct (Z.leb_spec 8 (pos w + bits)) as [Hfull|Hpart];
    (eexists; split; [reflexivity|]);
    constructor; cbn [bytes last_byte pos].
  - rewrite length_app. cbn [length]. lia.
  - lia.
  - apply Z.mod_0_l; lia.
  - split; [discriminate | lia].
  - lia.
  - lia.
  - destruct Hb as [->|[->|[->| ->]]]; lia_mod.
  - split; [discriminate | lia].
Qed.

Lemma add_row_fed (im : Image) (h : ImageHeader) (y : Z) (xs : list Z)
      (n : nat) (bw w : Bitwriter) :
  supported_depth (bits_per_pixel h) -> fed (bits_per_pixel h) n bw ->
  add_row im h y xs bw = Ok w -> fed (bits_per_pixel h) (n + length xs) w.
Proof.
  intros Hb. revert n bw; induction xs as [|x xs IH]; intros n bw Hbw H;
    cbn [add_row length] in *.
  - inversion H; subst. now rewrite Nat.add_0_r.
  - apply bind_Ok in H as (bit & _ & H).
    destruct (add_fed _ n bw bit Hb Hbw) as (w1 & Hw1 & Hfed). rewrite Hw1 in H.
    cbn [bind] in H. rewrite Nat.add_succ_r. apply (IH (S n) w1 Hfed H).
Qed.

Lemma build_fed (bits : Z) (n : nat) (w : Bitwriter) (out : list byte) :
  0 < bits -> fed bits n w -> build w = Ok out ->
  Z.of_nat (length out)
  = if (n =? 0)%nat then 0 else bits * Z.of_nat n / 8 + 1.
Proof.
  intros Hb [Hcount Hpos Hal Hnone] H. unfold build in H.
  destruct (last_byte w) as [last|] eqn:Elast.
  - apply bind_Ok in H as (v & _ & H).
    apply array_B_tobytes_length in H. rewrite H, length_app. cbn [length].
    destruct (Nat.eqb_spec n 0) as [->|Hn].
    + destruct Hnone as [_ Hn]. discriminate (Hn eq_refl).
    + assert (bits * Z.of_nat n / 8 = Z.of_nat (length (bytes w)))
        by (symmetry; apply Z.div_unique with (pos w); lia).
      lia.
  - apply array_B_tobytes_length in H.
    assert (n = 0%nat) by now apply Hnone. subst n. cbn [Nat.eqb]. lia.
Qed.

Lemma length_slice_to {A : Type} (l : list A) (n : Z) :
  0 <= n -> Z.of_nat (length (slice_to l n)) = Z.min n (Z.of_nat (length l)).
Proof.
  intros Hn. unfold slice_to. destruct (Z.ltb_spec n 0); [lia|].
  rewrite length_firstn. lia.
Qed.

Lemma Forall2_concat_length {A B : Type} (P : A -> list B -> Prop) (n : Z)
      (l : list A) (rows : list (list B)) :
  Forall2 P l rows -> (forall a row, P a row -> Z.of_nat (length row) = n) ->
  Z.of_nat (length (concat rows)) = Z.of_nat (length l) * n.
Proof.
  intros H HP. induction H as [|a row l rows Ha H IH]; cbn [concat length]; [lia|].
  rewrite length_app, Nat2Z.inj_add, IH, (HP a row Ha). lia.
Qed.

(** C3, as amended.  [convert_png_image_to_palette_image] emits each built
    row cut to its first [row_length] bytes.  A built row longer than
    [row_length] is truncated without an error: whenever the row can be
    built, the row is emitted.  At a depth in {1, 2, 4, 8} a row of
    [width >= 1] pixels is built as [width * bits_per_pixel / 8 + 1]
    bytes, so when [row_length] is at most that, every emitted row is
    exactly [row_length] bytes and the pixel data is exactly
    [height * row_length] bytes. *)
Theorem encoded_row_length (im : Image) (h : ImageHeader)
        (rows : list (list byte)) :
  supported_depth (bits_per_pixel h) ->
  0 < width h -> 0 <= height h ->
  0 <= row_length h <= bits_per_pixel h * width h / 8 + 1 ->
  encode_rows im h = Ok rows ->
  (forall y built,
     (bitwriter <- add_row im h y (range (width h)) Bitwriter_init ;;
      build bitwriter) = Ok built ->
     encode_row im h y = Ok (firstn (Z.to_nat (row_length h)) built)) /\
  Forall2 (fun y row =>
             exists built,
               (bitwriter <- add_row im h y (range (width h)) Bitwriter_init ;;
                build bitwriter) = Ok built /\
               Z.of_nat (length built) = bits_per_pixel h * width h / 8 + 1 /\
               row = firstn (Z.to_nat (row_length h)) built /\
               Z.of_nat (length row) = row_length h)
          (range (height h)) rows /\
  Z.of_nat (length (concat rows)) = height h * row_length h.
Proof.
  intros Hb Hw Hh Hrl Hrows.
  assert (Hb' := supported_depth_pos _ Hb).
  assert (Hslice : forall built : list byte,
             slice_to built (row_length h)
             = firstn (Z.to_nat (row_length h)) built).
  { intros built. unfold slice_to. destruct (Z.ltb_spec (row_length h) 0); [lia|].
    reflexivity. }
  assert (Hrow : forall y row, encode_row im h y = Ok row ->
             exists built,
               (bitwriter <- add_row im h y (range (width h)) Bitwriter_init ;;
                build bitwriter) = Ok built /\
               Z.of_nat (length built) = bits_per_pixel h * width h / 8 + 1 /\
               row = firstn (Z.to_nat (row_length h)) built /\
               Z.of_nat (length row) = row_length h).
  { intros y row H. unfold encode_row in H.
    apply bind_Ok in H as (bw & Hbw & H). apply bind_Ok in H as (built & Hbuilt & H).
    inversion H; subst row; clear H.
    pose proof (add_row_fed im h y _ 0 _ _ Hb
                  (fed_init (bits_per_pixel h) ltac:(lia)) Hbw) as Hfed.
    cbn [Nat.add] in Hfed. rewrite length_range in Hfed.
    pose proof (build_fed (bits_per_pixel h) _ _ _ ltac:(lia) Hfed Hbuilt)
      as Hlen.
    destruct (Nat.eqb_spec (Z.to_nat (width h)) 0) as [?|_]; [lia|].
    rewrite Z2Nat.id in Hlen by lia.
    exists built. rewrite Hbw. cbn [bind]. repeat split; try assumption.
    - apply Hslice.
    - rewrite length_slice_to by lia. lia. }
  split; [|split].
  - intros y built H. unfold encode_row.
    apply bind_Ok in H as (bw & -> & H). cbn [bind]. rewrite H. cbn [bind].
    now rewrite Hslice.
  - unfold encode_rows in Hrows. apply mapM_Forall2 in Hrows.
    eapply Forall2_impl; [|exact Hrows]. intros y row. apply Hrow.
  - unfold encode_rows in Hrows. apply mapM_Forall2 in Hrows.
    rewrite (Forall2_concat_length _ (row_length h) _ _ Hrows).
    + rewrite length_range. rewrite Z2Nat.id by lia. reflexivity.
    + intros y row H. destruct (Hrow y row H) as (_ & _ & _ & _ & E). exact E.
Qed.

Lemma encoded_row_length_witness :
  Z.of_nat (length (concat [[x00]])) = height header_4x1 * row_length header_4x1.
Proof.
  refine (proj2 (proj2 (encoded_row_length blank_4x1 header_4x1 [[x00]]
                          _ _ _ _ _))).
  - unfold supported_depth. right; left; reflexivity.
  - reflexivity.
  - discriminate.
  - cbn. lia.
  - reflexivity.
Defined.

(** C3 as stated fails.  A row of 4 pixels at 2 bits is built as 2 bytes;
    with [row_length = 1] no error is raised and the row is emitted cut to
    1 byte.  A row of 1 pixel at 1 bit is built as 1 byte; with
    [row_length = 2] it is emitted as that 1 byte, so the pixel data of the
    1-row image is 1 byte, not [height * row_length = 2]. *)
Lemma encoded_row_length_counterexample :
  (bitwriter <- add_row blank_4x1 header_4x1 0 (range (width header_4x1))
                  Bitwriter_init ;;
   build bitwriter) = Ok [x00; x00] /\
  row_length header_4x1 = 1 /\
  encode_row blank_4x1 header_4x1 0 = Ok [x00] /\
  encode_rows blank_1x1 header_1x1_slack = Ok [[x00]] /\
  Z.of_nat (length (concat [[x00]]))
  <> height header_1x1_slack * row_length header_1x1_slack.
Proof.
  repeat split; try reflexivity. discriminate.
Qed.

(** ** The struct codec *)

Lemma byte_of_Z_low (b : byte) (u : Z) : byte_of_Z (Z_of_byte b + 256 * u) = b.
Proof.
  unfold byte_of_Z.
  replace ((Z_of_byte b + 256 * u) mod 256) with (Z_of_byte b).
  - unfold Z_of_byte. rewrite N2Z.id, Byte.of_to_N. reflexivity.
  - pose proof (Z_of_byte_range b). apply Z.mod_unique with u; lia.
Qed.

Lemma uint_of_le_range (bs : list byte) :
  0 <= uint_of_le bs < 256 ^ Z.of_nat (length bs).
Proof.
  induction bs as [|b bs IH]; cbn [uint_of_le length].
  - cbn. lia.
  - rewrite Nat2Z.inj_succ, Z.pow_succ_r by lia.
    pose proof (Z_of_byte_range b). lia.
Qed.

Lemma le_of_uint_of_le (bs : list byte) :
  le_of_uint (length bs) (uint_of_le bs) = bs.
Proof.
  induction bs as [|b bs IH]; cbn [uint_of_le length le_of_uint]; [reflexivity|].
  rewrite byte_of_Z_low. f_equal.
  replace ((Z_of_byte b + 256 * uint_of_le bs) / 256) with (uint_of_le bs);
    [exact IH|].
  pose proof (Z_of_byte_range b). apply Z.div_unique with (Z_of_byte b); lia.
Qed.

Lemma uint_of_bytes_range (o : byteorder) (bs : list byte) :
  0 <= uint_of_bytes o bs < 256 ^ Z.of_nat (length bs).
Proof.
  destruct o; cbn [uint_of_bytes]; [apply uint_of_le_range|].
  rewrite <- length_rev. apply uint_of_le_range.
Qed.

Lemma bytes_of_uint_of_bytes (o : byteorder) (bs : list byte) :
  bytes_of_uint o (length bs) (uint_of_bytes o bs) = bs.
Proof.
  destruct o; cbn [uint_of_bytes bytes_of_uint]; [apply le_of_uint_of_le|].
  rewrite <- length_rev, le_of_uint_of_le. apply rev_involutive.
Qed.

Lemma pack_uint_of_bytes (o : byteorder) (bs : list byte) :
  pack_uint o (length bs) (uint_of_bytes o bs) = Ok bs.
Proof.
  unfold pack_uint. pose proof (uint_of_bytes_range o bs).
  destruct (Z.leb_spec 0 (uint_of_bytes o bs)); [|lia].
  destruct (Z.ltb_spec (uint_of_bytes o bs) (256 ^ Z.of_nat (length bs))); [|lia].
  cbn [andb]. now rewrite bytes_of_uint_of_bytes.
Qed.

Lemma pack_bytes_unpack (part : list byte) :
  mapM (pack_uint LittleEndian 1) (map Z_of_byte part)
  = Ok (map (fun b => [b]) part).
Proof.
  induction part as [|b part IH]; cbn [map mapM]; [reflexivity|].
  rewrite IH. unfold pack_uint. pose proof (Z_of_byte_range b).
  destruct (Z.leb_spec 0 (Z_of_byte b)); [|lia].
  change (256 ^ Z.of_nat 1) with 256.
  destruct (Z.ltb_spec (Z_of_byte b) 256); [|lia].
  cbn [andb bytes_of_uint le_of_uint bind]. now rewrite byte_of_Z_of_byte.
Qed.

Lemma concat_singletons {A : Type} (l : list A) :
  concat (map (fun a => [a]) l) = l.
Proof. induction l as [|a l IH]; cbn [map concat app]; congruence. Qed.

(** Packing what a field unpacked to gives the field back. *)
Lemma struct_pack_unpack (f : fmt) (part : list byte) (unpacked : list Z) :
  struct_unpack f part = Ok unpacked -> struct_pack f unpacked = Ok part.
Proof.
  unfold struct_unpack.
  destruct (Nat.eqb_spec (length part) (calcsize f)) as [Hlen|]; [|discriminate].
  cbn [negb]. destruct f as [n| | |]; cbn [calcsize] in Hlen;
    intros H; inversion H; subst unpacked; clear H; cbn [struct_pack].
  - rewrite length_map, Hlen, Nat.eqb_refl. cbn [negb].
    rewrite pack_bytes_unpack. cbn [bind]. now rewrite concat_singletons.
  - rewrite <- Hlen. apply pack_uint_of_bytes.
  - rewrite <- Hlen. apply pack_uint_of_bytes.
  - rewrite <- Hlen. apply pack_uint_of_bytes.
Qed.

Lemma struct_unpack_Ok (f : fmt) (part : list byte) :
  length part = calcsize f -> exists unpacked, struct_unpack f part = Ok unpacked.
Proof.
  intros Hlen. unfold struct_unpack. rewrite Hlen, Nat.eqb_refl. cbn [negb].
  destruct f; eauto.
Qed.

Lemma struct_unpack_shape (size : Z) (f : fmt) (part : list byte)
      (unpacked : list Z) :
  struct_unpack f part = Ok unpacked ->
  field_shape (size, f)
              match unpacked with [z] => VInt z | _ => VTuple unpacked end.
Proof.
  unfold struct_unpack.
  destruct (Nat.eqb_spec (length part) (calcsize f)) as [Hlen|]; [|discriminate].
  cbn [negb]. unfold field_shape. cbn [snd].
  destruct f as [n| | |]; cbn [calcsize] in Hlen;
    intros H; inversion H; subst unpacked; clear H; try exact I.
  destruct part as [|b0 [|b1 part]]; cbn [map length] in *; subst n.
  - reflexivity.
  - exact I.
  - now rewrite length_map.
Qed.

Lemma tuple_of_field (unpacked : list Z) :
  match match unpacked with [z] => VInt z | _ => VTuple unpacked end with
  | VTuple t => t
  | VInt z => [z]
  end = unpacked.
Proof. destruct unpacked as [|z [|z' l]]; reflexivity. Qed.

Lemma sum_sizes_nonneg (fmts : list (Z * fmt)) : wf_format fmts -> 0 <= sum_sizes fmts.
Proof.
  intros H. induction H as [|[size f] fmts Hsf H IH]; cbn [sum_sizes fold_right fst].
  - lia.
  - cbn [fst snd] in Hsf. fold (sum_sizes fmts). lia.
Qed.

Lemma slice_from_add {A : Type} (l : list A) (off size : Z) :
  0 <= off -> 0 <= size ->
  slice_from l (off + size) = skipn (Z.to_nat size) (slice_from l off).
Proof.
  intros Hoff Hsize. unfold slice_from. rewrite skipn_skipn. f_equal. lia.
Qed.

(** The loop of [parse_data] on enough bytes: the values have the shapes
    of their formats, and the loop of [build_bytes] turns them back into
    the bytes they were read from. *)
Lemma parse_data_loop_build (fmts : list (Z * fmt)) (data : list byte)
      (offset : Z) (retval : list pyval) :
  wf_format fmts -> 0 <= offset ->
  parse_data_loop fmts data offset = Ok retval ->
  Forall2 field_shape fmts retval /\
  sum_sizes fmts <= Z.of_nat (length (slice_from data offset)) /\
  exists bytes_list,
    build_bytes_loop fmts retval = Ok bytes_list /\
    concat bytes_list
    = firstn (Z.to_nat (sum_sizes fmts)) (slice_from data offset).
Proof.
  intros Hwf. revert offset retval.
  induction Hwf as [|[size f] fmts Hsf Hwf IH]; intros offset retval Hoff H;
    cbn [parse_data_loop] in H.
  - inversion H; subst. cbn [sum_sizes fold_right Z.to_nat firstn].
    split; [constructor|]. split; [lia|]. exists []. split; reflexivity.
  - cbn [fst snd] in Hsf.
    set (part := firstn (Z.to_nat size) (slice_from data offset)) in *.
    destruct (Z.eqb_spec (Z.of_nat (length part)) size) as [Hlen|]; [|discriminate].
    cbn [negb] in H.
    apply bind_Ok in H as (unpacked & Hun & H).
    apply bind_Ok in H as (rest & Hrest & H). inversion H; subst retval; clear H.
    destruct (IH (offset + size) rest ltac:(lia) Hrest) as (Hshape & Hle & bl & Hbl & Hcat).
    pose proof (sum_sizes_nonneg fmts Hwf) as Hnn.
    rewrite slice_from_add in Hle, Hcat by lia.
    rewrite length_skipn in Hle.
    assert (Hpart : Z.of_nat (length part) <= Z.of_nat (length (slice_from data offset))).
    { subst part. rewrite length_firstn. lia. }
    cbn [sum_sizes fold_right fst]. fold (sum_sizes fmts).
    split; [|split].
    + constructor; [|assumption]. eapply struct_unpack_shape; eassumption.
    + lia.
    + exists (part :: bl). cbn [build_bytes_loop]. rewrite tuple_of_field.
      rewrite (struct_pack_unpack _ _ _ Hun). cbn [bind].
      destruct (Z.eqb_spec (Z.of_nat (length part)) size); [|contradiction].
      cbn [negb]. rewrite Hbl. cbn [bind]. split; [reflexivity|].
      cbn [concat]. rewrite Hcat.
      rewrite Z2Nat.inj_add by lia. now rewrite firstn_add_skipn.
Qed.

(** The loop of [parse_data] returns when the bytes are there, and raises
    the source's [Exception] with [got < want] when they are not. *)
Lemma parse_data_loop_total (fmts : list (Z * fmt)) (data : list byte)
      (offset : Z) :
  wf_format fmts -> 0 <= offset ->
  (sum_sizes fmts <= Z.of_nat (length (slice_from data offset)) ->
   exists retval, parse_data_loop fmts data offset = Ok retval) /\
  (Z.of_nat (length (slice_from data offset)) < sum_sizes fmts ->
   exists got want,
     got < want /\ parse_data_loop fmts data offset = Raise (Exception got want)).
Proof.
  intros Hwf. revert offset.
  induction Hwf as [|[size f] fmts Hsf Hwf IH]; intros offset Hoff;
    cbn [parse_data_loop sum_sizes fold_right fst].
  - split; [eauto | lia].
  - cbn [fst snd] in Hsf. fold (sum_sizes fmts).
    pose proof (sum_sizes_nonneg fmts Hwf) as Hnn.
    set (part := firstn (Z.to_nat size) (slice_from data offset)).
    assert (Hpart : Z.of_nat (length part)
                    = Z.min size (Z.of_nat (length (slice_from data offset)))).
    { subst part. rewrite length_firstn. lia. }
    destruct (IH (offset + size) ltac:(lia)) as [IHok IHshort].
    rewrite slice_from_add in IHok, IHshort by lia.
    rewrite length_skipn in IHok, IHshort.
    destruct (Z.eqb_spec (Z.of_nat (length part)) size) as [Hlen|Hlen]; cbn [negb].
    + destruct (struct_unpack_Ok f part ltac:(lia)) as (unpacked & ->). cbn [bind].
      split; intros H.
      * destruct IHok as (rest & ->); [lia|]. cbn [bind]. eauto.
      * destruct IHshort as (got & want & Hlt & ->); [lia|]. cbn [bind]. eauto.
    + split; intros H; [lia|].
      exists (Z.of_nat (length part)), size. split; [lia | reflexivity].
Qed.

Section ParserLaws.
Context {T : Type} {cls : Parser T} {laws : ParserLaws T}.

Lemma get_total_bytes_nonneg : 0 <= get_total_bytes.
Proof. apply (sum_sizes_nonneg format), format_wf. Qed.

Lemma parse_data_build (data : list byte) (r : T) :
  parse_data data = Ok r ->
  get_total_bytes <= Z.of_nat (length data) /\
  build_bytes r = Ok (firstn (Z.to_nat get_total_bytes) data).
Proof.
  unfold parse_data, build_bytes. intros H.
  apply bind_Ok in H as (retval & Hloop & Hr).
  destruct (parse_data_loop_build format data 0 retval format_wf ltac:(lia) Hloop)
    as (_ & Hle & bl & Hbl & Hcat).
  rewrite (fields_container_class _ _ Hr), Hbl. cbn [bind].
  unfold slice_from in *. cbn [Z.to_nat skipn] in *.
  split; [exact Hle | now rewrite Hcat].
Qed.

Lemma parse_data_Ok (data : list byte) :
  get_total_bytes <= Z.of_nat (length data) -> exists r, parse_data data = Ok r.
Proof.
  intros Hle. unfold parse_data.
  destruct (parse_data_loop_total format data 0 format_wf ltac:(lia)) as [Hok _].
  destruct Hok as (retval & Hloop); [exact Hle|].
  destruct (parse_data_loop_build format data 0 retval format_wf ltac:(lia) Hloop)
    as (Hshape & _).
  destruct (container_class_shape retval Hshape) as (r & Hr).
  exists r. rewrite Hloop. exact Hr.
Qed.

Lemma parse_data_short (data : list byte) :
  Z.of_nat (length data) < get_total_bytes ->
  exists got want, got < want /\ parse_data data = Raise (Exception got want).
Proof.
  intros Hlt. unfold parse_data.
  destruct (parse_data_loop_total format data 0 format_wf ltac:(lia)) as [_ Hshort].
  destruct Hshort as (got & want & Hgw & ->); [exact Hlt|]. cbn [bind]. eauto.
Qed.

Lemma read_inv (buffer : BytesIO) (r : T) (rest : BytesIO) :
  read buffer = Ok (r, rest) ->
  get_total_bytes <= Z.of_nat (length buffer) /\
  rest = skipn (Z.to_nat get_total_bytes) buffer /\
  parse_data (firstn (Z.to_nat get_total_bytes) buffer) = Ok r /\
  build_bytes r = Ok (firstn (Z.to_nat get_total_bytes) buffer).
Proof.
  pose proof get_total_bytes_nonneg as Hnn.
  unfold read, _read_buffer, read_bytes.
  destruct (Z.ltb_spec get_total_bytes 0) as [?|_]; [lia|].
  destruct (Z.eqb_spec
              (Z.of_nat (length (firstn (Z.to_nat get_total_bytes) buffer)))
              get_total_bytes) as [Hlen|]; [|discriminate].
  cbn [negb bind]. intros H. apply bind_Ok in H as (r' & Hr & H).
  inversion H; subst r' rest; clear H.
  rewrite length_firstn in Hlen.
  destruct (parse_data_build _ _ Hr) as [_ Hb].
  rewrite firstn_firstn, Nat.min_id in Hb.
  repeat split; try assumption. lia.
Qed.

Lemma read_Ok (buffer : BytesIO) :
  get_total_bytes <= Z.of_nat (length buffer) ->
  exists r, read buffer = Ok (r, skipn (Z.to_nat get_total_bytes) buffer).
Proof.
  pose proof get_total_bytes_nonneg as Hnn. intros Hle.
  unfold read, _read_buffer, read_bytes.
  destruct (Z.ltb_spec get_total_bytes 0) as [?|_]; [lia|].
  destruct (Z.eqb_spec
              (Z.of_nat (length (firstn (Z.to_nat get_total_bytes) buffer)))
              get_total_bytes) as [Hlen|Hlen];
    [|rewrite length_firstn in Hlen; lia].
  cbn [negb bind].
  destruct (parse_data_Ok (firstn (Z.to_nat get_total_bytes) buffer))
    as (r & ->); [lia|].
  cbn [bind]. eauto.
Qed.

Lemma read_short (buffer : BytesIO) :
  Z.of_nat (length buffer) < get_total_bytes ->
  read buffer = Raise (Exception (Z.of_nat (length buffer)) get_total_bytes).
Proof.
  intros Hlt. unfold read, _read_buffer, read_bytes.
  destruct (Z.ltb_spec get_total_bytes 0) as [?|_]; [lia|].
  rewrite firstn_all2 by lia.
  destruct (Z.eqb_spec (Z.of_nat (length buffer)) get_total_bytes); [lia|].
  reflexivity.
Qed.
End ParserLaws.

Ltac invert_shapes :=
  repeat match goal with
         | H : Forall2 _ (_ :: _) _ |- _ => inversion H; subst; clear H
         | H : Forall2 _ [] _ |- _ => inversion H; subst; clear H
         end;
  repeat match goal with
         | H : field_shape _ ?v |- _ =>
             unfold field_shape in H; cbn [snd] in H; destruct v;
             try contradiction; clear H
         end.

Ltac invert_container H :=
  repeat match type of H with
         | context [match ?x with _ => _ end] => destruct x; try discriminate H
         end;
  inversion H; reflexivity.

#[global] Instance HeaderParser_laws : ParserLaws HeaderContainer.
Proof.
  constructor.
  - repeat constructor.
  - intros retval H. cbn [format HeaderParser.parser] in H. invert_shapes.
    eexists; reflexivity.
  - intros retval r H. cbn [container_class HeaderParser.parser] in H.
    invert_container H.
Qed.

#[global] Instance TOCParser_laws : ParserLaws TOCEntry.
Proof.
  constructor.
  - repeat constructor.
  - intros retval H. cbn [format TOCParser.parser] in H. invert_shapes.
    eexists; reflexivity.
  - intros retval r H. cbn [container_class TOCParser.parser] in H.
    invert_container H.
Qed.

#[global] Instance ImageHeaderParser_laws : ParserLaws ImageHeader.
Proof.
  constructor.
  - repeat constructor.
  - intros retval H. cbn [format ImageHeaderParser.parser] in H. invert_shapes.
    eexists; reflexivity.
  - intros retval r H. cbn [container_class ImageHeaderParser.parser] in H.
    invert_container H.
Qed.

#[global] Instance PaletteParser_laws : ParserLaws PaletteData.
Proof.
  constructor.
  - repeat constructor.
  - intros retval H. cbn [format PaletteParser.parser] in H. invert_shapes.
    eexists; reflexivity.
  - intros retval r H. cbn [container_class PaletteParser.parser] in H.
    invert_container H.
Qed.

(** ** Parsing a container *)

Lemma parse_resource_inv (data : list byte) (idx : Z) (r : Resource) :
  parse_resource data idx = Ok r ->
  16 <= Z.of_nat (length data) /\
  parse_data data = Ok (image_info r) /\
  build_bytes (image_info r) = Ok (firstn 16 data) /\
  image_data r = skipn 16 data /\
  filename r = idx.
Proof.
  unfold parse_resource. intros H.
  apply bind_Ok in H as (h & Hh & H). apply bind_Ok in H as (rebuild & Hre & H).
  inversion H; subst r; clear H. cbn [image_info image_data filename].
  destruct (parse_data_build data h Hh) as [Hle Hb].
  repeat split; assumption.
Qed.

Lemma parse_resource_Ok (data : list byte) (idx : Z) :
  16 <= Z.of_nat (length data) ->
  exists h,
    parse_data data = Ok h /\
    parse_resource data idx
    = Ok {| image_info := h; image_data := skipn 16 data; filename := idx |}.
Proof.
  intros Hle. destruct (parse_data_Ok (T:=ImageHeader) data) as (h & Hh);
    [exact Hle|].
  exists h. split; [assumption|]. unfold parse_resource. rewrite Hh. cbn [bind].
  destruct (parse_data_build data h Hh) as [_ ->]. reflexivity.
Qed.

Lemma parse_resource_short (data : list byte) (idx : Z) :
  Z.of_nat (length data) < 16 ->
  exists got want,
    got < want /\ parse_resource data idx = Raise (Exception got want).
Proof.
  intros Hlt.
  destruct (parse_data_short (T:=ImageHeader) data) as (got & want & Hgw & H);
    [exact Hlt|].
  exists got, want. split; [assumption|]. unfold parse_resource. now rewrite H.
Qed.

Lemma read_toc_inv (n : nat) (buffer : BytesIO) (toc : list TOCEntry)
      (rest : BytesIO) :
  read_toc n buffer = Ok (toc, rest) ->
  length toc = n /\
  (4 * n <= length buffer)%nat /\
  rest = skipn (4 * n) buffer /\
  forall outfh, write_toc outfh toc = (outfh ++ firstn (4 * n) buffer, Ok tt).
Proof.
  revert buffer toc rest; induction n as [|n IH]; intros buffer toc rest H;
    cbn [read_toc] in H.
  - inversion H; subst. cbn [length Nat.mul firstn skipn write_toc].
    repeat split; try lia. intros outfh. now rewrite app_nil_r.
  - apply bind_Ok in H as ([entry buffer1] & Hentry & H). cbn beta iota in H.
    apply bind_Ok in H as ([toc' buffer2] & Htoc & H). cbn beta iota in H.
    inversion H; subst toc rest; clear H.
    apply read_inv in Hentry as (Hle & -> & _ & Hbuild).
    change (get_total_bytes (T:=TOCEntry)) with 4 in *.
    change (Z.to_nat 4) with 4%nat in *.
    destruct (IH _ _ _ Htoc) as (Hlen & Hle' & -> & Hwrite).
    rewrite length_skipn in Hle'. cbn [length].
    repeat split; try lia.
    + rewrite skipn_skipn. f_equal. lia.
    + intros outfh. cbn [write_toc]. rewrite Hbuild, Hwrite, <- app_assoc.
      do 2 f_equal. replace (4 * S n)%nat with (4 + 4 * n)%nat by lia.
      now rewrite firstn_add_skipn.
Qed.

Lemma read_toc_short (n : nat) (buffer : BytesIO) :
  (length buffer < 4 * n)%nat ->
  exists got want, got < want /\ read_toc n buffer = Raise (Exception got want).
Proof.
  revert buffer; induction n as [|n IH]; intros buffer Hlt; [lia|].
  cbn [read_toc].
  destruct (Z.lt_ge_cases (Z.of_nat (length buffer)) 4) as [Hshort|Hlong].
  - rewrite (read_short (T:=TOCEntry)) by exact Hshort. cbn [bind].
    exists (Z.of_nat (length buffer)), 4. split; [assumption | reflexivity].
  - destruct (read_Ok (T:=TOCEntry) buffer) as (entry & ->); [exact Hlong|].
    cbn [bind].
    change (Z.to_nat (get_total_bytes (T:=TOCEntry))) with 4%nat.
    destruct (IH (skipn 4 buffer)) as (got & want & Hgw & ->).
    { rewrite length_skipn. lia. }
    cbn [bind]. eauto.
Qed.

(** What [parse_res_file] returned, read back from its definition. *)
Lemma parse_res_file_inv (buffer : BytesIO) (resfile : ResFile) :
  parse_res_file buffer = Ok resfile ->
  exists rest data spans tail last,
    read buffer = Ok (header resfile, rest) /\
    read_toc (Z.to_nat (res_count (header resfile))) rest
    = Ok (toc resfile, data) /\
    parse_spans (enumerate (tl (toc resfile))) 0 data = Ok (spans, tail) /\
    parse_resource tail (Z.of_nat (length (toc resfile))) = Ok last /\
    resources resfile = spans ++ [last].
Proof.
  unfold parse_res_file. intros H.
  apply bind_Ok in H as ([hd rest] & Hhd & H). cbn beta iota in H.
  apply bind_Ok in H as ([tc data] & Htc & H). cbn beta iota in H.
  apply bind_Ok in H as ([spans tail] & Hsp & H). cbn beta iota in H.
  unfold read_rest in H.
  apply bind_Ok in H as (last & Hlast & H).
  inversion H; subst resfile; clear H. cbn [header toc resources].
  exists rest, data, spans, tail, last. repeat split; assumption.
Qed.

(** ** Repacking: the header and the table of contents *)

Lemma write_resources_prefix (fs : files) (rs : list Resource) (outfh : list byte) :
  exists tail, fst (write_resources fs outfh rs) = outfh ++ tail.
Proof.
  revert outfh; induction rs as [|r rs IH]; intros outfh; cbn [write_resources].
  - exists []. cbn [fst]. now rewrite app_nil_r.
  - destruct (fs (filename r)) as [png|]; [|exists []; cbn [fst]; now rewrite app_nil_r].
    destruct (convert_png_image_to_palette_image png (image_info r)) as [d|e];
      [|exists []; cbn [fst]; now rewrite app_nil_r].
    destruct (IH (outfh ++ d)) as (tail & ->). exists (d ++ tail).
    now rewrite app_assoc.
Qed.

Lemma build_parse_exact {T : Type} {cls : Parser T} {laws : ParserLaws T}
      (data : list byte) :
  Z.of_nat (length data) = get_total_bytes ->
  exists r : T, parse_data data = Ok r /\ build_bytes r = Ok data.
Proof.
  intros Hlen. destruct (parse_data_Ok data) as (r & Hr); [lia|].
  exists r. split; [assumption|].
  destruct (parse_data_build data r Hr) as [_ ->].
  rewrite firstn_all2 by lia. reflexivity.
Qed.

(** C8.  Whatever the PNG files, what [repack_res_file] writes for a
    parsed container starts with the 20 header bytes and the [res_count]
    4-byte table entries of the input, byte for byte.  For each record
    kind (header, table entry, image header, palette entry) and each byte
    string of the record's width, [build_bytes (parse_data data)] is
    [data]. *)
Theorem repack_header_toc_unchanged (buffer : BytesIO) (resfile : ResFile)
        (fs : files)
        (header_data toc_data image_header_data palette_data : list byte) :
  parse_res_file buffer = Ok resfile ->
  length header_data = 20%nat ->
  length toc_data = 4%nat ->
  length image_header_data = 16%nat ->
  length palette_data = 4%nat ->
  (length (toc resfile) = Z.to_nat (res_count (header resfile)) /\
   (20 + 4 * Z.to_nat (res_count (header resfile)) <= length buffer)%nat /\
   firstn (20 + 4 * Z.to_nat (res_count (header resfile)))
          (fst (repack_res_file fs resfile))
   = firstn (20 + 4 * Z.to_nat (res_count (header resfile))) buffer) /\
  (exists r : HeaderContainer,
     parse_data header_data = Ok r /\ build_bytes r = Ok header_data) /\
  (exists r : TOCEntry,
     parse_data toc_data = Ok r /\ build_bytes r = Ok toc_data) /\
  (exists r : ImageHeader,
     parse_data image_header_data = Ok r /\
     build_bytes r = Ok image_header_data) /\
  (exists r : PaletteData,
     parse_data palette_data = Ok r /\ build_bytes r = Ok palette_data).
Proof.
  intros Hparse H20 H4 H16 Hp.
  split; [|repeat split; apply build_parse_exact;
           [rewrite H20 | rewrite H4 | rewrite H16 | rewrite Hp]; reflexivity].
  apply parse_res_file_inv in Hparse
    as (rest & data & spans & tail & last & Hhd & Htoc & _ & _ & Hres).
  apply read_inv in Hhd as (Hle & -> & _ & Hbuild).
  change (get_total_bytes (T:=HeaderContainer)) with 20 in *.
  change (Z.to_nat 20) with 20%nat in *.
  apply read_toc_inv in Htoc as (Hlen & Hle' & _ & Hwrite).
  rewrite length_skipn in Hle'.
  split; [exact Hlen|]. split; [lia|].
  unfold repack_res_file. rewrite Hbuild, Hwrite.
  destruct (write_resources_prefix fs (resources resfile)
              (firstn 20 buffer
               ++ firstn (4 * Z.to_nat (res_count (header resfile)))
                         (skipn 20 buffer))) as (out & ->).
  rewrite <- firstn_add_skipn.
  rewrite firstn_app, firstn_firstn, Nat.min_id, length_firstn.
  replace (20 + 4 * Z.to_nat (res_count (header resfile))
           - Nat.min (20 + 4 * Z.to_nat (res_count (header resfile)))
                     (length buffer))%nat with 0%nat by lia.
  cbn [firstn]. now rewrite app_nil_r.
Qed.

Lemma repack_header_toc_unchanged_witness :
  firstn 28 (fst (repack_res_file no_files sample_resfile))
  = firstn 28 sample_container.
Proof.
  exact (proj2 (proj2 (proj1
    (repack_header_toc_unchanged
       sample_container sample_resfile no_files
       (firstn 20 sample_container) (firstn 4 sample_container)
       (firstn 16 sample_container) (firstn 4 sample_container)
       eq_refl eq_refl eq_refl eq_refl eq_refl)))).
Defined.

(** ** Resource boundaries *)

Lemma read_bytes_span (data : list byte) (prev e : Z) :
  0 <= prev <= e ->
  read_bytes (skipn (Z.to_nat prev) data) (e - prev)
  = (span data prev e, skipn (Z.to_nat e) data).
Proof.
  intros H. unfold read_bytes, span.
  destruct (Z.ltb_spec (e - prev) 0); [lia|].
  rewrite skipn_skipn. do 2 f_equal. lia.
Qed.

Lemma offsets_in_order_last (offsets : list Z) (prev limit : Z) :
  offsets_in_order prev offsets limit -> prev <= last offsets prev <= limit.
Proof.
  revert prev; induction offsets as [|a l IH]; intros prev H;
    cbn [offsets_in_order] in H.
  - cbn [last]. lia.
  - destruct H as [Hp H]. specialize (IH _ H). destruct l as [|z l].
    + cbn [last] in *. lia.
    + change (last (a :: z :: l) prev) with (last (z :: l) prev).
      rewrite (last_cons_default z l prev a). lia.
Qed.

(** The span loop on offsets in order: resource [j] of the loop is parsed
    from the bytes between the offset before it and its own offset, and
    the loop leaves the buffer at the last offset. *)
Lemma parse_spans_spec (data : list byte) (entries : list TOCEntry) :
  forall (k : nat) (prev : Z) (rs : list Resource) (tail : BytesIO),
    0 <= prev ->
    offsets_in_order prev (map abs_offset entries) (Z.of_nat (length data)) ->
    parse_spans (combine (map Z.of_nat (seq k (length entries))) entries)
                prev (skipn (Z.to_nat prev) data) = Ok (rs, tail) ->
    tail = skipn (Z.to_nat (last (map abs_offset entries) prev)) data /\
    length rs = length entries /\
    forall j, (j < length entries)%nat ->
      exists r,
        nth_error rs j = Some r /\
        parse_resource
          (span data (nth j (prev :: map abs_offset entries) 0)
                     (nth j (map abs_offset entries) 0))
          (Z.of_nat (k + j)) = Ok r.
Proof.
  induction entries as [|entry entries IH]; intros k prev rs tail Hprev Hord H;
    cbn [length seq map combine parse_spans] in H.
  - inversion H; subst. cbn [map last length]. repeat split. intros j Hj. inversion Hj.
  - cbn [map offsets_in_order] in Hord. destruct Hord as [Hle Hord].
    rewrite read_bytes_span in H by lia.
    apply bind_Ok in H as (r0 & Hr0 & H).
    apply bind_Ok in H as ([rs' tail'] & Hrest & H). cbn beta iota in H.
    inversion H; subst rs tail; clear H.
    destruct (IH (S k) (abs_offset entry) rs' tail' ltac:(lia) Hord Hrest)
      as (Htail & Hlen & Hnth).
    split; [|split].
    + rewrite Htail. cbn [map]. f_equal. f_equal.
      destruct (map abs_offset entries) as [|z l]; [reflexivity|].
      change (last (abs_offset entry :: z :: l) prev) with (last (z :: l) prev).
      apply last_cons_default.
    + cbn [length]. now rewrite Hlen.
    + intros [|j] Hj; cbn [length] in Hj.
      * exists r0. cbn [nth_error nth map]. rewrite Nat.add_0_r.
        split; [reflexivity | exact Hr0].
      * destruct (Hnth j ltac:(lia)) as (r & Hr & Hp).
        exists r. cbn [nth_error map]. split; [exact Hr|].
        replace (k + S j)%nat with (S k + j)%nat by lia.
        exact Hp.
Qed.

(** The resource that the span loop or the last read parses from the
    bytes of resource [i]. *)
Lemma parsed_resource_span (buffer : BytesIO) (resfile : ResFile) (i : nat) :
  parse_res_file buffer = Ok resfile ->
  1 <= res_count (header resfile) ->
  offsets_in_order 0 (map abs_offset (tl (toc resfile)))
    (Z.of_nat (length (skipn (20 + 4 * Z.to_nat (res_count (header resfile)))
                             buffer))) ->
  (i < Z.to_nat (res_count (header resfile)))%nat ->
  length (toc resfile) = Z.to_nat (res_count (header resfile)) /\
  length (resources resfile) = Z.to_nat (res_count (header resfile)) /\
  exists r,
    nth_error (resources resfile) i = Some r /\
    parse_resource
      (span (skipn (20 + 4 * Z.to_nat (res_count (header resfile))) buffer)
            (resource_start (map abs_offset (toc resfile)) i)
            (resource_end (map abs_offset (toc resfile))
               (Z.of_nat
                  (length (skipn (20 + 4 * Z.to_nat (res_count (header resfile)))
                                 buffer)))
               i))
      (resource_idx (Z.to_nat (res_count (header resfile))) i)
    = Ok r.
Proof.
  intros Hparse HN Hord Hi.
  apply parse_res_file_inv in Hparse
    as (rest & data & spans & tail & last & Hhd & Htoc & Hspans & Hlast & Hres).
  apply read_inv in Hhd as (_ & -> & _ & _).
  change (Z.to_nat (get_total_bytes (T:=HeaderContainer))) with 20%nat in *.
  apply read_toc_inv in Htoc as (Hlen & _ & Hdata & _).
  rewrite skipn_skipn in Hdata.
  replace (4 * Z.to_nat (res_count (header resfile)) + 20)%nat
    with (20 + 4 * Z.to_nat (res_count (header resfile)))%nat in Hdata by lia.
  rewrite <- Hdata in *. clear Hdata.
  set (N := Z.to_nat (res_count (header resfile))) in *.
  destruct (toc resfile) as [|e0 entries] eqn:Etoc; [cbn [length] in Hlen; lia|].
  cbn [tl length map] in *.
  unfold enumerate, range in Hspans. rewrite Nat2Z.id in Hspans.
  destruct (parse_spans_spec data entries 0 0 spans tail ltac:(lia) Hord Hspans)
    as (Htail & Hslen & Hnth).
  split; [exact Hlen|]. rewrite Hres, length_app. cbn [length].
  split; [lia|].
  unfold resource_start, resource_end, resource_idx. cbn [length].
  destruct (Nat.eqb_spec (S i) (S (length (map abs_offset entries)))) as [Ei|Ei];
    rewrite length_map in Ei.
  - (* the last resource *)
    destruct (Nat.eqb_spec (S i) N) as [_|]; [|lia].
    exists last. split.
    + rewrite nth_error_app2 by lia.
      replace (i - length spans)%nat with 0%nat by lia. reflexivity.
    + rewrite <- Hlen. subst tail.
      replace (match i with
               | 0%nat => 0
               | S _ => nth i (abs_offset e0 :: map abs_offset entries) 0
               end) with (List.last (map abs_offset entries) 0).
      2:{ injection Ei as ->. clear.
          induction entries as [|a [|b entries] IH]; try reflexivity.
          cbn [map length nth] in *. exact IH. }
      pose proof (offsets_in_order_last _ _ _ Hord) as Hlast_le.
      unfold span. rewrite firstn_all2; [exact Hlast|].
      rewrite length_skipn. lia.
  - (* a resource before the last *)
    destruct (Nat.eqb_spec (S i) N) as [|_]; [lia|].
    destruct (Hnth i ltac:(lia)) as (r & Hr & Hp).
    exists r. split.
    + rewrite nth_error_app1 by lia. exact Hr.
    + cbn [Nat.add] in Hp.
      replace (match i with
               | 0%nat => 0
               | S _ => nth i (abs_offset e0 :: map abs_offset entries) 0
               end)
        with (nth i (0 :: map abs_offset entries) 0)
        by (destruct i; reflexivity).
      exact Hp.
Qed.

(** C4, as amended.  For a parsed container whose table
    [e0; ...; e_(N-1)] has [N = res_count >= 1] entries, offsets
    [e1 <= ... <= e_(N-1)] in order and within the resource data (the
    bytes after header and table): there are exactly [N] resources; [e0]
    delimits nothing; resource 0 is the bytes [0, e1) of the resource
    data, resource [i] with [1 <= i <= N-2] the bytes [e_i, e_(i+1)), and
    the last resource the bytes from [e_(N-1)] to the end of the stream
    when [N >= 2], and all the resource data, from 0, when [N = 1].
    Resource [i] is what [parse_resource] makes of these bytes: its
    header, rebuilt, followed by its payload is exactly these bytes.  The
    last resource is numbered [N], the others by their position. *)
Theorem toc_boundaries (buffer : BytesIO) (resfile : ResFile) (i : nat) :
  parse_res_file buffer = Ok resfile ->
  1 <= res_count (header resfile) ->
  offsets_in_order 0 (map abs_offset (tl (toc resfile)))
    (Z.of_nat (length (skipn (20 + 4 * Z.to_nat (res_count (header resfile)))
                             buffer))) ->
  (i < Z.to_nat (res_count (header resfile)))%nat ->
  length (toc resfile) = Z.to_nat (res_count (header resfile)) /\
  length (resources resfile) = Z.to_nat (res_count (header resfile)) /\
  exists r header_data,
    nth_error (resources resfile) i = Some r /\
    parse_resource (resource_span buffer resfile i)
                   (resource_idx (Z.to_nat (res_count (header resfile))) i)
    = Ok r /\
    build_bytes (image_info r) = Ok header_data /\
    resource_span buffer resfile i = header_data ++ image_data r /\
    filename r = resource_idx (Z.to_nat (res_count (header resfile))) i.
Proof.
  intros Hparse HN Hord Hi.
  destruct (parsed_resource_span buffer resfile i Hparse HN Hord Hi)
    as (Htoc & Hres & r & Hnth & Hr).
  split; [exact Htoc|]. split; [exact Hres|].
  fold (resource_span buffer resfile i) in Hr.
  pose proof (parse_resource_inv _ _ _ Hr) as (_ & _ & Hbuild & Hdata & Hname).
  exists r, (firstn 16 (resource_span buffer resfile i)).
  split; [exact Hnth|]. split; [exact Hr|]. split; [exact Hbuild|].
  split; [|exact Hname].
  rewrite Hdata. symmetry. apply firstn_skipn.
Qed.

Lemma toc_boundaries_witness :
  exists r header_data,
    nth_error (resources sample_resfile) 1 = Some r /\
    parse_resource (resource_span sample_container sample_resfile 1)
                   (resource_idx
                      (Z.to_nat (res_count (header sample_resfile))) 1)
    = Ok r /\
    build_bytes (image_info r) = Ok header_data /\
    resource_span sample_container sample_resfile 1
    = header_data ++ image_data r /\
    filename r
    = resource_idx (Z.to_nat (res_count (header sample_resfile))) 1.
Proof.
  refine (proj2 (proj2 (toc_boundaries sample_container sample_resfile 1
                          eq_refl _ _ _))).
  - change (1 <= 2). lia.
  - change (0 <= 25 /\ 25 <= 42). lia.
  - change (1 < 2)%nat. lia.
Defined.

(** C4 as stated fails for tables of fewer than two entries.  With one
    entry [e0 = 4], the only resource is all the resource data, from 0
    and not from [e0]: the table entry is discarded.  With no entry, one
    resource is still produced, not none. *)
Lemma toc_boundaries_counterexample :
  (exists resfile r header_data,
     parse_res_file one_entry_container = Ok resfile /\
     res_count (header resfile) = 1 /\
     map abs_offset (toc resfile) = [4] /\
     resources resfile = [r] /\
     build_bytes (image_info r) = Ok header_data /\
     header_data ++ image_data r = skipn 24 one_entry_container /\
     header_data ++ image_data r <> skipn 4 (skipn 24 one_entry_container)) /\
  (exists resfile,
     parse_res_file no_entry_container = Ok resfile /\
     res_count (header resfile) = 0 /\
     length (resources resfile) = 1%nat).
Proof.
  split.
  - eexists. eexists. eexists.
    split; [reflexivity|]. split; [reflexivity|]. split; [reflexivity|].
    split; [reflexivity|]. split; [reflexivity|]. split; [reflexivity|].
    discriminate.
  - eexists. split; [reflexivity|]. split; reflexivity.
Qed.


(** ** Short reads *)

Lemma parse_resource_cases (data : list byte) (idx : Z) :
  (exists r, parse_resource data idx = Ok r) \/
  (Z.of_nat (length data) < 16 /\
   exists got want,
     got < want /\ parse_resource data idx = Raise (Exception got want)).
Proof.
  destruct (Z.lt_ge_cases (Z.of_nat (length data)) 16) as [Hlt|Hge].
  - right. split; [assumption|]. now apply parse_resource_short.
  - left. destruct (parse_resource_Ok data idx Hge) as (h & _ & H). eauto.
Qed.

(** The span loop raises nothing but the source's [Exception]. *)
Lemma parse_spans_cases (entries : list (Z * TOCEntry)) (prev : Z)
      (buffer : BytesIO) :
  (exists rs tail, parse_spans entries prev buffer = Ok (rs, tail)) \/
  (exists got want,
     got < want /\ parse_spans entries prev buffer = Raise (Exception got want)).
Proof.
  revert prev buffer; induction entries as [|[idx entry] entries IH];
    intros prev buffer; cbn [parse_spans].
  - left. eauto.
  - destruct (read_bytes buffer (abs_offset entry - prev)) as [data buffer'].
    destruct (parse_resource_cases data idx) as [(r & ->)|(_ & got & want & Hgw & ->)];
      cbn [bind]; [|right; eauto].
    destruct (IH (abs_offset entry) buffer')
      as [(rs & tail & ->)|(got & want & Hgw & ->)]; cbn [bind];
      [left | right]; eauto.
Qed.

Lemma read_bytes_nil (n : Z) : read_bytes [] n = ([], []).
Proof.
  unfold read_bytes. destruct (n <? 0); [reflexivity|].
  now rewrite firstn_nil, skipn_nil.
Qed.

Lemma parse_spans_exhausted (entries : list (Z * TOCEntry)) (prev : Z)
      (rs : list Resource) (tail : BytesIO) :
  parse_spans entries prev [] = Ok (rs, tail) -> tail = [].
Proof.
  revert prev rs; induction entries as [|[idx entry] entries IH];
    intros prev rs H; cbn [parse_spans] in H.
  - now inversion H.
  - rewrite read_bytes_nil in H.
    apply bind_Ok in H as (r & _ & H).
    apply bind_Ok in H as ([rs' tail'] & Hrest & H). cbn beta iota in H.
    inversion H; subst. eapply IH; eassumption.
Qed.

(** After a short read the buffer is exhausted, and stays so. *)
Lemma parse_spans_short (entries : list (Z * TOCEntry)) (prev : Z)
      (buffer : BytesIO) (rs : list Resource) (tail : BytesIO) :
  short_span prev (map (fun ie => abs_offset (snd ie)) entries)
             (Z.of_nat (length buffer)) = true ->
  parse_spans entries prev buffer = Ok (rs, tail) -> tail = [].
Proof.
  revert prev buffer rs; induction entries as [|[idx entry] entries IH];
    intros prev buffer rs Hshort H; cbn [map snd short_span parse_spans] in *.
  - discriminate.
  - unfold read_bytes in H.
    destruct (Z.ltb_spec (Z.of_nat (length buffer)) (abs_offset entry - prev))
      as [Hlt|Hge].
    + destruct (Z.ltb_spec (abs_offset entry - prev) 0); [lia|].
      rewrite (skipn_all2 (n := Z.to_nat (abs_offset entry - prev)) buffer) in H by lia.
      apply bind_Ok in H as (r & _ & H).
      apply bind_Ok in H as ([rs' tail'] & Hrest & H). cbn beta iota in H.
      inversion H; subst. eapply parse_spans_exhausted; eassumption.
    + destruct (Z.ltb_spec (abs_offset entry - prev) 0) as [Hneg|Hpos].
      * apply bind_Ok in H as (r & _ & H).
        apply bind_Ok in H as ([rs' tail'] & Hrest & H). cbn beta iota in H.
        inversion H; subst. eapply parse_spans_exhausted; eassumption.
      * apply bind_Ok in H as (r & _ & H).
        apply bind_Ok in H as ([rs' tail'] & Hrest & H). cbn beta iota in H.
        inversion H; subst. eapply IH; [|eassumption].
        rewrite length_skipn.
        replace (Z.of_nat (length buffer - Z.to_nat (abs_offset entry - prev)))
          with (Z.of_nat (length buffer) - (abs_offset entry - prev)) by lia.
        exact Hshort.
Qed.

Lemma map_snd_enumerate {A B : Type} (f : A -> B) (l : list A) :
  map (fun ie => f (snd ie)) (enumerate l) = map f l.
Proof.
  unfold enumerate, range. rewrite Nat2Z.id.
  generalize 0%nat as k. induction l as [|a l IH]; intros k; [reflexivity|].
  cbn [length seq map combine snd]. now rewrite IH.
Qed.

(** C5.  Every short read makes [parse_res_file] raise: a stream shorter
    than the 20-byte header, a stream that ends before the [res_count]
    4-byte table entries, and a span read that asks for more bytes than
    are left.  The exception is the source's [Exception] of the length
    checks (what the specification calls a truncated input error), with
    fewer bytes got than wanted; a short record is never returned. *)
Theorem short_read_raises (buffer : BytesIO) :
  (Z.of_nat (length buffer) < 20 \/
   (exists hdr rest,
      read buffer = Ok (hdr, rest) /\
      Z.of_nat (length rest) < 4 * res_count hdr) \/
   (exists hdr rest toc data,
      read buffer = Ok (hdr, rest) /\
      read_toc (Z.to_nat (res_count hdr)) rest = Ok (toc, data) /\
      short_span 0 (map abs_offset (tl toc)) (Z.of_nat (length data)) = true)) ->
  exists got want,
    got < want /\ parse_res_file buffer = Raise (Exception got want).
Proof.
  unfold parse_res_file.
  intros [Hhdr|[(hdr & rest & Hread & Hshort)|(hdr & rest & toc & data & Hread & Htoc & Hshort)]].
  - rewrite (read_short (T:=HeaderContainer)) by exact Hhdr. cbn [bind].
    exists (Z.of_nat (length buffer)), 20. split; [assumption | reflexivity].
  - rewrite Hread. cbn [bind].
    destruct (read_toc_short (Z.to_nat (res_count hdr)) rest)
      as (got & want & Hgw & ->); [lia|].
    cbn [bind]. eauto.
  - rewrite Hread. cbn [bind]. rewrite Htoc. cbn [bind].
    destruct (parse_spans_cases (enumerate (tl toc)) 0 data)
      as [(rs & tail & Hsp)|(got & want & Hgw & ->)]; [|cbn [bind]; eauto].
    rewrite Hsp. cbn [bind]. unfold read_rest.
    assert (tail = []).
    { eapply parse_spans_short; [|exact Hsp]. now rewrite map_snd_enumerate. }
    subst tail.
    destruct (parse_resource_short [] (Z.of_nat (length toc)))
      as (got & want & Hgw & ->); [cbn; lia|].
    cbn [bind]. eauto.
Qed.

Lemma short_read_raises_witness :
  exists got want,
    got < want /\ parse_res_file truncated_container = Raise (Exception got want).
Proof.
  apply (short_read_raises truncated_container).
  right; right.
  exists (header sample_resfile), (skipn 20 truncated_container),
         (toc sample_resfile), (skipn 28 truncated_container).
  split; [reflexivity|]. split; reflexivity.
Defined.

(** ** Decoding a resource *)

Lemma inside_true (img : Image) (x y : Z) :
  0 <= x < fst (Image.size img) -> 0 <= y < snd (Image.size img) ->
  Image.inside img (x, y) = true.
Proof.
  intros Hx Hy. unfold Image.inside. cbn [fst snd].
  destruct (Z.leb_spec 0 x); [|lia].
  destruct (Z.ltb_spec x (fst (Image.size img))); [|lia].
  destruct (Z.leb_spec 0 y); [|lia].
  destruct (Z.ltb_spec y (snd (Image.size img))); [|lia].
  reflexivity.
Qed.

(** The inner loop of the decoder never raises inside the image; it sets
    the pixels [x, x+1, ...] of row [y] to the values of the chunks, up to
    column [width - 1], and no other pixel. *)
Lemma put_row_spec (width y : Z) (chunks : list (list Z)) :
  forall (img : Image) (x : Z),
    fst (Image.size img) = width -> 0 <= x ->
    0 <= y < snd (Image.size img) ->
    exists img',
      put_row img width y x chunks = Ok img' /\
      Image.size img' = Image.size img /\
      Image.palette img' = Image.palette img /\
      forall x' y',
        Image.pixels img' x' y'
        = if (y' =? y) && (x <=? x')
             && (x' <? x + Z.of_nat (length (firstn (Z.to_nat (width - x)) chunks)))
          then Image.clip8
                 (nth (Z.to_nat (x' - x))
                      (map bits_to_int (firstn (Z.to_nat (width - x)) chunks)) 0)
          else Image.pixels img x' y'.
Proof.
  induction chunks as [|bits rest IH]; intros img x Hw Hx Hy; cbn [put_row].
  - exists img. repeat split. intros x' y'. rewrite firstn_nil. cbn [length].
    destruct (y' =? y), (Z.leb_spec x x'), (Z.ltb_spec x' (x + Z.of_nat 0));
      cbn [andb]; try reflexivity; lia.
  - destruct (Z.gtb_spec x (width - 1)) as [Hout|Hin].
    + exists img. repeat split. intros x' y'.
      replace (Z.to_nat (width - x)) with 0%nat by lia. cbn [firstn length].
      destruct (y' =? y), (Z.leb_spec x x'), (Z.ltb_spec x' (x + Z.of_nat 0));
        cbn [andb]; try reflexivity; lia.
    + unfold Image.putpixel. rewrite inside_true by (cbn [fst snd]; lia).
      cbn [bind].
      set (img1 := {| Image.size := Image.size img;
                      Image.palette := Image.palette img;
                      Image.pixels := _ |}).
      destruct (IH img1 (x + 1)) as (img' & Hput & Hsize & Hpal & Hpix);
        [exact Hw | lia | exact Hy |].
      exists img'. split; [exact Hput|]. split; [exact Hsize|].
      split; [exact Hpal|]. intros x' y'. rewrite Hpix.
      replace (Z.to_nat (width - x)) with (S (Z.to_nat (width - (x + 1)))) by lia.
      cbn [firstn length map Image.pixels img1 fst snd].
      set (vals := firstn (Z.to_nat (width - (x + 1))) rest).
      destruct (Z.eqb_spec y' y) as [Ey|Ey]; cbn [andb].
      * destruct (Z.leb_spec (x + 1) x') as [H1|H1];
          destruct (Z.leb_spec x x') as [H2|H2]; try lia; cbn [andb].
        -- destruct (Z.ltb_spec x' (x + 1 + Z.of_nat (length vals)));
             destruct (Z.ltb_spec x' (x + Z.of_nat (S (length vals)))); try lia.
           ++ replace (Z.to_nat (x' - x)) with (S (Z.to_nat (x' - (x + 1)))) by lia.
              reflexivity.
           ++ destruct (Z.eqb_spec x' x); [lia|]. reflexivity.
        -- assert (x' = x) by lia. subst x'.
           destruct (Z.ltb_spec x (x + Z.of_nat (S (length vals)))); [|lia].
           rewrite Z.eqb_refl. cbn [andb].
           replace (Z.to_nat (x - x)) with 0%nat by lia. reflexivity.
        -- destruct (Z.eqb_spec x' x); [lia|]. reflexivity.
      * rewrite andb_false_r. reflexivity.
Qed.

(** The outer loop of the decoder never raises, whatever the buffer and
    the bit depth. *)
Lemma decode_rows_Ok (h : ImageHeader) (ys : list Z) :
  forall (img_buf : BytesIO) (img : Image),
    fst (Image.size img) = width h ->
    Forall (fun y => 0 <= y < snd (Image.size img)) ys ->
    exists img',
      decode_rows h ys img_buf img = Ok img' /\
      Image.size img' = Image.size img.
Proof.
  induction ys as [|y ys IH]; intros img_buf img Hw Hys; cbn [decode_rows].
  - exists img. split; reflexivity.
  - inversion Hys as [|? ? Hy Hys']; subst.
    destruct (read_bytes img_buf (row_length h)) as [row_data img_buf'].
    destruct (put_row_spec (width h) y
                (chunkwise (bits_per_pixel h) (bitwalker row_data)) img 0)
      as (img1 & -> & Hsize & _ & _); [exact Hw | lia | exact Hy |].
    cbn [bind].
    destruct (IH img_buf' img1) as (img' & Hdec & Hsize').
    + now rewrite Hsize.
    + now rewrite Hsize.
    + exists img'. split; [exact Hdec|]. now rewrite Hsize'.
Qed.

Lemma read_bytes_app (row rest : list byte) (n : Z) :
  Z.of_nat (length row) = n -> read_bytes (row ++ rest) n = (row, rest).
Proof.
  intros Hn. unfold read_bytes. destruct (Z.ltb_spec n 0); [lia|].
  replace (Z.to_nat n) with (length row) by lia.
  rewrite firstn_app, Nat.sub_diag, firstn_all. cbn [firstn].
  rewrite app_nil_r, skipn_app, Nat.sub_diag, skipn_all. reflexivity.
Qed.

(** The decoder on a buffer that starts with whole rows: rows before
    [y0] are left as they were, and row [y0 + j] holds the indices
    unpacked from the [j]-th row of the buffer. *)
Lemma decode_rows_spec (h : ImageHeader) (rows : list (list byte)) :
  forall (y0 : nat) (img : Image) (tail : list byte),
    Forall (fun row => Z.of_nat (length row) = row_length h) rows ->
    fst (Image.size img) = width h ->
    Z.of_nat (y0 + length rows) <= snd (Image.size img) ->
    exists img',
      decode_rows h (map Z.of_nat (seq y0 (length rows))) (concat rows ++ tail) img
      = Ok img' /\
      Image.size img' = Image.size img /\
      Image.palette img' = Image.palette img /\
      (forall x y, y < Z.of_nat y0 ->
                   Image.pixels img' x y = Image.pixels img x y) /\
      (forall j x,
          (j < length rows)%nat ->
          0 <= x < Z.of_nat (length (unpack (nth j rows []) (width h)
                                            (bits_per_pixel h))) ->
          Image.pixels img' x (Z.of_nat (y0 + j))
          = Image.clip8 (nth (Z.to_nat x)
                             (unpack (nth j rows []) (width h) (bits_per_pixel h))
                             0)).
Proof.
  induction rows as [|row rows IH]; intros y0 img tail Hrows Hw Hh;
    cbn [length seq map decode_rows concat].
  - exists img. repeat split. intros j x Hj. inversion Hj.
  - inversion Hrows as [|? ? Hrow Hrows']; subst. cbn [length] in Hh.
    rewrite <- app_assoc, (read_bytes_app row _ _ Hrow).
    destruct (put_row_spec (width h) (Z.of_nat y0)
                (chunkwise (bits_per_pixel h) (bitwalker row)) img 0)
      as (img1 & -> & Hsize1 & Hpal1 & Hpix1); [exact Hw | lia | lia |].
    cbn [bind].
    destruct (IH (S y0) img1 tail Hrows') as (img' & Hdec & Hsize & Hpal & Hbefore & Hrowsj).
    { now rewrite Hsize1. }
    { rewrite Hsize1. lia. }
    exists img'. split; [exact Hdec|]. split; [congruence|]. split; [congruence|].
    split.
    + intros x y Hy. rewrite Hbefore by lia. rewrite Hpix1.
      destruct (Z.eqb_spec y (Z.of_nat y0)); [lia|]. reflexivity.
    + intros [|j] x Hj Hx.
      * rewrite Nat.add_0_r. cbn [nth] in *. rewrite Hbefore by lia. rewrite Hpix1.
        unfold unpack in Hx |- *. rewrite length_map in Hx.
        rewrite !Z.sub_0_r, Z.eqb_refl.
        destruct (Z.leb_spec 0 x); [|lia].
        destruct (Z.ltb_spec x (0 + Z.of_nat (length (firstn (Z.to_nat (width h))
                    (chunkwise (bits_per_pixel h) (bitwalker row)))))); [|lia].
        cbn [andb]. reflexivity.
      * cbn [nth] in *. replace (y0 + S j)%nat with (S y0 + j)%nat by lia.
        apply Hrowsj; [lia | exact Hx].
Qed.

Lemma read_palette_Ok (n : nat) (img_buf : BytesIO) :
  (4 * n <= length img_buf)%nat ->
  exists palette, read_palette n img_buf = Ok (palette, skipn (4 * n) img_buf).
Proof.
  revert img_buf; induction n as [|n IH]; intros img_buf Hle; cbn [read_palette].
  - exists []. reflexivity.
  - destruct (read_Ok (T:=PaletteData) img_buf) as (entry & ->).
    { change (get_total_bytes (T:=PaletteData)) with 4. lia. }
    cbn [bind]. change (Z.to_nat (get_total_bytes (T:=PaletteData))) with 4%nat.
    destruct (IH (skipn 4 img_buf)) as (palette & ->).
    { rewrite length_skipn. lia. }
    cbn [bind]. exists (entry :: palette). rewrite skipn_skipn.
    do 3 f_equal. lia.
Qed.

Lemma range_bounds (n y : Z) : In y (range n) -> 0 <= y < n.
Proof.
  unfold range. rewrite in_map_iff. intros (k & <- & Hk).
  apply in_seq in Hk. lia.
Qed.

(** ** Building records *)

Lemma length_le_of_uint (n : nat) (z : Z) : length (le_of_uint n z) = n.
Proof.
  revert z; induction n as [|n IH]; intros z; cbn [le_of_uint length]; auto.
Qed.





Lemma build_bytes_loop_length (fmts : list (Z * fmt)) (parts : list pyval)
      (bytes_list : list (list byte)) :
  length parts = length fmts ->
  build_bytes_loop fmts parts = Ok bytes_list ->
  Z.of_nat (length (concat bytes_list)) = sum_sizes fmts.
Proof.
  revert parts bytes_list; induction fmts as [|[size f] fmts IH];
    intros [|part parts] bl Hlen H; try discriminate Hlen;
    cbn [build_bytes_loop] in H.
  - inversion H; subst. reflexivity.
  - apply bind_Ok in H as (data & _ & H).
    destruct (Z.eqb_spec (Z.of_nat (length data)) size) as [Hd|]; [|discriminate].
    cbn [negb] in H. apply bind_Ok in H as (bl' & Hbl & H).
    inversion H; subst bl; clear H.
    cbn [concat sum_sizes fold_right fst]. fold (sum_sizes fmts).
    rewrite length_app, Nat2Z.inj_add, (IH parts bl'); [lia | | assumption].
    cbn [length] in Hlen. lia.
Qed.

Lemma build_bytes_image_header_length (h : ImageHeader) (header_data : list byte) :
  build_bytes h = Ok header_data -> length header_data = 16%nat.
Proof.
  unfold build_bytes. intros H. apply bind_Ok in H as (bl & Hbl & H).
  inversion H; subst header_data; clear H.
  apply build_bytes_loop_length in Hbl; [|reflexivity].
  change (sum_sizes format) with 16 in Hbl. lia.
Qed.


(** ** The header that encoding builds *)

Lemma length_slice_to_palette (l : list Z) (n : Z) :
  0 <= n ->
  Z.of_nat (length (slice_to l (n * 3))) / 3 = Z.min (Z.of_nat (length l) / 3) n.
Proof.
  intros Hn. rewrite length_slice_to by lia. lia_mod.
Qed.

(** C7, as amended.  Encoding builds its header from the original one:
    [sig], [row_length], [bits_per_pixel] and [transparency] are copied,
    [width] and [height] are the raster's, and [palette_colors] is the
    number of colours of the raster's palette table cut to the original
    [palette_colors]: the smaller of the two.  The encoded bytes start with
    this header. *)
Theorem encoded_header (im : Image) (original_image_info : ImageHeader)
        (out : list byte) :
  0 <= palette_colors original_image_info ->
  convert_png_image_to_palette_image im original_image_info = Ok out ->
  ImageHeaderParser.sig (new_header im original_image_info)
  = ImageHeaderParser.sig original_image_info /\
  row_length (new_header im original_image_info)
  = row_length original_image_info /\
  bits_per_pixel (new_header im original_image_info)
  = bits_per_pixel original_image_info /\
  transparency (new_header im original_image_info)
  = transparency original_image_info /\
  width (new_header im original_image_info) = fst (Image.size im) /\
  height (new_header im original_image_info) = snd (Image.size im) /\
  palette_colors (new_header im original_image_info)
  = Z.min (Z.of_nat (length (Image.getpalette im)) / 3)
          (palette_colors original_image_info) /\
  build_bytes (new_header im original_image_info) = Ok (firstn 16 out).
Proof.
  intros Hpc H. repeat split; try reflexivity.
  - cbn [new_header palette_colors]. now apply length_slice_to_palette.
  - unfold convert_png_image_to_palette_image in H.
    apply bind_Ok in H as (hd & Hhd & H). apply bind_Ok in H as (pd & _ & H).
    apply bind_Ok in H as (rows & _ & H). inversion H; subst out; clear H.
    rewrite Hhd. f_equal.
    pose proof (build_bytes_image_header_length _ _ Hhd) as Hlen.
    rewrite <- Hlen, firstn_app, Nat.sub_diag, firstn_all. cbn [firstn].
    now rewrite app_nil_r.
Qed.

Lemma encoded_header_witness :
  palette_colors (new_header three_colours header_two_colours)
  = Z.min (Z.of_nat (length (Image.getpalette three_colours)) / 3)
          (palette_colors header_two_colours).
Proof.
  refine (proj1 (proj2 (proj2 (proj2 (proj2 (proj2 (proj2
    (encoded_header three_colours header_two_colours
       [x00; x00; x00; x00; x01; x00; x01; x00; x01; x00; x08; x00; x02; x00;
        x00; x00; x01; x02; x03; x00; x04; x05; x06; x00; x00]
       _ eq_refl)))))))).
  change (0 <= 2). lia.
Defined.

(** C7 as stated fails when the raster has more colours than the original
    header declares: the raster's palette table holds three colours, the
    original header says two, and the encoded header says two (bytes 12
    and 13 of the output), not three. *)
Lemma encoded_header_counterexample :
  Z.of_nat (length (Image.getpalette three_colours)) / 3 = 3 /\
  palette_colors (new_header three_colours header_two_colours) = 2 /\
  convert_png_image_to_palette_image three_colours header_two_colours
  = Ok [x00; x00; x00; x00; x01; x00; x01; x00; x01; x00; x08; x00; x02; x00;
        x00; x00; x01; x02; x03; x00; x04; x05; x06; x00; x00].
Proof.
  repeat split.
Qed.

(** ** No check of the bit depth *)




Lemma Forall_firstn_keeps {A : Type} (P : A -> Prop) (n : nat) (l : list A) :
  Forall P l -> Forall P (firstn n l).
Proof.
  intros H. rewrite <- (firstn_skipn n l) in H. now apply Forall_app in H.
Qed.

Lemma Forall_skipn_keeps {A : Type} (P : A -> Prop) (n : nat) (l : list A) :
  Forall P l -> Forall P (skipn n l).
Proof.
  intros H. rewrite <- (firstn_skipn n l) in H. now apply Forall_app in H.
Qed.


Lemma mapM_Ok {A B : Type} (f : A -> result B) (l : list A) :
  (forall a, In a l -> exists b, f a = Ok b) -> exists bs, mapM f l = Ok bs.
Proof.
  induction l as [|a l IH]; intros H; cbn [mapM].
  - eauto.
  - destruct (H a (or_introl eq_refl)) as (b & ->). cbn [bind].
    destruct IH as (bs & ->); [intros; apply H; now right|]. cbn [bind]. eauto.
Qed.

(** ** PNG files *)

Lemma save_Ok (img : Image) :
  0 < fst (Image.size img) -> 0 < snd (Image.size img) ->
  Image.save img
  = Ok {| Image.size := Image.size img;
          Image.palette :=
            firstn (Z.to_nat (3 * Image.png_colors (Image.palette img)))
                   (Image.palette img
                    ++ repeat 0 (Z.to_nat
                                   (3 * Image.png_colors (Image.palette img))));
          Image.pixels := fun x y =>
            Image.png_index
              (Image.png_depth (Image.png_colors (Image.palette img)))
              (Image.pixels img x y) |}.
Proof.
  intros Hw Hh. unfold Image.save.
  destruct (Z.leb_spec (fst (Image.size img)) 0); [lia|].
  destruct (Z.leb_spec (snd (Image.size img)) 0); [lia|]. reflexivity.
Qed.

Lemma png_colors_triples (palette : list Z) (n : Z) :
  Z.of_nat (length palette) = 3 * n -> 0 <= n <= 256 ->
  Image.png_colors palette = Z.max n 1.
Proof.
  intros Hlen Hn. unfold Image.png_colors.
  rewrite Hlen, Z.mul_comm, Z.div_mul by lia. lia.
Qed.

Lemma png_depth_cases (colors : Z) :
  Image.png_depth colors = 1 \/ Image.png_depth colors = 2 \/
  Image.png_depth colors = 4 \/ Image.png_depth colors = 8.
Proof.
  unfold Image.png_depth.
  destruct (colors <=? 2); [now left|].
  destruct (colors <=? 4); [now right; left|].
  destruct (colors <=? 16); [now right; right; left | now right; right; right].
Qed.

Lemma png_depth_max (colors : Z) :
  Image.png_depth (Z.max colors 1) = Image.png_depth colors.
Proof.
  unfold Image.png_depth.
  repeat match goal with
         | |- context [?a <=? ?b] => destruct (Z.leb_spec a b)
         end; try reflexivity; lia.
Qed.

(** An index that fits the depth of the file comes back as it was. *)
Lemma png_index_fits (colors v : Z) :
  0 <= v < 2 ^ Image.png_depth colors ->
  Image.png_index (Image.png_depth colors) v = v.
Proof.
  unfold Image.png_index.
  destruct (png_depth_cases colors) as [-> | [-> | [-> | ->]]];
    cbn [Z.eqb Pos.eqb]; intros Hv.
  - change (2 ^ 1) with 2 in Hv. destruct (Z.eqb_spec v 0); lia.
  - now apply Z.mod_small.
  - now apply Z.mod_small.
  - now apply Z.mod_small.
Qed.

Lemma png_index_0 (bits : Z) : Image.png_index bits 0 = 0.
Proof.
  unfold Image.png_index. destruct (bits =? 1); [reflexivity|].
  apply Zmod_0_l.
Qed.


(** ** Unpacking then packing a row *)







Lemma clip8_u8 (v : Z) : 0 <= v < 256 -> Image.clip8 v = v.
Proof.
  intros Hv. unfold Image.clip8.
  destruct (Z.leb_spec v 0); [lia|]. destruct (Z.ltb_spec v 256); [reflexivity | lia].
Qed.



Lemma add_row_pixels (im : Image) (h : ImageHeader) (y : Z) (xs : list Z)
      (bitwriter : Bitwriter) :
  Forall (fun x => 0 <= x < width h) xs ->
  width h <= fst (Image.size im) -> 0 <= y < snd (Image.size im) ->
  add_row im h y xs bitwriter
  = add_all bitwriter (map (fun x => Image.pixels im x y) xs) (bits_per_pixel h).
Proof.
  intros Hxs Hw Hy. revert bitwriter.
  induction Hxs as [|x xs Hx Hxs IH]; intros bitwriter; cbn [add_row map add_all].
  - reflexivity.
  - destruct (Z.geb_spec x (width h)); [lia|].
    unfold Image.getpixel. rewrite inside_true by lia. cbn [bind fst snd].
    destruct (add bitwriter _ _); cbn [bind]; [apply IH | reflexivity].
Qed.


(** ** Decoding then encoding a resource *)

Lemma pack_uint_range (o : byteorder) (n : nat) (z : Z) (data : list byte) :
  pack_uint o n z = Ok data -> 0 <= z < 256 ^ Z.of_nat n.
Proof.
  unfold pack_uint. destruct (Z.leb_spec 0 z); [|discriminate].
  destruct (Z.ltb_spec z (256 ^ Z.of_nat n)); [|discriminate]. lia.
Qed.













(* ================================================================== *)
(** * Further properties of the code *)

(** ** [chunkwise] loses nothing *)

Lemma chunkwise_loop_concat {A : Type} (count : Z) (iterable chunk : list A) :
  concat (chunkwise_loop count chunk iterable) = chunk ++ iterable /\
  Forall (fun c => c <> []) (chunkwise_loop count chunk iterable).
Proof.
  revert chunk; induction iterable as [|i rest IH]; intros chunk;
    cbn [chunkwise_loop].
  - destruct chunk as [|a chunk]; cbn [concat]; rewrite ?app_nil_r.
    + split; [reflexivity | constructor].
    + split; [reflexivity | repeat constructor; discriminate].
  - destruct (Z.of_nat (List.length (chunk ++ [i])) =? count).
    + destruct (IH []) as [Hc Hne]. cbn [concat]. rewrite Hc, <- app_assoc.
      split; [reflexivity|]. constructor; [|exact Hne].
      destruct chunk; discriminate.
    + destruct (IH (chunk ++ [i])) as [Hc Hne]. rewrite Hc, <- app_assoc.
      split; [reflexivity | exact Hne].
Qed.

Lemma chunkwise_loop_nonpositive {A : Type} (count : Z) (iterable chunk : list A) :
  count <= 0 -> chunk ++ iterable <> [] ->
  chunkwise_loop count chunk iterable = [chunk ++ iterable].
Proof.
  intros Hc. revert chunk; induction iterable as [|i rest IH]; intros chunk Hne;
    cbn [chunkwise_loop].
  - rewrite app_nil_r in *. destruct chunk; [congruence | reflexivity].
  - destruct (Z.eqb_spec (Z.of_nat (List.length (chunk ++ [i]))) count) as [E|_].
    + rewrite length_app in E. cbn [List.length] in E. lia.
    + rewrite IH; [now rewrite <- app_assoc|]. rewrite <- app_assoc. cbn [app].
      destruct chunk; discriminate.
Qed.

(** X1.  [chunkwise] cuts its input without losing, adding or reordering
    elements: the chunks concatenated are the input; no chunk is empty;
    with [count >= 1] no chunk is longer than [count]; with [count <= 0]
    a non-empty input comes back as one single chunk. *)
Theorem chunkwise_partition {A : Type} (count : Z) (iterable : list A) :
  concat (chunkwise count iterable) = iterable /\
  Forall (fun c => c <> []) (chunkwise count iterable) /\
  (0 < count ->
   Forall (fun c => Z.of_nat (List.length c) <= count)
          (chunkwise count iterable)) /\
  (count <= 0 -> iterable <> [] -> chunkwise count iterable = [iterable]).
Proof.
  unfold chunkwise.
  destruct (chunkwise_loop_concat count iterable []) as [Hc Hne].
  split; [exact Hc|]. split; [exact Hne|]. split.
  - intros Hpos. apply chunkwise_chunk_length; [assumption|].
    cbn [List.length]. lia.
  - intros Hle Hn. now apply (chunkwise_loop_nonpositive count iterable []).
Qed.

Lemma chunkwise_partition_witness :
  Forall (fun c => Z.of_nat (List.length c) <= 2) (chunkwise 2 [1; 2; 3]) /\
  chunkwise 0 [1; 2; 3] = [[1; 2; 3]].
Proof.
  destruct (chunkwise_partition 2 [1; 2; 3]) as (_ & _ & Hlong & _).
  destruct (chunkwise_partition 0 [1; 2; 3]) as (_ & _ & _ & Hone).
  split; [apply Hlong; lia | apply Hone; [lia | discriminate]].
Defined.

(** ** Bytes and their bits *)

Lemma bits_of_byte (b : byte) : bits_to_int (bits_of 8 (Z_of_byte b)) = Z_of_byte b.
Proof.
  apply bits_to_int_bits_of. pose proof (Z_of_byte_range b).
  change (2 ^ Z.of_nat 8) with 256. lia.
Qed.

(** X2.  The bits of a byte string, taken eight at a time and read as
    integers, are its bytes: [bitwalker] gives eight bits per byte, each 0
    or 1, most significant first. *)
Theorem bitwalker_bytes (byte_data : list byte) :
  List.length (bitwalker byte_data) = (8 * List.length byte_data)%nat /\
  Forall is_bit (bitwalker byte_data) /\
  map bits_to_int (chunkwise 8 (bitwalker byte_data))
  = map Z_of_byte byte_data.
Proof.
  split; [apply length_bitwalker|]. split; [apply bitwalker_is_bit|].
  assert (H : bitwalker byte_data
              = concat (map (fun b => bits_of 8 (Z_of_byte b)) byte_data) ++ []).
  { rewrite app_nil_r. induction byte_data as [|b l IH]; [reflexivity|].
    rewrite bitwalker_cons, IH. reflexivity. }
  rewrite H. change 8 with (Z.of_nat 8).
  rewrite chunkwise_concat;
    [|lia | apply Forall_map, Forall_forall; intros; apply length_bits_of].
  cbn [chunkwise chunkwise_loop]. rewrite app_nil_r, map_map.
  apply map_ext. intros b. apply bits_of_byte.
Qed.

(** ** Building a record, then parsing it *)

Lemma Z_of_byte_of_Z_mod (z : Z) : Z_of_byte (byte_of_Z z) = z mod 256.
Proof.
  assert (E : byte_of_Z z = byte_of_Z (z mod 256))
    by (unfold byte_of_Z; now rewrite Z.mod_mod by lia).
  rewrite E. apply Z_of_byte_of_Z. apply Z.mod_pos_bound. lia.
Qed.

Lemma uint_of_le_of_uint (n : nat) (z : Z) :
  0 <= z < 256 ^ Z.of_nat n -> uint_of_le (le_of_uint n z) = z.
Proof.
  revert z; induction n as [|n IH]; intros z Hz; cbn [le_of_uint uint_of_le].
  - change (256 ^ Z.of_nat 0) with 1 in Hz. lia.
  - rewrite Nat2Z.inj_succ, Z.pow_succ_r in Hz by lia.
    rewrite Z_of_byte_of_Z_mod, IH.
    + pose proof (Z.div_mod z 256). lia.
    + split; [apply Z.div_pos; lia | apply Z.div_lt_upper_bound; lia].
Qed.

Lemma unpack_of_pack_uint (o : byteorder) (n : nat) (z : Z) (data : list byte) :
  pack_uint o n z = Ok data ->
  List.length data = n /\ uint_of_bytes o data = z.
Proof.
  intros H. pose proof (pack_uint_range _ _ _ _ H) as Hz.
  unfold pack_uint in H.
  destruct ((0 <=? z) && (z <? 256 ^ Z.of_nat n)); [|discriminate].
  inversion H; subst data; clear H.
  destruct o; cbn [bytes_of_uint uint_of_bytes].
  - split; [apply length_le_of_uint | now apply uint_of_le_of_uint].
  - rewrite length_rev, rev_involutive.
    split; [apply length_le_of_uint | now apply uint_of_le_of_uint].
Qed.

Lemma unpack_of_pack_bytes (args : list Z) (bs : list (list byte)) :
  mapM (pack_uint LittleEndian 1) args = Ok bs ->
  List.length (concat bs) = List.length args /\
  map Z_of_byte (concat bs) = args.
Proof.
  revert bs; induction args as [|z args IH]; intros bs H; cbn [mapM] in H.
  - inversion H; subst. split; reflexivity.
  - apply bind_Ok in H as (d & Hd & H). apply bind_Ok in H as (bs' & Hbs & H).
    inversion H; subst bs; clear H.
    destruct (IH bs' Hbs) as [Hlen Hmap].
    apply unpack_of_pack_uint in Hd as [Hdl Hdz].
    destruct d as [|b [|b' d]]; try discriminate Hdl.
    cbn [uint_of_bytes uint_of_le] in Hdz.
    cbn [concat app List.length map]. rewrite Hlen, Hmap.
    split; [reflexivity|]. f_equal. lia.
Qed.

(** Unpacking what was packed gives the arguments back. *)
Lemma struct_unpack_pack (f : fmt) (args : list Z) (data : list byte) :
  struct_pack f args = Ok data -> struct_unpack f data = Ok args.
Proof.
  unfold struct_unpack.
  destruct f as [n| | |]; cbn [struct_pack calcsize]; intros H.
  - destruct (Nat.eqb_spec (List.length args) n) as [Hn|]; [|discriminate].
    cbn [negb] in H. apply bind_Ok in H as (bs & Hbs & H).
    inversion H; subst data; clear H.
    apply unpack_of_pack_bytes in Hbs as [Hlen Hmap].
    rewrite Hlen, Hn, Nat.eqb_refl. cbn [negb]. now rewrite Hmap.
  - destruct args as [|z [|z' args]]; try discriminate.
    apply unpack_of_pack_uint in H as [-> ->]. reflexivity.
  - destruct args as [|z [|z' args]]; try discriminate.
    apply unpack_of_pack_uint in H as [-> ->]. reflexivity.
  - destruct args as [|z [|z' args]]; try discriminate.
    apply unpack_of_pack_uint in H as [-> ->]. reflexivity.
Qed.

Lemma field_of_shape (sf : Z * fmt) (v : pyval) (data : list byte)
      (unpacked : list Z) :
  field_shape sf v ->
  unpacked = match v with VTuple t => t | VInt z => [z] end ->
  struct_pack (snd sf) unpacked = Ok data ->
  match unpacked with
  | [z] => VInt z
  | _ => VTuple unpacked
  end = v.
Proof.
  unfold field_shape. intros Hshape ->. destruct v as [z|t]; [reflexivity|].
  destruct (snd sf) as [n| | |]; try contradiction.
  destruct n as [|[|n]]; try contradiction;
    intros _; destruct t as [|a [|b t]]; try discriminate Hshape; reflexivity.
Qed.

Lemma parse_of_build_loop (fmts : list (Z * fmt)) (parts : list pyval) :
  Forall2 field_shape fmts parts ->
  forall (bytes_list : list (list byte)) (data rest : list byte) (offset : Z),
    0 <= offset ->
    build_bytes_loop fmts parts = Ok bytes_list ->
    slice_from data offset = concat bytes_list ++ rest ->
    parse_data_loop fmts data offset = Ok parts.
Proof.
  intros Hshape.
  induction Hshape as [|[size f] v fmts parts Hv Hshape IH];
    intros bl data rest offset Hoff Hbuild Hdata;
    cbn [build_bytes_loop parse_data_loop] in *; [reflexivity|].
  apply bind_Ok in Hbuild as (d & Hd & Hbuild).
  destruct (Z.eqb_spec (Z.of_nat (List.length d)) size) as [Hsize|];
    [|discriminate].
  cbn [negb] in Hbuild. apply bind_Ok in Hbuild as (bl' & Hbl & Hbuild).
  inversion Hbuild; subst bl; clear Hbuild. cbn [concat] in Hdata.
  rewrite Hdata, <- app_assoc.
  replace (Z.to_nat size) with (List.length d) by lia.
  rewrite firstn_app, Nat.sub_diag, firstn_all. cbn [firstn]. rewrite app_nil_r.
  destruct (Z.eqb_spec (Z.of_nat (List.length d)) size); [|contradiction].
  cbn [negb]. rewrite (struct_unpack_pack _ _ _ Hd). cbn [bind].
  rewrite (field_of_shape (size, f) v d _ Hv eq_refl Hd).
  rewrite (IH bl' data rest (offset + size)); [reflexivity | lia | exact Hbl |].
  rewrite slice_from_add, Hdata, <- app_assoc by lia.
  replace (Z.to_nat size) with (List.length d) by lia.
  rewrite skipn_app, Nat.sub_diag, skipn_all. reflexivity.
Qed.

Ltac record_laws :=
  constructor;
  [ intros r; destruct r; reflexivity
  | intros r bl H; destruct r;
    cbn [format fields build_bytes_loop HeaderParser.parser TOCParser.parser
         ImageHeaderParser.parser PaletteParser.parser] in *;
    repeat
      (let d := fresh "d" in
       let Hd := fresh "Hd" in
       apply bind_Ok in H as (d & Hd & H);
       match type of H with
       | context [negb ?c] => destruct (negb c); [discriminate H|]
       end;
       apply bind_Ok in H as (? & H & _));
    repeat constructor; unfold field_shape; cbn [snd]; try exact I;
    match goal with
    | Hd : struct_pack (fmt_B ?n) ?t = Ok _ |- List.length ?t = ?n =>
        cbn [struct_pack] in Hd;
        destruct (Nat.eqb_spec (List.length t) n); [assumption | discriminate Hd]
    end ].

#[global] Instance HeaderParser_record_laws : RecordLaws HeaderContainer.
Proof. record_laws. Qed.

#[global] Instance TOCParser_record_laws : RecordLaws TOCEntry.
Proof. record_laws. Qed.

#[global] Instance ImageHeaderParser_record_laws : RecordLaws ImageHeader.
Proof. record_laws. Qed.

#[global] Instance PaletteParser_record_laws : RecordLaws PaletteData.
Proof. record_laws. Qed.

Lemma build_bytes_length {T : Type} {cls : Parser T} {rlaws : RecordLaws T}
      (r : T) (data : list byte) :
  build_bytes r = Ok data -> Z.of_nat (List.length data) = get_total_bytes.
Proof.
  unfold build_bytes. intros H. apply bind_Ok in H as (bl & Hbl & H).
  inversion H; subst data; clear H.
  apply (build_bytes_loop_length format (fields r) bl); [|exact Hbl].
  symmetry. eapply Forall2_length, built_fields_shape, Hbl.
Qed.

Lemma parse_data_of_build {T : Type} {cls : Parser T} {rlaws : RecordLaws T}
      (r : T) (data rest : list byte) :
  build_bytes r = Ok data -> parse_data (data ++ rest) = Ok r.
Proof.
  unfold build_bytes, parse_data. intros H.
  apply bind_Ok in H as (bl & Hbl & H). inversion H; subst data; clear H.
  rewrite (parse_of_build_loop format (fields r) (built_fields_shape r bl Hbl)
             bl (concat bl ++ rest) rest 0 ltac:(lia) Hbl eq_refl).
  cbn [bind]. apply container_class_fields.
Qed.

Lemma read_of_build {T : Type} {cls : Parser T} {laws : ParserLaws T}
      {rlaws : RecordLaws T} (r : T) (data rest : list byte) :
  build_bytes r = Ok data -> read (data ++ rest) = Ok (r, rest).
Proof.
  intros H. pose proof (build_bytes_length r data H) as Hlen.
  pose proof (parse_data_of_build r data [] H) as Hparse.
  rewrite app_nil_r in Hparse.
  unfold read, _read_buffer, read_bytes.
  destruct (Z.ltb_spec get_total_bytes 0); [lia|].
  replace (Z.to_nat get_total_bytes) with (List.length data) by lia.
  rewrite firstn_app, Nat.sub_diag, firstn_all. cbn [firstn].
  rewrite app_nil_r, skipn_app, Nat.sub_diag, skipn_all. cbn [skipn app].
  destruct (Z.eqb_spec (Z.of_nat (List.length data)) get_total_bytes);
    [|contradiction].
  cbn [negb bind]. rewrite Hparse. reflexivity.
Qed.

(** X3.  For each of the four record kinds (header, table entry, image
    header, palette entry): the bytes that [build_bytes] returns for a
    record are as many as the format table declares, [parse_data] reads
    the record back from them, and [read] on a stream that starts with
    them returns the record and leaves the rest of the stream. *)
Theorem parse_of_build {T : Type} {cls : Parser T} {laws : ParserLaws T}
        {rlaws : RecordLaws T} (r : T) (data rest : list byte) :
  build_bytes r = Ok data ->
  Z.of_nat (List.length data) = get_total_bytes /\
  parse_data data = Ok r /\
  read (data ++ rest) = Ok (r, rest).
Proof.
  intros H. split; [exact (build_bytes_length r data H)|]. split.
  - rewrite <- (app_nil_r data). now apply parse_data_of_build.
  - now apply read_of_build.
Qed.

Lemma parse_of_build_witness :
  Z.of_nat (List.length (firstn 16 sample_resource))
  = get_total_bytes (T:=ImageHeader) /\
  parse_data (firstn 16 sample_resource) = Ok (image_info sample_parsed) /\
  read (firstn 16 sample_resource ++ [xff])
  = Ok (image_info sample_parsed, [xff]).
Proof.
  apply (parse_of_build (image_info sample_parsed)
           (firstn 16 sample_resource) [xff]).
  reflexivity.
Defined.

(** ** What [parse_res_file] raises and returns *)

Lemma read_toc_enough (n : nat) (buffer : BytesIO) :
  (4 * n <= List.length buffer)%nat ->
  exists toc, read_toc n buffer = Ok (toc, skipn (4 * n) buffer).
Proof.
  revert buffer; induction n as [|n IH]; intros buffer Hle; cbn [read_toc].
  - exists []. reflexivity.
  - destruct (read_Ok (T:=TOCEntry) buffer) as (entry & ->).
    { change (get_total_bytes (T:=TOCEntry)) with 4. lia. }
    cbn [bind]. change (Z.to_nat (get_total_bytes (T:=TOCEntry))) with 4%nat.
    destruct (IH (skipn 4 buffer)) as (toc & ->).
    { rewrite length_skipn. lia. }
    cbn [bind]. exists (entry :: toc). rewrite skipn_skipn.
    do 3 f_equal. lia.
Qed.

(** X4.  [parse_res_file] either returns a container or raises the
    source's own [Exception] of a length check, with fewer bytes got than
    wanted: no other exception ([struct.error], [TypeError], ...) can come
    out of parsing, whatever the bytes. *)
Theorem parse_res_file_raises (buffer : BytesIO) :
  (exists resfile, parse_res_file buffer = Ok resfile) \/
  (exists got want,
     got < want /\ parse_res_file buffer = Raise (Exception got want)).
Proof.
  unfold parse_res_file.
  destruct (Z.lt_ge_cases (Z.of_nat (List.length buffer)) 20) as [Hshort|Hlong].
  - right. rewrite (read_short (T:=HeaderContainer)) by exact Hshort.
    cbn [bind]. exists (Z.of_nat (List.length buffer)), 20.
    split; [assumption | reflexivity].
  - destruct (read_Ok (T:=HeaderContainer) buffer) as (hdr & ->); [exact Hlong|].
    cbn [bind].
    set (rest := skipn (Z.to_nat (get_total_bytes (T:=HeaderContainer))) buffer).
    destruct (Nat.lt_ge_cases (List.length rest) (4 * Z.to_nat (res_count hdr)))
      as [Htoc|Htoc].
    + right. destruct (read_toc_short _ rest Htoc) as (got & want & Hgw & ->).
      cbn [bind]. eauto.
    + destruct (read_toc_enough _ rest Htoc) as (toc & ->). cbn [bind].
      destruct (parse_spans_cases (enumerate (tl toc)) 0
                  (skipn (4 * Z.to_nat (res_count hdr)) rest))
        as [(rs & tail & ->)|(got & want & Hgw & ->)]; cbn [bind];
        [|right; eauto].
      unfold read_rest.
      destruct (parse_resource_cases tail (Z.of_nat (List.length toc)))
        as [(r & ->)|(_ & got & want & Hgw & ->)]; cbn [bind];
        [left | right]; eauto.
Qed.

Lemma read_bytes_split (buffer : BytesIO) (n : Z) :
  fst (read_bytes buffer n) ++ snd (read_bytes buffer n) = buffer.
Proof.
  unfold read_bytes. destruct (n <? 0); cbn [fst snd].
  - apply app_nil_r.
  - apply firstn_skipn.
Qed.

(** The span loop reads the buffer from left to right, once: the spans it
    parsed the resources from, followed by what it left, are the buffer. *)
Lemma parse_spans_partition (entries : list (Z * TOCEntry)) (prev : Z)
      (buffer : BytesIO) (rs : list Resource) (tail : BytesIO) :
  parse_spans entries prev buffer = Ok (rs, tail) ->
  exists spans,
    buffer = concat spans ++ tail /\
    Forall2 (fun span r => parse_resource span (filename r) = Ok r) spans rs.
Proof.
  revert prev buffer rs; induction entries as [|[idx entry] entries IH];
    intros prev buffer rs H; cbn [parse_spans] in H.
  - inversion H; subst. exists []. split; [reflexivity | constructor].
  - pose proof (read_bytes_split buffer (abs_offset entry - prev)) as Hsplit.
    destruct (read_bytes buffer (abs_offset entry - prev)) as [data buffer'].
    cbn [fst snd] in Hsplit.
    apply bind_Ok in H as (r & Hr & H).
    apply bind_Ok in H as ([rs' tail'] & Hrest & H). cbn beta iota in H.
    inversion H; subst rs tail'; clear H.
    destruct (IH _ _ _ Hrest) as (spans & Hbuf & Hall).
    exists (data :: spans). cbn [concat]. split.
    + rewrite <- app_assoc, <- Hbuf. now symmetry.
    + constructor; [|exact Hall].
      pose proof (parse_resource_inv _ _ _ Hr) as (_ & _ & _ & _ & ->).
      exact Hr.
Qed.

(** X5.  A parsed container is the concatenation of its header, its table
    and the spans its resources were parsed from, in order: parsing skips
    no byte and reads none twice, whatever the offsets of the table.  The
    header and the table are rebuilt from the parsed records. *)
Theorem parse_res_file_partition (buffer : BytesIO) (resfile : ResFile) :
  parse_res_file buffer = Ok resfile ->
  exists header_data toc_data spans,
    build_bytes (header resfile) = Ok header_data /\
    write_toc header_data (toc resfile) = (header_data ++ toc_data, Ok tt) /\
    Forall2 (fun span r => parse_resource span (filename r) = Ok r)
            spans (resources resfile) /\
    buffer = header_data ++ toc_data ++ concat spans.
Proof.
  intros Hparse.
  apply parse_res_file_inv in Hparse
    as (rest & data & spans & tail & last & Hhd & Htoc & Hspans & Hlast & Hres).
  apply read_inv in Hhd as (_ & -> & _ & Hbuild).
  apply read_toc_inv in Htoc as (_ & _ & -> & Hwrite).
  apply parse_spans_partition in Hspans as (ss & Hdata & Hall).
  exists (firstn (Z.to_nat (get_total_bytes (T:=HeaderContainer))) buffer).
  eexists. exists (ss ++ [tail]).
  split; [exact Hbuild|]. split; [apply Hwrite|]. split.
  - rewrite Hres. apply Forall2_app; [exact Hall|].
    constructor; [|constructor].
    pose proof (parse_resource_inv _ _ _ Hlast) as (_ & _ & _ & _ & ->).
    exact Hlast.
  - rewrite concat_app. cbn [concat]. rewrite app_nil_r, <- Hdata.
    now rewrite !firstn_skipn.
Qed.

Lemma parse_spans_filenames (entries : list TOCEntry) :
  forall (k : nat) (prev : Z) (buffer : BytesIO) (rs : list Resource)
         (tail : BytesIO),
    parse_spans (combine (map Z.of_nat (seq k (List.length entries))) entries)
                prev buffer = Ok (rs, tail) ->
    map filename rs = map Z.of_nat (seq k (List.length entries)).
Proof.
  induction entries as [|entry entries IH]; intros k prev buffer rs tail H;
    cbn [List.length seq map combine parse_spans] in H |- *.
  - now inversion H.
  - destruct (read_bytes buffer (abs_offset entry - prev)) as [data buffer'].
    apply bind_Ok in H as (r & Hr & H).
    apply bind_Ok in H as ([rs' tail'] & Hrest & H). cbn beta iota in H.
    inversion H; subst rs tail'; clear H. cbn [map].
    pose proof (parse_resource_inv _ _ _ Hr) as (_ & _ & _ & _ & ->).
    f_equal. eapply IH, Hrest.
Qed.

Lemma NoDup_map_of_nat (l : list nat) : NoDup l -> NoDup (map Z.of_nat l).
Proof.
  intros H. induction H as [|a l Ha H IH]; cbn [map]; constructor; [|exact IH].
  rewrite in_map_iff. intros (b & Hb & Hin). apply Nat2Z.inj in Hb. now subst.
Qed.

(** The file numbers of the resources of a parsed container. *)
Lemma parsed_filenames (buffer : BytesIO) (resfile : ResFile) :
  parse_res_file buffer = Ok resfile ->
  List.length (toc resfile) = Z.to_nat (res_count (header resfile)) /\
  map filename (resources resfile)
  = map Z.of_nat (seq 0 (List.length (toc resfile) - 1)
                  ++ [List.length (toc resfile)]).
Proof.
  intros Hparse.
  apply parse_res_file_inv in Hparse
    as (rest & data & spans & tail & last & _ & Htoc & Hspans & Hlast & Hres).
  apply read_toc_inv in Htoc as (Hlen & _ & _ & _).
  split; [exact Hlen|].
  unfold enumerate, range in Hspans. rewrite Nat2Z.id in Hspans.
  apply parse_spans_filenames in Hspans.
  pose proof (parse_resource_inv _ _ _ Hlast) as (_ & _ & _ & _ & Hidx).
  rewrite Hres, !map_app, Hspans. cbn [map]. rewrite Hidx.
  do 3 f_equal. destruct (toc resfile); cbn [tl List.length]; lia.
Qed.

Lemma parsed_filenames_NoDup (buffer : BytesIO) (resfile : ResFile) :
  parse_res_file buffer = Ok resfile ->
  NoDup (map filename (resources resfile)).
Proof.
  intros Hparse. destruct (parsed_filenames _ _ Hparse) as [_ ->].
  apply NoDup_map_of_nat, NoDup_app.
  - apply seq_NoDup.
  - repeat constructor. intros [].
  - intros a Ha [<-|[]]. apply in_seq in Ha. lia.
Qed.

(** X6.  A parsed container has [max(1, res_count)] resources: a
    container that declares no resource still yields one, read from the
    bytes after the header.  Their files are numbered 0, 1, ...,
    [res_count - 2] and, for the last one, [res_count] (not
    [res_count - 1]); the numbers are pairwise distinct, so no resource
    overwrites the file of another. *)
Theorem resource_numbering (buffer : BytesIO) (resfile : ResFile) :
  parse_res_file buffer = Ok resfile ->
  List.length (resources resfile)
  = Nat.max 1 (Z.to_nat (res_count (header resfile))) /\
  map filename (resources resfile)
  = map Z.of_nat (seq 0 (Z.to_nat (res_count (header resfile)) - 1))
    ++ [Z.of_nat (Z.to_nat (res_count (header resfile)))] /\
  NoDup (map filename (resources resfile)).
Proof.
  intros Hparse. pose proof (parsed_filenames _ _ Hparse) as [Hlen Hnames].
  split; [|split].
  - rewrite <- (length_map filename), Hnames, length_map, length_app, length_seq.
    cbn [List.length]. lia.
  - rewrite Hnames, map_app, Hlen. reflexivity.
  - eapply parsed_filenames_NoDup, Hparse.
Qed.

Lemma resource_numbering_witness :
  List.length (resources sample_resfile)
  = Nat.max 1 (Z.to_nat (res_count (header sample_resfile))) /\
  map filename (resources sample_resfile)
  = map Z.of_nat (seq 0 (Z.to_nat (res_count (header sample_resfile)) - 1))
    ++ [Z.of_nat (Z.to_nat (res_count (header sample_resfile)))] /\
  NoDup (map filename (resources sample_resfile)).
Proof.
  apply (resource_numbering sample_container sample_resfile). reflexivity.
Defined.

Lemma parse_res_file_partition_witness :
  exists header_data toc_data spans,
    build_bytes (header sample_resfile) = Ok header_data /\
    write_toc header_data (toc sample_resfile)
    = (header_data ++ toc_data, Ok tt) /\
    Forall2 (fun span r => parse_resource span (filename r) = Ok r)
            spans (resources sample_resfile) /\
    sample_container = header_data ++ toc_data ++ concat spans.
Proof.
  apply (parse_res_file_partition sample_container sample_resfile).
  reflexivity.
Defined.

(** ** Repacking without the PNG files *)

(** X7.  When the PNG file of the first resource is missing,
    [repack_res_file] raises [FileNotFoundError] after it has written the
    header and the table: the new container is left with exactly the
    [20 + 4 * res_count] bytes of the input's header and table. *)
Theorem repack_missing_png (buffer : BytesIO) (resfile : ResFile)
        (fs : files) (first : Resource) :
  parse_res_file buffer = Ok resfile ->
  hd_error (resources resfile) = Some first ->
  fs (filename first) = None ->
  repack_res_file fs resfile
  = (firstn (20 + 4 * Z.to_nat (res_count (header resfile))) buffer,
     Raise FileNotFoundError).
Proof.
  intros Hparse Hfirst Hmissing.
  apply parse_res_file_inv in Hparse
    as (rest & data & spans & tail & last & Hhd & Htoc & _ & _ & Hres).
  apply read_inv in Hhd as (_ & -> & _ & Hbuild).
  change (Z.to_nat (get_total_bytes (T:=HeaderContainer))) with 20%nat in *.
  apply read_toc_inv in Htoc as (_ & _ & _ & Hwrite).
  unfold repack_res_file. rewrite Hbuild, Hwrite, <- firstn_add_skipn.
  destruct (resources resfile) as [|r rs]; [discriminate|].
  cbn [hd_error] in Hfirst. inversion Hfirst; subst r.
  cbn [write_resources]. now rewrite Hmissing.
Qed.

Lemma repack_missing_png_witness :
  repack_res_file no_files sample_resfile
  = (firstn (20 + 4 * Z.to_nat (res_count (header sample_resfile)))
            sample_container,
     Raise FileNotFoundError).
Proof.
  apply (repack_missing_png sample_container sample_resfile no_files
           sample_parsed); reflexivity.
Defined.

(** ** What decoding raises, reads and ignores *)

Lemma read_palette_short (n : nat) (img_buf : BytesIO) :
  (List.length img_buf < 4 * n)%nat ->
  exists got want,
    got < want /\ read_palette n img_buf = Raise (Exception got want).
Proof.
  revert img_buf; induction n as [|n IH]; intros img_buf Hlt; [lia|].
  cbn [read_palette].
  destruct (Z.lt_ge_cases (Z.of_nat (List.length img_buf)) 4) as [Hshort|Hlong].
  - rewrite (read_short (T:=PaletteData)) by exact Hshort. cbn [bind].
    exists (Z.of_nat (List.length img_buf)), 4.
    split; [assumption | reflexivity].
  - destruct (read_Ok (T:=PaletteData) img_buf) as (entry & ->); [exact Hlong|].
    cbn [bind]. change (Z.to_nat (get_total_bytes (T:=PaletteData))) with 4%nat.
    destruct (IH (skipn 4 img_buf)) as (got & want & Hgw & ->).
    { rewrite length_skipn. lia. }
    cbn [bind]. eauto.
Qed.

Lemma chunkwise_head {A : Type} (n : nat) (l : list A) :
  (0 < n <= List.length l)%nat ->
  chunkwise (Z.of_nat n) l
  = firstn n l :: chunkwise (Z.of_nat n) (skipn n l).
Proof.
  intros Hn. rewrite <- (firstn_skipn n l) at 1.
  pose proof (chunkwise_concat n [firstn n l] (skipn n l)) as H.
  cbn [concat app] in H. rewrite app_nil_r in H. apply H; [lia|].
  repeat constructor. rewrite length_firstn. lia.
Qed.

(** Chunk [k] of a list cut in chunks of [n] is its elements [k * n] to
    [(k + 1) * n - 1]. *)
Lemma nth_chunkwise {A : Type} (n : nat) :
  (0 < n)%nat ->
  forall (k : nat) (l : list A),
    ((k + 1) * n <= List.length l)%nat ->
    nth k (chunkwise (Z.of_nat n) l) [] = firstn n (skipn (k * n) l) /\
    (k < List.length (chunkwise (Z.of_nat n) l))%nat.
Proof.
  intros Hn. induction k as [|k IH]; intros l Hlen;
    rewrite chunkwise_head by lia; cbn [nth List.length].
  - cbn [Nat.mul skipn]. split; [reflexivity | lia].
  - destruct (IH (skipn n l)) as [Hnth Hlt]; [rewrite length_skipn; lia|].
    rewrite Hnth, skipn_skipn. split; [|lia].
    do 2 f_equal. lia.
Qed.

Lemma read_palette_entry_bytes (r g b pad : byte) (rest : list byte) :
  read (T:=PaletteData) (r :: g :: b :: pad :: rest)
  = Ok (mkPaletteData (Z_of_byte r) (Z_of_byte g) (Z_of_byte b)
                      (Z_of_byte pad), rest).
Proof. reflexivity. Qed.

(** Channel [c] of colour [i] of the palette is byte [4 * i + c] of the
    buffer; the fourth byte of each entry is dropped. *)
Lemma read_palette_nth (n : nat) :
  forall (img_buf : BytesIO) (palette : list PaletteData) (rest : BytesIO),
    read_palette n img_buf = Ok (palette, rest) ->
    List.length (flat_map (fun p => [PaletteParser.r p; PaletteParser.g p;
                                     PaletteParser.b p]) palette)
    = (3 * n)%nat /\
    forall i c, (i < n)%nat -> (c < 3)%nat ->
      nth (3 * i + c)
          (flat_map (fun p => [PaletteParser.r p; PaletteParser.g p;
                               PaletteParser.b p]) palette) 0
      = Z_of_byte (nth (4 * i + c) img_buf x00).
Proof.
  induction n as [|n IH]; intros img_buf palette rest H;
    cbn [read_palette] in H.
  - inversion H; subst. split; [reflexivity | intros; lia].
  - apply bind_Ok in H as ([p buf1] & Hp & H). cbn beta iota in H.
    apply bind_Ok in H as ([ps buf2] & Hps & H). cbn beta iota in H.
    inversion H; subst palette rest; clear H.
    pose proof (read_inv _ _ _ Hp) as (Hlen & _).
    change (get_total_bytes (T:=PaletteData)) with 4 in Hlen.
    destruct img_buf as [|r [|g [|b [|pad tl]]]];
      cbn [List.length] in Hlen; try lia.
    rewrite read_palette_entry_bytes in Hp. inversion Hp; subst p buf1.
    destruct (IH _ _ _ Hps) as [Hl Hnth].
    cbn [flat_map app List.length PaletteParser.r PaletteParser.g
         PaletteParser.b].
    split; [rewrite Hl; lia|].
    intros [|i] c Hi Hc.
    + destruct c as [|[|[|c]]]; try lia; reflexivity.
    + replace (3 * S i + c)%nat with (S (S (S (3 * i + c)))) by lia.
      replace (4 * S i + c)%nat with (S (S (S (S (4 * i + c))))) by lia.
      cbn [nth]. apply Hnth; lia.
Qed.

Lemma put_row_nil (img : Image) (width y x : Z) : put_row img width y x [] = Ok img.
Proof. reflexivity. Qed.

Lemma decode_rows_exhausted (h : ImageHeader) (ys : list Z) (img : Image) :
  decode_rows h ys [] img = Ok img.
Proof.
  induction ys as [|y ys IH]; cbn [decode_rows]; [reflexivity|].
  rewrite read_bytes_nil. cbn [bitwalker flat_map chunkwise chunkwise_loop].
  rewrite put_row_nil. cbn [bind]. exact IH.
Qed.

(** The rows of a buffer that holds whole rows, then the rows after it. *)
Lemma decode_rows_app (h : ImageHeader) (rows : list (list byte))
      (ys1 ys2 : list Z) (tail : list byte) (img : Image) :
  Forall (fun row => Z.of_nat (List.length row) = row_length h) rows ->
  List.length ys1 = List.length rows ->
  decode_rows h (ys1 ++ ys2) (concat rows ++ tail) img
  = (img1 <- decode_rows h ys1 (concat rows) img ;;
     decode_rows h ys2 tail img1).
Proof.
  intros Hrows. revert ys1 img.
  induction Hrows as [|row rows Hrow Hrows IH]; intros [|y ys1] img Hlen;
    try discriminate Hlen.
  - reflexivity.
  - cbn [app decode_rows concat]. rewrite <- app_assoc.
    rewrite !(read_bytes_app row _ _ Hrow).
    destruct (put_row img (width h) y 0 _) as [img1|e]; cbn [bind];
      [|reflexivity].
    apply IH. now injection Hlen.
Qed.

(** The decoder changes no pixel outside the rows it walks. *)
Lemma decode_rows_other_rows (h : ImageHeader) (ys : list Z) :
  forall (img_buf : BytesIO) (img img' : Image),
    fst (Image.size img) = width h ->
    Forall (fun y => 0 <= y < snd (Image.size img)) ys ->
    decode_rows h ys img_buf img = Ok img' ->
    forall x y, ~ In y ys -> Image.pixels img' x y = Image.pixels img x y.
Proof.
  induction ys as [|y0 ys IH]; intros img_buf img img' Hw Hys H x y Hy;
    cbn [decode_rows] in H.
  - now inversion H.
  - inversion Hys as [|? ? Hy0 Hys']; subst.
    destruct (read_bytes img_buf (row_length h)) as [row_data img_buf'].
    destruct (put_row_spec (width h) y0
                (chunkwise (bits_per_pixel h) (bitwalker row_data)) img 0)
      as (img1 & Hput & Hsize & _ & Hpix); [exact Hw | lia | exact Hy0 |].
    rewrite Hput in H. cbn [bind] in H.
    rewrite (IH img_buf' img1 img'); try assumption.
    + rewrite Hpix. destruct (Z.eqb_spec y y0) as [->|_]; [|reflexivity].
      exfalso. apply Hy. now left.
    + now rewrite Hsize.
    + now rewrite Hsize.
    + intros Hin. apply Hy. now right.
Qed.

Lemma range_split (n : nat) (m : Z) :
  Z.of_nat n <= m ->
  range m = map Z.of_nat (seq 0 n)
            ++ map Z.of_nat (seq n (Z.to_nat m - n)).
Proof.
  intros H. unfold range. rewrite <- map_app, <- seq_app.
  do 2 f_equal. lia.
Qed.

Lemma put_row_palette (width y : Z) (chunks : list (list Z)) :
  forall (img img' : Image) (x : Z),
    put_row img width y x chunks = Ok img' ->
    Image.palette img' = Image.palette img.
Proof.
  induction chunks as [|bits chunks IH]; intros img img' x H;
    cbn [put_row] in H.
  - now inversion H.
  - destruct (x >? width - 1); [now inversion H|].
    apply bind_Ok in H as (img1 & Hput & H).
    rewrite (IH _ _ _ H). unfold Image.putpixel in Hput.
    destruct (Image.inside img (x, y)); [|discriminate].
    now inversion Hput.
Qed.

Lemma decode_rows_palette (h : ImageHeader) (ys : list Z) :
  forall (img_buf : BytesIO) (img img' : Image),
    decode_rows h ys img_buf img = Ok img' ->
    Image.palette img' = Image.palette img.
Proof.
  induction ys as [|y ys IH]; intros img_buf img img' H;
    cbn [decode_rows] in H.
  - now inversion H.
  - destruct (read_bytes img_buf (row_length h)) as [row_data img_buf'].
    apply bind_Ok in H as (img1 & Hput & H).
    rewrite (IH _ _ _ H). eapply put_row_palette, Hput.
Qed.

(** The integer of a chunk of at most [n] bits is below [2 ^ n]. *)
Lemma chunk_value_range (n m : nat) (row_data : list byte) :
  0 <= bits_to_int (firstn n (skipn m (bitwalker row_data))) < 2 ^ Z.of_nat n.
Proof.
  pose proof (bits_to_int_range (firstn n (skipn m (bitwalker row_data)))) as H.
  destruct H as [H0 H1].
  { apply Forall_firstn_keeps, Forall_skipn_keeps, bitwalker_is_bit. }
  split; [exact H0|].
  apply Z.lt_le_trans with (1 := H1). apply Z.pow_le_mono_r; [lia|].
  rewrite length_firstn. lia.
Qed.

(** The rows of the raster before it is saved: where the buffer holds a
    row in full, pixel [x] is the integer of the [x]-th chunk of
    [bits_per_pixel] bits of the row, clamped to 255; when the buffer ends
    with the last row it holds, the rows after it are left as they were. *)
Lemma decoded_rows (h : ImageHeader) (rows : list (list byte))
      (tail : list byte) (img : Image) :
  Forall (fun row => Z.of_nat (List.length row) = row_length h) rows ->
  Image.size img = (width h, height h) ->
  Z.of_nat (List.length rows) <= height h ->
  0 < bits_per_pixel h ->
  exists img',
    decode_rows h (range (height h)) (concat rows ++ tail) img = Ok img' /\
    Image.size img' = (width h, height h) /\
    Image.palette img' = Image.palette img /\
    (forall x y : nat,
        Z.of_nat x < width h -> (y < List.length rows)%nat ->
        (Z.of_nat x + 1) * bits_per_pixel h <= 8 * row_length h ->
        Image.pixels img' (Z.of_nat x) (Z.of_nat y)
        = Image.clip8
            (bits_to_int
               (firstn (Z.to_nat (bits_per_pixel h))
                  (skipn (x * Z.to_nat (bits_per_pixel h))
                         (bitwalker (nth y rows [])))))) /\
    (tail = [] ->
     forall x y, Z.of_nat (List.length rows) <= y ->
                 Image.pixels img' x y = Image.pixels img x y).
Proof.
  intros Hrows Hsize Hk Hb.
  rewrite (range_split (List.length rows) (height h) Hk).
  rewrite decode_rows_app by (assumption || now rewrite length_map, length_seq).
  destruct (decode_rows_spec h rows 0 img [] Hrows)
    as (img1 & Hdec & Hsize1 & Hpal1 & _ & Hpix).
  { now rewrite Hsize. }
  { rewrite Hsize. cbn [snd Nat.add]. lia. }
  rewrite app_nil_r in Hdec. rewrite Hdec. cbn [bind].
  assert (Hys1 : Forall (fun y => 0 <= y < snd (Image.size img))
                        (map Z.of_nat (seq 0 (List.length rows)))).
  { apply Forall_forall. intros y Hy. apply in_map_iff in Hy as (j & <- & Hj).
    apply in_seq in Hj. rewrite Hsize. cbn [snd]. lia. }
  set (ys2 := map Z.of_nat (seq (List.length rows)
                                (Z.to_nat (height h) - List.length rows))).
  assert (Hw1 : fst (Image.size img1) = width h) by now rewrite Hsize1, Hsize.
  assert (Hys2 : Forall (fun y => 0 <= y < snd (Image.size img1)) ys2).
  { apply Forall_forall. intros y Hy. apply in_map_iff in Hy as (j & <- & Hj).
    apply in_seq in Hj. rewrite Hsize1, Hsize. cbn [snd]. lia. }
  destruct (decode_rows_Ok h ys2 tail img1 Hw1 Hys2) as (img2 & Hdec2 & Hsize2).
  exists img2. split; [exact Hdec2|].
  split; [now rewrite Hsize2, Hsize1|].
  split; [rewrite (decode_rows_palette _ _ _ _ _ Hdec2); exact Hpal1|].
  split.
  - intros x y Hx Hy Hfull.
    rewrite (decode_rows_other_rows h ys2 tail img1 img2 Hw1 Hys2 Hdec2).
    2:{ intros Hin. apply in_map_iff in Hin as (j & Hj & Hin).
        apply in_seq in Hin. lia. }
    assert (Hrow : Z.of_nat (List.length (nth y rows [])) = row_length h).
    { rewrite Forall_forall in Hrows. now apply Hrows, nth_In. }
    destruct (nth_chunkwise (A:=Z) (Z.to_nat (bits_per_pixel h)) ltac:(lia) x
                (bitwalker (nth y rows []))) as [Hnth Hlt].
    { rewrite length_bitwalker. nia. }
    rewrite Z2Nat.id in Hnth, Hlt by lia.
    assert (Hlen : (x < List.length (unpack (nth y rows []) (width h)
                                            (bits_per_pixel h)))%nat).
    { unfold unpack. rewrite length_map, length_firstn. lia. }
    specialize (Hpix y (Z.of_nat x) Hy ltac:(lia)).
    cbn [Nat.add] in Hpix. rewrite Hpix, Nat2Z.id. f_equal.
    unfold unpack. change 0 with (bits_to_int []) at 1.
    rewrite map_nth, nth_firstn.
    destruct (Nat.ltb_spec x (Z.to_nat (width h))); [|lia].
    now rewrite Hnth.
  - intros -> x y Hy. rewrite decode_rows_exhausted in Hdec2.
    inversion Hdec2; subst img2.
    apply (decode_rows_other_rows h (map Z.of_nat (seq 0 (List.length rows)))
             (concat rows) img img1); try assumption.
    + now rewrite Hsize.
    + intros Hin. apply in_map_iff in Hin as (j & Hj & Hin).
      apply in_seq in Hin. lia.
Qed.

(** The PNG file of a payload of palette entries followed by rows, for
    an image with pixels and at most 256 colours. *)
Lemma decode_payload (h : ImageHeader) (palette_data : list byte)
      (rows : list (list byte)) (tail : list byte) :
  Z.of_nat (List.length palette_data) = 4 * palette_colors h ->
  Forall (fun row => Z.of_nat (List.length row) = row_length h) rows ->
  Z.of_nat (List.length rows) <= height h ->
  0 < width h -> 0 < height h -> palette_colors h <= 256 ->
  0 < bits_per_pixel h ->
  exists png,
    convert_palette_image_to_png h (palette_data ++ concat rows ++ tail)
    = Ok png /\
    Image.size png = (width h, height h) /\
    (forall i c, (Z.of_nat i < palette_colors h) -> (c < 3)%nat ->
       nth (3 * i + c) (Image.palette png) 0
       = Z_of_byte (nth (4 * i + c) palette_data x00)) /\
    (forall x y : nat,
        Z.of_nat x < width h -> (y < List.length rows)%nat ->
        (Z.of_nat x + 1) * bits_per_pixel h <= 8 * row_length h ->
        Image.pixels png (Z.of_nat x) (Z.of_nat y)
        = Image.png_index
            (Image.png_depth (palette_colors h))
            (Image.clip8
               (bits_to_int
                  (firstn (Z.to_nat (bits_per_pixel h))
                     (skipn (x * Z.to_nat (bits_per_pixel h))
                            (bitwalker (nth y rows []))))))) /\
    (tail = [] ->
     forall x y, Z.of_nat (List.length rows) <= y -> Image.pixels png x y = 0).
Proof.
  intros Hpd Hrows Hk Hw Hh Hmax Hb.
  unfold convert_palette_image_to_png.
  destruct (read_palette_Ok (Z.to_nat (palette_colors h))
              (palette_data ++ concat rows ++ tail)) as (palette & Hpal).
  { rewrite length_app. lia. }
  destruct (read_palette_nth _ _ _ _ Hpal) as [Hraw Hchan].
  rewrite Hpal. cbn [bind].
  replace (skipn (4 * Z.to_nat (palette_colors h))
                 (palette_data ++ concat rows ++ tail))
    with (concat rows ++ tail).
  2:{ rewrite skipn_app.
      replace (4 * Z.to_nat (palette_colors h) - List.length palette_data)%nat
        with 0%nat by lia.
      rewrite skipn_all2 by lia. reflexivity. }
  set (raw_palette := flat_map (fun p => [PaletteParser.r p; PaletteParser.g p;
                                          PaletteParser.b p]) palette) in *.
  destruct (decoded_rows h rows tail
              (Image.putpalette (Image.new (width h, height h)) raw_palette)
              Hrows eq_refl Hk Hb)
    as (img & Hdec & Hsize & Hpalette & Hpix & Hrest).
  cbn [Image.putpalette Image.new Image.palette Image.pixels] in Hpalette, Hrest.
  rewrite Hdec. cbn [bind].
  pose proof (save_Ok img) as Hsave.
  rewrite Hsize, Hpalette in Hsave. cbn [fst snd] in Hsave.
  specialize (Hsave Hw Hh). rewrite Hsave.
  assert (Hcolors : Image.png_colors raw_palette
                    = Z.max (palette_colors h) 1)
    by (apply png_colors_triples; lia).
  eexists. split; [reflexivity|]. split; [reflexivity|].
  cbn [Image.palette Image.pixels]. rewrite Hcolors, png_depth_max.
  split; [|split].
  - intros i c Hi Hc. rewrite nth_firstn.
    destruct (Nat.ltb_spec (3 * i + c)
                (Z.to_nat (3 * Z.max (palette_colors h) 1))); [|lia].
    rewrite app_nth1 by lia. rewrite Hchan by lia.
    rewrite app_nth1 by lia. reflexivity.
  - intros x y Hx Hy Hfull. now rewrite Hpix.
  - intros Htail x y Hy. rewrite (Hrest Htail x y Hy).
    apply png_index_0.
Qed.

(** Decoding returns as soon as the palette entries are there. *)
Lemma decode_Ok (h : ImageHeader) (image_data : list byte) :
  0 < width h -> 0 < height h -> 0 <= palette_colors h ->
  4 * palette_colors h <= Z.of_nat (List.length image_data) ->
  exists png,
    convert_palette_image_to_png h image_data = Ok png /\
    Image.size png = (width h, height h).
Proof.
  intros Hw Hh Hpc Hlen. unfold convert_palette_image_to_png.
  destruct (read_palette_Ok (Z.to_nat (palette_colors h)) image_data)
    as (palette & ->); [lia|].
  cbn [bind].
  destruct (decode_rows_Ok h (range (height h))
              (skipn (4 * Z.to_nat (palette_colors h)) image_data)
              (Image.putpalette (Image.new (width h, height h))
                 (flat_map (fun p => [PaletteParser.r p; PaletteParser.g p;
                                      PaletteParser.b p]) palette)))
    as (img & Hdec & Hsize).
  - reflexivity.
  - apply Forall_forall. intros y Hy. now apply range_bounds.
  - rewrite Hdec. cbn [bind].
    cbn [Image.putpalette Image.new Image.size] in Hsize.
    rewrite save_Ok by (rewrite Hsize; cbn [fst snd]; assumption).
    eexists. split; [reflexivity | exact Hsize].
Qed.

(** X8.  For a header of an image with pixels, at most 256 palette
    colours and 1 to 31 bits per pixel, the only way decoding fails is a
    payload too short for the palette: with all [palette_colors] 4-byte
    entries present it returns a raster of the header's size, whatever
    the pixel data (missing or short rows raise nothing); with fewer it
    raises the source's [Exception], fewer bytes got than wanted. *)
Theorem decode_raises (h : ImageHeader) (image_data : list byte) :
  decodable h ->
  (4 * palette_colors h <= Z.of_nat (List.length image_data) /\
   exists png,
     convert_palette_image_to_png h image_data = Ok png /\
     Image.size png = (width h, height h)) \/
  (Z.of_nat (List.length image_data) < 4 * palette_colors h /\
   exists got want,
     got < want /\
     convert_palette_image_to_png h image_data = Raise (Exception got want)).
Proof.
  intros (Hw & Hh & [Hpc _] & _).
  destruct (Z.le_gt_cases (4 * palette_colors h)
                          (Z.of_nat (List.length image_data))) as [Hle|Hgt].
  - left. split; [exact Hle | now apply decode_Ok].
  - right. split; [lia|]. unfold convert_palette_image_to_png.
    destruct (read_palette_short (Z.to_nat (palette_colors h)) image_data)
      as (got & want & Hgw & ->); [lia|].
    cbn [bind]. eauto.
Qed.

Lemma decode_raises_witness :
  (4 * palette_colors (image_info sample_parsed)
   <= Z.of_nat (List.length [x0a; x0b; x0c]) /\
   exists png,
     convert_palette_image_to_png (image_info sample_parsed) [x0a; x0b; x0c]
     = Ok png /\
     Image.size png
     = (width (image_info sample_parsed), height (image_info sample_parsed))) \/
  (Z.of_nat (List.length [x0a; x0b; x0c])
   < 4 * palette_colors (image_info sample_parsed) /\
   exists got want,
     got < want /\
     convert_palette_image_to_png (image_info sample_parsed) [x0a; x0b; x0c]
     = Raise (Exception got want)).
Proof.
  apply (decode_raises (image_info sample_parsed) [x0a; x0b; x0c]).
  unfold decodable.
  change (0 < 2 /\ 0 < 1 /\ 0 <= 2 <= 256 /\ 0 < 2 <= 31). lia.
Defined.

(** X9.  Rows that the payload does not hold decode as index 0: for a
    header of an image with pixels, at most 256 palette colours and 1 to
    31 bits per pixel, and a payload of [palette_colors] palette entries
    followed by only the first [k] rows of [row_length] bytes, decoding
    raises nothing and every pixel of a row [y >= k] is 0. *)
Theorem decode_missing_rows (h : ImageHeader) (palette_data : list byte)
        (rows : list (list byte)) :
  decodable h ->
  Z.of_nat (List.length palette_data) = 4 * palette_colors h ->
  Forall (fun row => Z.of_nat (List.length row) = row_length h) rows ->
  Z.of_nat (List.length rows) <= height h ->
  exists png,
    convert_palette_image_to_png h (palette_data ++ concat rows) = Ok png /\
    Image.size png = (width h, height h) /\
    forall x y, Z.of_nat (List.length rows) <= y -> Image.pixels png x y = 0.
Proof.
  intros (Hw & Hh & [_ Hmax] & [Hb _]) Hpal Hrows Hk.
  destruct (decode_payload h palette_data rows [] Hpal Hrows Hk Hw Hh Hmax Hb)
    as (png & Hdec & Hsize & _ & _ & Hrest).
  rewrite app_nil_r in Hdec.
  exists png. split; [exact Hdec|]. split; [exact Hsize|]. now apply Hrest.
Qed.

Lemma decode_missing_rows_witness :
  exists png,
    convert_palette_image_to_png header_two_rows
      ([x0a; x0b; x0c; x00; x0d; x0e; x0f; x00] ++ concat [[x40]]) = Ok png /\
    Image.size png = (width header_two_rows, height header_two_rows) /\
    forall x y, Z.of_nat (List.length [[x40]]) <= y ->
                Image.pixels png x y = 0.
Proof.
  apply (decode_missing_rows header_two_rows
           [x0a; x0b; x0c; x00; x0d; x0e; x0f; x00] [[x40]]).
  - unfold decodable.
    change (0 < 2 /\ 0 < 2 /\ 0 <= 2 <= 256 /\ 0 < 2 <= 31). lia.
  - reflexivity.
  - repeat constructor.
  - change (1 <= 2). lia.
Defined.

(** ** Decoding and encoding at other bit depths *)




Lemma read_app {T : Type} {cls : Parser T} {laws : ParserLaws T}
      (buffer extra : BytesIO) (r : T) (rest : BytesIO) :
  read buffer = Ok (r, rest) -> read (buffer ++ extra) = Ok (r, rest ++ extra).
Proof.
  intros H. apply read_inv in H as (Hle & -> & Hparse & _).
  pose proof get_total_bytes_nonneg as Hnn.
  unfold read, _read_buffer, read_bytes.
  destruct (Z.ltb_spec get_total_bytes 0); [lia|].
  rewrite firstn_app, skipn_app.
  replace (Z.to_nat get_total_bytes - List.length buffer)%nat with 0%nat by lia.
  cbn [firstn skipn]. rewrite app_nil_r.
  destruct (Z.eqb_spec
              (Z.of_nat (List.length (firstn (Z.to_nat get_total_bytes) buffer)))
              get_total_bytes) as [_|Hne];
    [|rewrite length_firstn in Hne; lia].
  cbn [negb bind]. rewrite Hparse. reflexivity.
Qed.

Lemma read_palette_app (n : nat) (img_buf extra : BytesIO)
      (palette : list PaletteData) (rest : BytesIO) :
  read_palette n img_buf = Ok (palette, rest) ->
  read_palette n (img_buf ++ extra) = Ok (palette, rest ++ extra).
Proof.
  revert img_buf palette rest; induction n as [|n IH];
    intros img_buf palette rest H; cbn [read_palette] in *.
  - now inversion H.
  - apply bind_Ok in H as ([p buf1] & Hp & H). cbn beta iota in H.
    apply bind_Ok in H as ([ps buf2] & Hps & H). cbn beta iota in H.
    inversion H; subst palette rest; clear H.
    rewrite (read_app _ extra _ _ Hp). cbn [bind].
    rewrite (IH _ _ _ Hps). reflexivity.
Qed.

Lemma read_bytes_enough (buffer extra : BytesIO) (n : Z) :
  0 <= n <= Z.of_nat (List.length buffer) ->
  read_bytes (buffer ++ extra) n
  = (fst (read_bytes buffer n), snd (read_bytes buffer n) ++ extra).
Proof.
  intros Hn. unfold read_bytes. destruct (Z.ltb_spec n 0); [lia|].
  cbn [fst snd]. rewrite firstn_app, skipn_app.
  replace (Z.to_nat n - List.length buffer)%nat with 0%nat by lia.
  cbn [firstn skipn]. now rewrite app_nil_r.
Qed.

(** The decoder reads [row_length] bytes per row and nothing after them. *)
Lemma decode_rows_extra (h : ImageHeader) (ys : list Z) :
  forall (img_buf extra : BytesIO) (img : Image),
    0 <= row_length h ->
    Z.of_nat (List.length ys) * row_length h <= Z.of_nat (List.length img_buf) ->
    decode_rows h ys (img_buf ++ extra) img = decode_rows h ys img_buf img.
Proof.
  induction ys as [|y ys IH]; intros img_buf extra img Hrl Hlen;
    cbn [decode_rows]; [reflexivity|].
  cbn [List.length] in Hlen.
  rewrite read_bytes_enough by nia.
  unfold read_bytes. destruct (Z.ltb_spec (row_length h) 0); [lia|].
  cbn [fst snd].
  destruct (put_row img (width h) y 0 _) as [img1|e]; cbn [bind];
    [|reflexivity].
  apply IH; [assumption|]. rewrite length_skipn. nia.
Qed.

(** X10.  Decoding reads the palette entries and [height] rows of
    [row_length] bytes, and ignores every byte after them: a payload that
    holds them all decodes to the same raster whatever follows. *)
Theorem decode_ignores_trailing (h : ImageHeader)
        (image_data extra : list byte) :
  0 <= palette_colors h -> 0 <= row_length h -> 0 <= height h ->
  4 * palette_colors h + height h * row_length h
  <= Z.of_nat (List.length image_data) ->
  convert_palette_image_to_png h (image_data ++ extra)
  = convert_palette_image_to_png h image_data.
Proof.
  intros Hpc Hrl Hh Hlen. unfold convert_palette_image_to_png.
  destruct (read_palette_Ok (Z.to_nat (palette_colors h)) image_data)
    as (palette & Hpal); [nia|].
  rewrite Hpal, (read_palette_app _ _ extra _ _ Hpal). cbn [bind].
  rewrite decode_rows_extra; [reflexivity | assumption |].
  rewrite length_range, length_skipn. nia.
Qed.

Lemma decode_ignores_trailing_witness :
  convert_palette_image_to_png (image_info sample_parsed)
                               (image_data sample_parsed ++ [xff; xff])
  = convert_palette_image_to_png (image_info sample_parsed)
                                 (image_data sample_parsed).
Proof.
  apply (decode_ignores_trailing (image_info sample_parsed)
           (image_data sample_parsed) [xff; xff]).
  - change (0 <= 2). lia.
  - change (0 <= 1). lia.
  - change (0 <= 1). lia.
  - change (4 * 2 + 1 * 1 <= 9). lia.
Defined.

(** ** What encoding takes from the raster *)

Lemma add_Ok (w : Bitwriter) (number bits : Z) :
  0 <= bits -> exists w', add w number bits = Ok w'.
Proof.
  intros Hb. unfold add, lshift. destruct (Z.ltb_spec bits 0); [lia|].
  cbn [bind]. destruct (8 <=? pos w + bits); eauto.
Qed.

Lemma add_row_index_error (im : Image) (h : ImageHeader) (y : Z) (xs : list Z) :
  0 <= bits_per_pixel h ->
  Forall (fun x => 0 <= x < width h) xs ->
  (exists x, In x xs /\ Image.inside im (x, y) = false) ->
  forall bitwriter, add_row im h y xs bitwriter = Raise IndexError.
Proof.
  intros Hb Hxs. induction Hxs as [|x xs Hx Hxs IH]; intros (x0 & Hin & Hout) bw.
  - destruct Hin.
  - cbn [add_row]. destruct (Z.geb_spec x (width h)); [lia|].
    unfold Image.getpixel.
    destruct (Image.inside im (x, y)) eqn:Ein; [|reflexivity].
    cbn [bind]. destruct (add_Ok bw (Image.pixels im (fst (x, y)) (snd (x, y)))
                            _ Hb) as (bw' & ->).
    cbn [bind]. apply IH. exists x0. split; [|exact Hout].
    destruct Hin as [->|Hin]; [congruence | exact Hin].
Qed.

(** X11.  The rows are packed with the width of the original header, not
    the raster's: when the header and the palette are built and the raster
    is narrower than the original width (with a height of at least one
    row to encode), encoding raises [IndexError]. *)
Theorem encode_narrow_raster (im : Image) (h : ImageHeader)
        (header_data : list byte) (palette_data : list (list byte)) :
  0 <= bits_per_pixel h -> 0 < height h ->
  0 <= fst (Image.size im) < width h ->
  build_bytes (new_header im h) = Ok header_data ->
  mapM build_palette_entry
       (chunkwise 3 (slice_to (Image.getpalette im) (palette_colors h * 3)))
  = Ok palette_data ->
  convert_png_image_to_palette_image im h = Raise IndexError.
Proof.
  intros Hb Hh Hw Hhd Hpal. unfold convert_png_image_to_palette_image.
  rewrite Hhd, Hpal. cbn [bind]. unfold encode_rows, range.
  replace (Z.to_nat (height h)) with (S (Z.to_nat (height h) - 1)) by lia.
  cbn [seq map mapM]. unfold encode_row at 1.
  rewrite add_row_index_error; [reflexivity | assumption | |].
  - apply Forall_forall. intros x Hx. now apply range_bounds.
  - exists (fst (Image.size im)). split.
    + unfold range. apply in_map_iff. exists (Z.to_nat (fst (Image.size im))).
      split; [lia|]. apply in_seq. lia.
    + unfold Image.inside. cbn [fst snd]. rewrite Z.ltb_irrefl.
      now rewrite andb_false_r.
Qed.

Lemma encode_narrow_raster_witness :
  convert_png_image_to_palette_image three_colours header_4x1
  = Raise IndexError.
Proof.
  apply (encode_narrow_raster three_colours header_4x1
           [x00; x00; x00; x00; x01; x00; x01; x00; x01; x00; x02; x00; x00;
            x00; x00; x00] []).
  - change (0 <= 2). lia.
  - change (0 < 1). lia.
  - change (0 <= 1 < 4). lia.
  - reflexivity.
  - reflexivity.
Defined.

Lemma mapM_ext_in {A B : Type} (f g : A -> result B) (l : list A) :
  (forall a, In a l -> f a = g a) -> mapM f l = mapM g l.
Proof.
  induction l as [|a l IH]; intros H; cbn [mapM]; [reflexivity|].
  rewrite (H a (or_introl eq_refl)), IH; [reflexivity|].
  intros; apply H; now right.
Qed.

(** X12.  The rows are packed from the top-left rectangle of the raster
    that the original header spans and from nothing else: two rasters that
    contain this [width] by [height] rectangle and agree on it are encoded
    to the same rows (or raise the same exception), whatever their sizes
    and their other pixels. *)
Theorem encode_rows_crop (im1 im2 : Image) (h : ImageHeader) :
  width h <= fst (Image.size im1) -> height h <= snd (Image.size im1) ->
  width h <= fst (Image.size im2) -> height h <= snd (Image.size im2) ->
  (forall x y, 0 <= x < width h -> 0 <= y < height h ->
               Image.pixels im1 x y = Image.pixels im2 x y) ->
  encode_rows im1 h = encode_rows im2 h.
Proof.
  intros Hw1 Hh1 Hw2 Hh2 Hpix. unfold encode_rows.
  apply mapM_ext_in. intros y Hy. apply range_bounds in Hy.
  unfold encode_row.
  assert (Hxs : Forall (fun x => 0 <= x < width h) (range (width h)))
    by (apply Forall_forall; intros x Hx; now apply range_bounds).
  rewrite !add_row_pixels by (assumption || lia).
  replace (map (fun x => Image.pixels im1 x y) (range (width h)))
    with (map (fun x => Image.pixels im2 x y) (range (width h)));
    [reflexivity|].
  apply map_ext_in. intros x Hx. apply range_bounds in Hx.
  symmetry. now apply Hpix.
Qed.

Lemma encode_rows_crop_witness :
  encode_rows blank_4x1 header_1x1_slack
  = encode_rows blank_1x1 header_1x1_slack.
Proof.
  apply (encode_rows_crop blank_4x1 blank_1x1 header_1x1_slack).
  - change (1 <= 4). lia.
  - change (1 <= 1). lia.
  - change (1 <= 1). lia.
  - change (1 <= 1). lia.
  - reflexivity.
Defined.

(** ** The commands [unpack] and [justdoit] *)


(** The loop over the resources writes the decoded raster of each one
    under its number and touches no other file, when the numbers are
    pairwise distinct and every resource decodes. *)
Lemma unpack_resources_spec (resources : list Resource) :
  forall fs : files,
    NoDup (map filename resources) ->
    Forall (fun r => exists png,
                convert_palette_image_to_png (image_info r) (image_data r)
                = Ok png) resources ->
    exists fs',
      unpack_resources fs resources = (fs', Ok tt) /\
      (forall r, In r resources ->
         exists png,
           convert_palette_image_to_png (image_info r) (image_data r) = Ok png /\
           fs' (filename r) = Some png) /\
      (forall name, ~ In name (map filename resources) -> fs' name = fs name).
Proof.
  induction resources as [|a resources IH]; intros fs Hnd Hall.
  - exists fs. split; [reflexivity|]. split; [intros r []|reflexivity].
  - inversion Hnd as [|? ? Hnotin Hnd']; subst.
    inversion Hall as [|? ? (png & Hpng) Hall']; subst.
    cbn [unpack_resources]. unfold write_resource. rewrite Hpng. cbn [bind].
    destruct (IH (fun name => if name =? filename a then Some png else fs name)
                 Hnd' Hall') as (fs' & Hrun & Hfiles & Hother).
    exists fs'. split; [exact Hrun|]. split.
    + intros r [<-|Hin].
      * exists png. split; [exact Hpng|].
        rewrite Hother by exact Hnotin. now rewrite Z.eqb_refl.
      * apply Hfiles, Hin.
    + intros name Hname. cbn [map] in Hname.
      rewrite Hother by (intros Hc; apply Hname; now right).
      destruct (Z.eqb_spec name (filename a)) as [->|_]; [|reflexivity].
      exfalso. apply Hname. now left.
Qed.

(** X13.  The command [unpack], on a container that parses and whose
    resources each are images with pixels, at most 256 palette colours
    and 1 to 31 bits per pixel, and hold their [palette_colors] palette
    entries, ends without raising and writes no container: it leaves,
    under the number of each resource, the PNG file decoded from it, of
    the size its header declares, and leaves every other file as it
    was. *)
Theorem unpack_writes_every_resource (buffer : BytesIO) (resfile : ResFile)
        (fs : files) :
  parse_res_file buffer = Ok resfile ->
  Forall (fun r => decodable (image_info r) /\
                   4 * palette_colors (image_info r)
                   <= Z.of_nat (List.length (image_data r)))
         (resources resfile) ->
  exists fs',
    script "unpack" buffer fs = (fs', None, Ok tt) /\
    (forall r, In r (resources resfile) ->
       exists png,
         convert_palette_image_to_png (image_info r) (image_data r) = Ok png /\
         Image.size png = (width (image_info r), height (image_info r)) /\
         fs' (filename r) = Some png) /\
    (forall name, ~ In name (map filename (resources resfile)) ->
                  fs' name = fs name).
Proof.
  intros Hparse Hpal.
  assert (Hdec : Forall (fun r => exists png,
                    convert_palette_image_to_png (image_info r) (image_data r)
                    = Ok png /\
                    Image.size png
                    = (width (image_info r), height (image_info r)))
                   (resources resfile)).
  { eapply Forall_impl; [|exact Hpal].
    intros r [(Hw & Hh & [Hpc _] & _) Hlen]. now apply decode_Ok. }
  destruct (unpack_resources_spec (resources resfile) fs
              (parsed_filenames_NoDup _ _ Hparse))
    as (fs' & Hrun & Hfiles & Hother).
  { eapply Forall_impl; [|exact Hdec]. intros r (png & H & _). eauto. }
  exists fs'. split; [|split; [|exact Hother]].
  - unfold script. rewrite Hparse.
    change (String.eqb "unpack" "unpack") with true. cbv iota.
    now rewrite Hrun.
  - intros r Hr. destruct (Hfiles r Hr) as (png & Hpng & Hfile).
    rewrite Forall_forall in Hdec.
    destruct (Hdec r Hr) as (png' & Hpng' & Hsize).
    rewrite Hpng in Hpng'. inversion Hpng'; subst png'. eauto.
Qed.

Lemma unpack_writes_every_resource_witness :
  exists fs',
    script "unpack" sample_container no_files = (fs', None, Ok tt) /\
    (forall r, In r (resources sample_resfile) ->
       exists png,
         convert_palette_image_to_png (image_info r) (image_data r) = Ok png /\
         Image.size png = (width (image_info r), height (image_info r)) /\
         fs' (filename r) = Some png) /\
    (forall name, ~ In name (map filename (resources sample_resfile)) ->
                  fs' name = no_files name).
Proof.
  apply (unpack_writes_every_resource sample_container sample_resfile no_files).
  - reflexivity.
  - constructor; [|constructor; [|constructor]].
    + split.
      * unfold decodable.
        change (0 < 2 /\ 0 < 1 /\ 0 <= 2 <= 256 /\ 0 < 2 <= 31). lia.
      * change (4 * 2 <= 9). lia.
    + split.
      * unfold decodable.
        change (0 < 1 /\ 0 < 1 /\ 0 <= 0 <= 256 /\ 0 < 8 <= 31). lia.
      * change (4 * 0 <= 1). lia.
Defined.





(** ** The raster that decoding returns *)

(** X15.  What decoding returns for a payload of [palette_colors]
    palette entries followed by [height] rows of [row_length] bytes (and
    any bytes after them), for an image with pixels and at most 256
    colours, at 1 to 8 bits per pixel with rows long enough for [width]
    pixels: a PNG file of the header's size; channel [c] of colour [i] of
    its palette is byte [4 * i + c] of the palette entries, the fourth
    byte of an entry being ignored; and pixel [(x, y)] is the integer
    whose bits, most significant first, are bits [x * bits_per_pixel] to
    [(x + 1) * bits_per_pixel - 1] of row [y], as the file stores it at
    its depth of 1, 2, 4 or 8 bits for up to 2, 4, 16 or 256 colours: an
    index that fits the depth is kept; at 1 bit any other index reads 1,
    at 2 and 4 bits it reads its low bits. *)
Theorem decoded_raster (h : ImageHeader) (palette_data : list byte)
        (rows : list (list byte)) (tail : list byte) :
  Z.of_nat (List.length palette_data) = 4 * palette_colors h ->
  height h = Z.of_nat (List.length rows) ->
  Forall (fun row => Z.of_nat (List.length row) = row_length h) rows ->
  0 < width h -> 0 < height h -> palette_colors h <= 256 ->
  0 < bits_per_pixel h <= 8 ->
  width h * bits_per_pixel h <= 8 * row_length h ->
  exists png,
    convert_palette_image_to_png h (palette_data ++ concat rows ++ tail)
    = Ok png /\
    Image.size png = (width h, height h) /\
    (forall i c, (Z.of_nat i < palette_colors h) -> (c < 3)%nat ->
       nth (3 * i + c) (Image.palette png) 0
       = Z_of_byte (nth (4 * i + c) palette_data x00)) /\
    (forall x y, (Z.of_nat x < width h) -> (y < List.length rows)%nat ->
       Image.pixels png (Z.of_nat x) (Z.of_nat y)
       = Image.png_index
           (Image.png_depth (palette_colors h))
           (bits_to_int
              (firstn (Z.to_nat (bits_per_pixel h))
                 (skipn (x * Z.to_nat (bits_per_pixel h))
                        (bitwalker (nth y rows []))))) /\
       (bits_to_int
          (firstn (Z.to_nat (bits_per_pixel h))
             (skipn (x * Z.to_nat (bits_per_pixel h))
                    (bitwalker (nth y rows []))))
        < 2 ^ Image.png_depth (palette_colors h) ->
        Image.pixels png (Z.of_nat x) (Z.of_nat y)
        = bits_to_int
            (firstn (Z.to_nat (bits_per_pixel h))
               (skipn (x * Z.to_nat (bits_per_pixel h))
                      (bitwalker (nth y rows [])))))).
Proof.
  intros Hpd Hheight Hrows Hw Hh Hmax Hb Hfit.
  destruct (decode_payload h palette_data rows tail Hpd Hrows ltac:(lia)
              Hw Hh Hmax ltac:(lia))
    as (png & Hdec & Hsize & Hchan & Hpix & _).
  exists png. split; [exact Hdec|]. split; [exact Hsize|].
  split; [exact Hchan|].
  intros x y Hx Hy.
  pose proof (chunk_value_range (Z.to_nat (bits_per_pixel h))
                (x * Z.to_nat (bits_per_pixel h)) (nth y rows [])) as Hrange.
  assert (H256 : 2 ^ Z.of_nat (Z.to_nat (bits_per_pixel h)) <= 256).
  { change 256 with (2 ^ 8). apply Z.pow_le_mono_r; lia. }
  rewrite Hpix by (assumption || nia).
  rewrite clip8_u8 by lia.
  split; [reflexivity|].
  intros Hsmall. apply png_index_fits. lia.
Qed.

Lemma decoded_raster_witness :
  exists png,
    convert_palette_image_to_png (image_info sample_parsed)
      ([x0a; x0b; x0c; x01; x0d; x0e; x0f; x02] ++ concat [[xd0]] ++ [xff])
    = Ok png /\
    Image.size png
    = (width (image_info sample_parsed), height (image_info sample_parsed)) /\
    (forall i c,
       (Z.of_nat i < palette_colors (image_info sample_parsed)) -> (c < 3)%nat ->
       nth (3 * i + c) (Image.palette png) 0
       = Z_of_byte (nth (4 * i + c)
                        [x0a; x0b; x0c; x01; x0d; x0e; x0f; x02] x00)) /\
    (forall x y,
       (Z.of_nat x < width (image_info sample_parsed)) ->
       (y < List.length [[xd0]])%nat ->
       Image.pixels png (Z.of_nat x) (Z.of_nat y)
       = Image.png_index
           (Image.png_depth (palette_colors (image_info sample_parsed)))
           (bits_to_int
              (firstn (Z.to_nat (bits_per_pixel (image_info sample_parsed)))
                 (skipn (x * Z.to_nat (bits_per_pixel (image_info sample_parsed)))
                        (bitwalker (nth y [[xd0]] []))))) /\
       (bits_to_int
          (firstn (Z.to_nat (bits_per_pixel (image_info sample_parsed)))
             (skipn (x * Z.to_nat (bits_per_pixel (image_info sample_parsed)))
                    (bitwalker (nth y [[xd0]] []))))
        < 2 ^ Image.png_depth (palette_colors (image_info sample_parsed)) ->
        Image.pixels png (Z.of_nat x) (Z.of_nat y)
        = bits_to_int
            (firstn (Z.to_nat (bits_per_pixel (image_info sample_parsed)))
               (skipn (x * Z.to_nat (bits_per_pixel (image_info sample_parsed)))
                      (bitwalker (nth y [[xd0]] [])))))).
Proof.
  apply (decoded_raster (image_info sample_parsed)
           [x0a; x0b; x0c; x01; x0d; x0e; x0f; x02] [[xd0]] [xff]).
  - reflexivity.
  - reflexivity.
  - repeat constructor.
  - change (0 < 2). lia.
  - change (0 < 1). lia.
  - change (2 <= 256). lia.
  - change (0 < 2 <= 8). lia.
  - change (2 * 2 <= 8 * 1). lia.
Defined.

(** ** What the script never does *)

Lemma unpack_resources_keeps (resources : list Resource) :
  forall (fs : files) (name : Z),
    fs name <> None -> fst (unpack_resources fs resources) name <> None.
Proof.
  induction resources as [|r resources IH]; intros fs name Hfile;
    cbn [unpack_resources]; [exact Hfile|].
  unfold write_resource.
  destruct (convert_palette_image_to_png (image_info r) (image_data r))
    as [png|e]; cbn [bind]; [|exact Hfile].
  apply IH. destruct (name =? filename r); [discriminate | exact Hfile].
Qed.

(** X16.  No run of the script removes a PNG file: whatever the command
    and the container, and whether the run ends or raises, a file that
    was there before the run is there after it (possibly overwritten).
    Only the commands [repack] and [justdoit] can open a new container. *)
Theorem script_keeps_files (command : string) (data : list byte) (fs : files)
        (name : Z) :
  fs name <> None ->
  fst (fst (script command data fs)) name <> None /\
  (snd (fst (script command data fs)) <> None ->
   command = "repack"%string \/ command = "justdoit"%string).
Proof.
  intros Hfile. unfold script.
  destruct (parse_res_file data) as [parsed|e]; cbn [fst snd];
    [|split; [exact Hfile | congruence]].
  pose proof (unpack_resources_keeps (resources parsed) fs name Hfile) as Hkeep.
  destruct (String.eqb_spec command "unpack") as [_|_].
  { destruct (unpack_resources fs (resources parsed)) as [fs' r].
    cbn [fst snd] in *. split; [exact Hkeep | congruence]. }
  destruct (String.eqb_spec command "repack") as [Hc|_].
  { destruct (repack_res_file fs parsed) as [outfh r].
    cbn [fst snd]. split; [exact Hfile | now left]. }
  destruct (String.eqb_spec command "justdoit") as [Hc|_];
    [|cbn [fst snd]; split; [exact Hfile | congruence]].
  destruct (unpack_resources fs (resources parsed)) as [fs' [u|e]];
    cbn [fst snd] in *.
  - destruct (repack_res_file fs' parsed) as [outfh r].
    cbn [fst snd]. split; [exact Hkeep | now right].
  - split; [exact Hkeep | now right].
Qed.

Lemma script_keeps_files_witness :
  fst (fst (script "unpack" sample_container
                   (fun name => if name =? 7 then Some blank_1x1 else None)))
      7 <> None /\
  (snd (fst (script "unpack" sample_container
                    (fun name => if name =? 7 then Some blank_1x1 else None)))
   <> None ->
   "unpack"%string = "repack"%string \/ "unpack"%string = "justdoit"%string).
Proof.
  apply (script_keeps_files "unpack" sample_container
           (fun name => if name =? 7 then Some blank_1x1 else None) 7).
  discriminate.
Defined.
